(** * Resumable S3 object-version export: a shallow embedding

    This development embeds [s3_listobjectversions_to_csv.py] (class
    [S3VersionsExporter]) and checks the properties its specification states
    about key encoding, the dedup identity, the dedup set and its trim, the
    checkpoint files, the CSV writer thread and the listing loop.

    Conventions.
    - A Python [str] is a [string] holding its UTF-8 bytes; [None]-able
      values are [option]s; Python [int]s are [Z].
    - A Python [set] of strings is the list of its members in the order they
      were added (no duplicates).  The order in which CPython iterates over a
      set is not the insertion order; it is the Section variable
      [set_order] below.
    - Wall-clock readings ([time.time()], [datetime.now()],
      [os.path.getmtime]) are [Z] microseconds since the epoch.
    - The listing API, the credential refresh and the clock are scripted:
      every loop iteration consumes one environment event.
    - A checkpoint file is described twice: as the dictionary the code
      writes ([StateDict]), which the runs use, and as a JSON value of any
      shape ([Json]), for what the load does with a file it did not write;
      [load_raw_refines] relates the two.
    - The output file is the list of its records, each a list of cells as
      written; reading it applies the translation of line ends of a text
      file opened without [newline='']. *)

From Stdlib Require Import ZArith Ascii String List Lia Bool Permutation Sorted.
From stdpp Require Import base option list strings gmap sorting pretty.

Local Open Scope Z_scope.


(* ===================================================================== *)
(** ** Python string helpers *)
(* ===================================================================== *)

Module PyStr.

(** [c in s] for a one-character [c]. *)
Fixpoint contains (c : ascii) (s : string) : bool :=
  match s with
  | EmptyString => false
  | String d s' => if Ascii.eqb c d then true else contains c s'
  end.

(** [s.replace(a, b)] for one-character [a] and [b]. *)
Fixpoint replace (a b : ascii) (s : string) : string :=
  match s with
  | EmptyString => EmptyString
  | String d s' => String (if Ascii.eqb d a then b else d) (replace a b s')
  end.

(** [s.lstrip(c)], [s.rstrip(c)] and [s.strip(c)] for a one-character [c]. *)
Fixpoint lstrip (c : ascii) (s : string) : string :=
  match s with
  | String d s' => if Ascii.eqb d c then lstrip c s' else s
  | EmptyString => EmptyString
  end.

Definition rstrip (c : ascii) (s : string) : string :=
  String.rev (lstrip c (String.rev s)).

Definition strip (c : ascii) (s : string) : string := rstrip c (lstrip c s).

(** Truthiness of an optional string: [None] and [''] are falsy. *)
Definition truthy (o : option string) : bool :=
  match o with
  | Some (String _ _) => true
  | _ => false
  end.

(** [s.lower().startswith('y')]. *)
Definition lower_starts_y (s : string) : bool :=
  match s with
  | String c _ => Ascii.eqb c "y" || Ascii.eqb c "Y"
  | EmptyString => false
  end.

Definition dquote : ascii := Ascii.ascii_of_nat 34.

End PyStr.

(* ===================================================================== *)
(** ** [urllib.parse.quote] and [quote_plus] *)
(* ===================================================================== *)

Module Urllib.

Definition in_range (lo hi : N) (c : ascii) : bool :=
  (N.leb lo (N_of_ascii c) && N.leb (N_of_ascii c) hi)%bool.

(** [_ALWAYS_SAFE]: ASCII letters, digits and [_.-~]. *)
Definition always_safe (c : ascii) : bool :=
  (in_range 65 90 c || in_range 97 122 c || in_range 48 57 c
   || PyStr.contains c "_.-~")%bool.

Definition hex_digit (n : N) : ascii :=
  if N.ltb n 10 then ascii_of_N (48 + n) else ascii_of_N (55 + n).

(** ['%{:02X}'.format(byte)]. *)
Definition pct (c : ascii) : string :=
  String "%" (String (hex_digit (N.div (N_of_ascii c) 16))
             (String (hex_digit (N.modulo (N_of_ascii c) 16)) EmptyString)).

Definition quote_byte (safe : string) (c : ascii) : string :=
  if (always_safe c || PyStr.contains c safe)%bool
  then String c EmptyString else pct c.

(** [quote(s, safe, encoding='utf-8')]: every byte of the UTF-8 encoding
    that is neither always safe nor in [safe] becomes [%XX]. *)
Fixpoint quote (safe : string) (s : string) : string :=
  match s with
  | EmptyString => EmptyString
  | String c s' => quote_byte safe c +:+ quote safe s'
  end.

(** [quote_plus(s, safe, encoding='utf-8')]: without a space it is
    [quote]; with one, the space is added to the safe characters and then
    replaced by a plus sign. *)
Definition quote_plus (safe : string) (s : string) : string :=
  if PyStr.contains " " s
  then PyStr.replace " " "+" (quote (safe +:+ " ") s)
  else quote safe s.

(** What the specification calls the percent-encoding of a key with the
    path separator preserved: every byte that is not unreserved and is not
    [/] is percent-escaped. *)
Definition percent_encode_preserving_slash (s : string) : string :=
  quote "/" s.

(** The per-byte reading of [quote_plus(_, safe='/')]. *)
Definition plus_byte (c : ascii) : string :=
  if Ascii.eqb c " " then "+" else quote_byte "/" c.

Fixpoint plus_encode (s : string) : string :=
  match s with
  | EmptyString => EmptyString
  | String c s' => plus_byte c +:+ plus_encode s'
  end.

End Urllib.

(* ===================================================================== *)
(** ** Data model *)
(* ===================================================================== *)

(** An entry of [response['Versions']]. *)
Record Version := {
  v_Key : string;
  v_VersionId : string;
  v_IsLatest : bool;
  v_Size : Z;
  v_LastModified : string;          (* already in ISO format *)
  v_StorageClass : option string;
  v_ETag : option string
}.

(** An entry of [response['DeleteMarkers']]. *)
Record DeleteMarker := {
  d_Key : string;
  d_VersionId : string;
  d_IsLatest : bool;
  d_LastModified : string;
  d_ETag : option string
}.

(** The response of [list_object_versions]. *)
Record Response := {
  Versions : list Version;
  DeleteMarkers : list DeleteMarker;
  IsTruncated : bool;
  NextKeyMarker : option string;
  NextVersionIdMarker : option string
}.

(** What one call of the listing API does: it answers, raises a
    [ClientError] with an error code, or raises something else. *)
Inductive ApiResult :=
| ApiOk (r : Response)
| ApiClientError (code : string)
| ApiException (msg : string).

(** The columns a full row has beyond the three compact ones. *)
Record RowExtra := {
  is_latest : bool;
  delete_marker : bool;
  size : Z;
  last_modified : string;
  storage_class : string;
  e_tag : string
}.

(** A row put on [write_queue]; [extra = None] in BOPS-compatible mode. *)
Record Row := {
  bucket_name : string;
  key_name : string;
  version_id : string;
  extra : option RowExtra
}.

(** The dictionary [process_batch] returns. *)
Record BatchResult := {
  batch_count : Z;
  is_truncated : bool;
  next_key_marker : option string;
  next_version_marker : option string;
  error : option string;
  retry_after_refresh : bool
}.

(** The [timestamp] entry of a checkpoint: missing or empty, present but
    rejected by [datetime.fromisoformat] (or not comparable with
    [datetime.now()]), or a naive local time. *)
Inductive TsField :=
| TsAbsent
| TsInvalid
| TsAt (t : Z).

(** The dictionary stored in a checkpoint file. *)
Record StateDict := {
  st_bucket_name : option string;
  st_prefix : option string;
  st_next_key_marker : option string;
  st_next_version_marker : option string;
  st_batch_num : Z;
  st_total_items : Z;
  st_timestamp : TsField;
  st_original_start_time : Z;
  st_cumulative_runtime : Z;
  st_csv_mtime : option Z;
  st_processed_keys : list string
}.

(** The content of a checkpoint file: a dictionary with members of the
    types [_save_resume_state] writes, or something on which [json.load] or
    a later access raises the given exception text.  Files with members of
    other types are the subject of [_load_resume_state_raw] below. *)
Inductive CkptFile :=
| CkptDict (d : StateDict)
| CkptUnreadable (exn : string).

(** Why [_load_resume_state] refuses a checkpoint. *)
Inductive Rejection :=
| NoCheckpointFile
| BucketMismatch (stored : option string) (current : string)
| PrefixMismatch (stored current : option string)
| TooOld
| InvalidTimestamp
| CsvModified
| Corrupted (exn : string).

Inductive LoadResult :=
| Loaded (d : StateDict)
| Rejected (r : Rejection).

(** The exporter object: the attributes the embedded methods read or
    write.  [total_processed], [error_count] and [stop_writer] are the ones
    the writer thread shares with the main thread. *)
Record Exporter := {
  processed_keys : list string;
  resume_state_file : option string;
  current_batch_num : Z;
  checkpoint_printed : bool;
  total_processed : Z;
  error_count : Z;
  stop_writer : bool;
  session_start_time : Z;
  original_start_time : option Z;
  cumulative_runtime : option Z;
  profile_name : option string
}.

(** [S3VersionsExporter.__init__]. *)
Definition new_exporter (profile : option string) : Exporter :=
  {| processed_keys := [];
     resume_state_file := None;
     current_batch_num := 0;
     checkpoint_printed := false;
     total_processed := 0;
     error_count := 0;
     stop_writer := false;
     session_start_time := 0;
     original_start_time := None;
     cumulative_runtime := None;
     profile_name := profile |}.

Definition with_processed_keys (e : Exporter) (ks : list string) : Exporter :=
  {| processed_keys := ks;
     resume_state_file := resume_state_file e;
     current_batch_num := current_batch_num e;
     checkpoint_printed := checkpoint_printed e;
     total_processed := total_processed e;
     error_count := error_count e;
     stop_writer := stop_writer e;
     session_start_time := session_start_time e;
     original_start_time := original_start_time e;
     cumulative_runtime := cumulative_runtime e;
     profile_name := profile_name e |}.

Definition with_error_count (e : Exporter) (n : Z) : Exporter :=
  {| processed_keys := processed_keys e;
     resume_state_file := resume_state_file e;
     current_batch_num := current_batch_num e;
     checkpoint_printed := checkpoint_printed e;
     total_processed := total_processed e;
     error_count := n;
     stop_writer := stop_writer e;
     session_start_time := session_start_time e;
     original_start_time := original_start_time e;
     cumulative_runtime := cumulative_runtime e;
     profile_name := profile_name e |}.

Definition with_current_batch_num (e : Exporter) (n : Z) : Exporter :=
  {| processed_keys := processed_keys e;
     resume_state_file := resume_state_file e;
     current_batch_num := n;
     checkpoint_printed := checkpoint_printed e;
     total_processed := total_processed e;
     error_count := error_count e;
     stop_writer := stop_writer e;
     session_start_time := session_start_time e;
     original_start_time := original_start_time e;
     cumulative_runtime := cumulative_runtime e;
     profile_name := profile_name e |}.

(* ===================================================================== *)
(** ** The dedup set *)
(* ===================================================================== *)

(** [f"{key}-{version_id}"], the identity under which a record is
    remembered in [processed_keys]. *)
Definition key_version (key version_id : string) : string :=
  key +:+ "-" +:+ version_id.

(** [x in s] for a set [s]. *)
Definition set_mem (x : string) (s : list string) : bool :=
  bool_decide (x ∈ s).

(** [s.add(x)]: a member is not added twice. *)
Definition set_add (x : string) (s : list string) : list string :=
  if set_mem x s then s else s ++ [x].

(** [set(l)]. *)
Definition set_of_list (l : list string) : list string :=
  fold_left (fun s x => set_add x s) l [].

(** [l[-n:]]: the last [n] elements, all of [l] when it is shorter. *)
Definition py_tail {A} (n : Z) (l : list A) : list A :=
  drop (Z.to_nat (Z.of_nat (length l) - n)) l.

Definition HIGH_WATERMARK : Z := 200000.
Definition LOW_WATERMARK : Z := 10000.

Section Exporter.

(** The order in which CPython iterates over a set with the given
    insertion history ([list(s)], [for x in s]).  It is fixed by the hash
    table, that is by the string hashes (seeded per process) and the
    history; the language only promises an enumeration of the members. *)
Variable set_order : list string -> list string.

(** [self.processed_keys = set(list(self.processed_keys)[-10000:])]. *)
Definition trim_processed_keys (s : list string) : list string :=
  set_of_list (py_tail LOW_WATERMARK (set_order s)).

(* =================================================================== *)
(** ** [process_batch] *)
(* =================================================================== *)

(** The keyword arguments of [list_object_versions]. *)
Record ListParams := {
  p_Bucket : string;
  p_MaxKeys : Z;
  p_Prefix : option string;
  p_KeyMarker : option string;
  p_VersionIdMarker : option string
}.

Definition if_truthy (o : option string) : option string :=
  if PyStr.truthy o then o else None.

Definition list_params (bucket : string) (prefix key_marker version_marker : option string)
  : ListParams :=
  {| p_Bucket := bucket;
     p_MaxKeys := 1000;
     p_Prefix := if_truthy prefix;
     p_KeyMarker := if_truthy key_marker;
     p_VersionIdMarker := if_truthy version_marker |}.

(** [urllib.parse.quote_plus(key, safe='/', encoding='utf-8') if url_encode else key]. *)
Definition encode_key (url_encode : bool) (key : string) : string :=
  if url_encode then Urllib.quote_plus "/" key else key.

Definition strip_etag (etag : option string) : string :=
  PyStr.strip PyStr.dquote (default "" etag).

Definition row_of_version (bucket : string) (bops_compatible url_encode : bool)
    (v : Version) : Row :=
  {| bucket_name := bucket;
     key_name := encode_key url_encode (v_Key v);
     version_id := v_VersionId v;
     extra :=
       if bops_compatible then None
       else Some {| is_latest := v_IsLatest v;
                    delete_marker := false;
                    size := v_Size v;
                    last_modified := v_LastModified v;
                    storage_class := default "STANDARD" (v_StorageClass v);
                    e_tag := strip_etag (v_ETag v) |} |}.

Definition row_of_delete_marker (bucket : string) (bops_compatible url_encode : bool)
    (d : DeleteMarker) : Row :=
  {| bucket_name := bucket;
     key_name := encode_key url_encode (d_Key d);
     version_id := d_VersionId d;
     extra :=
       if bops_compatible then None
       else Some {| is_latest := d_IsLatest d;
                    delete_marker := true;
                    size := 0;
                    last_modified := d_LastModified d;
                    storage_class := "STANDARD";
                    e_tag := strip_etag (d_ETag d) |} |}.

(** The two [for] loops of [process_batch] run over the versions and then
    over the delete markers; a record is one or the other. *)
Definition record : Type := Version + DeleteMarker.

Definition records_of (r : Response) : list record :=
  map inl (Versions r) ++ map inr (DeleteMarkers r).

Definition record_key (r : record) : string :=
  match r with inl v => v_Key v | inr d => d_Key d end.

Definition record_version_id (r : record) : string :=
  match r with inl v => v_VersionId v | inr d => d_VersionId d end.

Definition row_of_record (bucket : string) (bops_compatible url_encode : bool)
    (r : record) : Row :=
  match r with
  | inl v => row_of_version bucket bops_compatible url_encode v
  | inr d => row_of_delete_marker bucket bops_compatible url_encode d
  end.

(** The state of the two loops: the dedup set, the rows put on the queue so
    far and [batch_count]. *)
Definition batch_acc : Type := list string * list Row * Z.

(** One iteration of either loop body. *)
Definition process_record (bucket : string) (bops_compatible url_encode : bool)
    (acc : batch_acc) (r : record) : batch_acc :=
  let '(keys, put, count) := acc in
  let kv := key_version (record_key r) (record_version_id r) in
  if set_mem kv keys then acc
  else (set_add kv keys,
        put ++ [row_of_record bucket bops_compatible url_encode r],
        count + 1).

Definition process_records (bucket : string) (bops_compatible url_encode : bool)
    (keys : list string) (rs : list record) : batch_acc :=
  fold_left (process_record bucket bops_compatible url_encode) rs (keys, [], 0).

Definition client_error_message (bucket code : string) : string :=
  if String.eqb code "NoSuchBucket" then
    "Bucket '" +:+ bucket +:+ "' does not exist or you don't have access to it"
  else if String.eqb code "AccessDenied" then
    "Access denied to bucket '" +:+ bucket +:+ "'. Check your permissions."
  else if String.eqb code "ExpiredToken" then
    "AWS credentials have expired. Please refresh your credentials and retry."
  else if String.eqb code "InvalidToken" then
    "AWS credentials are invalid. Please check your credentials and retry."
  else if String.eqb code "TokenRefreshRequired" then
    "AWS token refresh required. Please refresh your credentials and retry."
  else "AWS Error [" +:+ code +:+ "]: Access or configuration issue".

Definition is_token_error (code : string) : bool :=
  (String.eqb code "ExpiredToken" || String.eqb code "InvalidToken"
   || String.eqb code "TokenRefreshRequired")%bool.

Definition error_result (msg : string) (retry : bool) : BatchResult :=
  {| batch_count := 0;
     is_truncated := false;
     next_key_marker := None;
     next_version_marker := None;
     error := Some msg;
     retry_after_refresh := retry |}.

(** [process_batch]: the request sent, the exporter afterwards, the rows
    put on [write_queue] (in order) and the returned dictionary.  [api] is
    what the call of [list_object_versions] does this time. *)
Definition process_batch (self : Exporter) (api : ApiResult)
    (bucket : string) (prefix key_marker version_marker : option string)
    (bops_compatible url_encode : bool)
  : ListParams * Exporter * list Row * BatchResult :=
  let params := list_params bucket prefix key_marker version_marker in
  match api with
  | ApiOk response =>
      let '(keys, put, count) :=
        process_records bucket bops_compatible url_encode
          (processed_keys self) (records_of response) in
      (params, with_processed_keys self keys, put,
       {| batch_count := count;
          is_truncated := IsTruncated response;
          next_key_marker := NextKeyMarker response;
          next_version_marker := NextVersionIdMarker response;
          error := None;
          retry_after_refresh := false |})
  | ApiClientError code =>
      (params, with_error_count self (error_count self + 1), [],
       error_result (client_error_message bucket code) (is_token_error code))
  | ApiException msg =>
      (params, with_error_count self (error_count self + 1), [],
       error_result msg false)
  end.

(* =================================================================== *)
(** ** Checkpoint files *)
(* =================================================================== *)

Definition HOURS_24 : Z := 24 * 3600 * 1000000.
Definition MTIME_TOLERANCE : Z := 10 * 1000000.

(** What happens when the checkpoint file is written: it succeeds, [open]
    raises (the file is left as it was), or [json.dump] raises after the
    file was truncated. *)
Inductive FsWrite := WriteOk | WriteFailsAtOpen | WriteFailsMidway.

Definition with_checkpoint_printed (e : Exporter) : Exporter :=
  {| processed_keys := processed_keys e;
     resume_state_file := resume_state_file e;
     current_batch_num := current_batch_num e;
     checkpoint_printed := true;
     total_processed := total_processed e;
     error_count := error_count e;
     stop_writer := stop_writer e;
     session_start_time := session_start_time e;
     original_start_time := original_start_time e;
     cumulative_runtime := cumulative_runtime e;
     profile_name := profile_name e |}.

(** [_save_resume_state].  [now] is the clock, [out_mtime] is
    [os.path.getmtime(output_file)] or [None] when the output file does
    not exist, [fs] maps the paths of checkpoint files to their content. *)
Definition _save_resume_state (self : Exporter) (fs : gmap string CkptFile)
    (now : Z) (out_mtime : option Z) (w : FsWrite)
    (bucket : string) (prefix next_key next_version : option string)
    (batch_num total_items : Z)
  : Exporter * gmap string CkptFile :=
  match resume_state_file self with
  | None => (self, fs)
  | Some path =>
      let state :=
        {| st_bucket_name := Some bucket;
           st_prefix := prefix;
           st_next_key_marker := next_key;
           st_next_version_marker := next_version;
           st_batch_num := batch_num;
           st_total_items := total_items;
           st_timestamp := TsAt now;
           st_original_start_time := default now (original_start_time self);
           st_cumulative_runtime :=
             default 0 (cumulative_runtime self) + (now - session_start_time self);
           st_csv_mtime := out_mtime;
           st_processed_keys := set_order (processed_keys self) |} in
      match w with
      | WriteOk => (with_checkpoint_printed self, <[path := CkptDict state]> fs)
      | WriteFailsAtOpen => (self, fs)
      | WriteFailsMidway =>
          (self, <[path := CkptUnreadable "Expecting value"]> fs)
      end
  end.

Definition after_load (e : Exporter) (d : StateDict) : Exporter :=
  {| processed_keys := set_of_list (st_processed_keys d);
     resume_state_file := resume_state_file e;
     current_batch_num := current_batch_num e;
     checkpoint_printed := checkpoint_printed e;
     total_processed := total_processed e;
     error_count := error_count e;
     stop_writer := stop_writer e;
     session_start_time := session_start_time e;
     original_start_time := Some (st_original_start_time d);
     cumulative_runtime := Some (st_cumulative_runtime d);
     profile_name := profile_name e |}.

(** The test [state.get('csv_mtime') and os.path.exists(output_file)]
    followed by the comparison of the two modification times: a missing,
    null or zero [csv_mtime] is falsy and skips the comparison. *)
Definition csv_modified (stored current : option Z) : bool :=
  match stored, current with
  | Some m, Some cur =>
      if Z.eqb m 0 then false else Z.ltb MTIME_TOLERANCE (Z.abs (cur - m))
  | _, _ => false
  end.

(** [_load_resume_state]: the result and the exporter afterwards (the
    dedup set and the run times are replaced before the modification time
    of the output file is looked at). *)
Definition _load_resume_state (self : Exporter) (fs : gmap string CkptFile)
    (now : Z) (out_mtime : option Z) (bucket : string) (prefix : option string)
  : LoadResult * Exporter :=
  match resume_state_file self with
  | None => (Rejected NoCheckpointFile, self)
  | Some path =>
      match fs !! path with
      | None => (Rejected NoCheckpointFile, self)
      | Some (CkptUnreadable exn) => (Rejected (Corrupted exn), self)
      | Some (CkptDict state) =>
          if negb (bool_decide (st_bucket_name state = Some bucket)) then
            (Rejected (BucketMismatch (st_bucket_name state) bucket), self)
          else if negb (bool_decide (st_prefix state = prefix)) then
            (Rejected (PrefixMismatch (st_prefix state) prefix), self)
          else
            match st_timestamp state with
            | TsInvalid => (Rejected InvalidTimestamp, self)
            | TsAt t =>
                if Z.ltb HOURS_24 (now - t) then (Rejected TooOld, self)
                else if csv_modified (st_csv_mtime state) out_mtime
                     then (Rejected CsvModified, after_load self state)
                     else (Loaded state, after_load self state)
            | TsAbsent =>
                if csv_modified (st_csv_mtime state) out_mtime
                then (Rejected CsvModified, after_load self state)
                else (Loaded state, after_load self state)
            end
      end
  end.

(** The text of the ['error'] entry of a rejection. *)
Definition show_opt (o : option string) : string := default "None" o.

Definition rejection_message (r : Rejection) : string :=
  match r with
  | NoCheckpointFile => "checkpoint file does not exist"
  | BucketMismatch stored current =>
      "bucket mismatch (checkpoint: " +:+ show_opt stored
        +:+ ", current: " +:+ current +:+ ")"
  | PrefixMismatch stored current =>
      "prefix mismatch (checkpoint: " +:+ show_opt stored
        +:+ ", current: " +:+ show_opt current +:+ ")"
  | TooOld => "checkpoint is more than 24 hours old"
  | InvalidTimestamp => "invalid checkpoint timestamp"
  | CsvModified => "CSV file was modified externally since last checkpoint"
  | Corrupted exn => "corrupted checkpoint file (" +:+ exn +:+ ")"
  end.

(** [_cleanup_resume_state]; [removable = false] when [os.remove] raises. *)
Definition _cleanup_resume_state (self : Exporter) (fs : gmap string CkptFile)
    (removable : bool) : gmap string CkptFile :=
  match resume_state_file self with
  | Some path => if removable then delete path fs else fs
  | None => fs
  end.

(* =================================================================== *)
(** ** The output file and [_check_existing_csv_for_resume] *)
(* =================================================================== *)

(** The output file: its modification time and its records, each a list of
    the cells that were written.  The quoting of the [csv] module is not
    modelled; the translation of line ends on reading is (see
    [universal_newlines]). *)
Record OutFile := {
  o_mtime : Z;
  o_lines : list (list string)
}.

Definition fieldnames (bops_compatible : bool) : list string :=
  if bops_compatible then ["bucket_name"; "key_name"; "version_id"]
  else ["bucket_name"; "key_name"; "version_id"; "is_latest"; "delete_marker";
        "size"; "last_modified"; "storage_class"; "e_tag"].

Definition str_bool (b : bool) : string := if b then "True" else "False".

(** The cells [csv.DictWriter.writerow] writes for a row. *)
Definition row_cells (r : Row) : list string :=
  [bucket_name r; key_name r; version_id r] ++
  match extra r with
  | None => []
  | Some x => [str_bool (is_latest x); str_bool (delete_marker x); pretty (size x);
               last_modified x; storage_class x; e_tag x]
  end.

(** [row.get(name, dflt)] rendered by an f-string, for the dictionary
    [csv.DictReader] builds from the field names and the cells of a record:
    the last field of that name wins, a field without a cell is [None]. *)
Fixpoint row_get (name : string) (fields cells : list string) (dflt : string) : string :=
  match fields with
  | [] => dflt
  | f :: fields' =>
      let v := match cells with [] => "None" | c :: _ => c end in
      row_get name fields' (tail cells) (if String.eqb f name then v else dflt)
  end.

Definition carriage_return : ascii := Ascii.ascii_of_nat 13.
Definition line_feed : ascii := Ascii.ascii_of_nat 10.

(** What a text file opened for reading without [newline=''] does to the
    characters it hands over: ["\r\n"] and a lone ["\r"] become ["\n"].
    The writer opens the file with [newline=''] and writes every character
    as it is, so a carriage return inside a quoted cell comes back as a line
    feed. *)
Fixpoint universal_newlines (s : string) : string :=
  match s with
  | EmptyString => EmptyString
  | String c rest =>
      if Ascii.eqb c carriage_return then
        match rest with
        | String c' _ =>
            if Ascii.eqb c' line_feed then universal_newlines rest
            else String line_feed (universal_newlines rest)
        | EmptyString => String line_feed EmptyString
        end
      else String c (universal_newlines rest)
  end.

(** The records [csv.DictReader] gets from the file
    [_check_existing_csv_for_resume] opens. *)
Definition read_records (lines : list (list string)) : list (list string) :=
  map (map universal_newlines) lines.

(** The identities [_check_existing_csv_for_resume] adds: the first record
    of the file gives the field names, empty records are skipped. *)
Definition csv_identities (lines : list (list string)) : list string :=
  match read_records lines with
  | [] => []
  | fields :: records =>
      map (fun cells => key_version (row_get "key_name" fields cells "")
                                    (row_get "version_id" fields cells ""))
          (filter (fun cells => cells <> []) records)
  end.

(** [_check_existing_csv_for_resume]: the count returned and the exporter
    afterwards. *)
Definition _check_existing_csv_for_resume (self : Exporter) (out : option OutFile)
  : Z * Exporter :=
  match out with
  | None => (0, self)
  | Some f =>
      let ids := csv_identities (o_lines f) in
      (Z.of_nat (length ids),
       with_processed_keys self
         (fold_left (fun s x => set_add x s) ids (processed_keys self)))
  end.

(* =================================================================== *)
(** ** [csv_writer_worker] *)
(* =================================================================== *)

(** [sort_buffer.sort(key=lambda x: x['key_name'])]: a stable sort by
    [key_name], strings compared byte by byte. *)
Fixpoint insert_by_key (r : Row) (l : list Row) : list Row :=
  match l with
  | [] => [r]
  | x :: l' =>
      if String.ltb (key_name r) (key_name x) then r :: l
      else x :: insert_by_key r l'
  end.

Definition sort_by_key_name (l : list Row) : list Row :=
  fold_left (fun acc r => insert_by_key r acc) l [].

(** What happens when a buffer is written: all rows are written and
    flushed, [writerow] raises at the row of the given index, or [flush]
    raises after the rows. *)
Inductive IoOutcome := IoOk | IoFailsAtRow (k : nat) | IoFailsAtFlush.

(** One round of the writer loop as the environment shapes it: how many
    [get]s are attempted before the two seconds are over, and what the
    write does if there is one. *)
Record WriterEvent := {
  w_take : nat;
  w_io : IoOutcome
}.

(** The writer thread: its buffer, the write units it appended to the
    file (oldest first), its stop flag, what it added to the shared
    counters and the items of [write_queue] it has not taken yet
    ([None] is the sentinel). *)
Record Writer := {
  sort_buffer : list Row;
  units : list (list Row);
  w_stop : bool;
  w_processed : Z;
  w_errors : Z;
  w_queue : list (option Row)
}.

(** The inner [while] loop: rows are taken until 2000 are collected, the
    time is over, the queue is empty for half a second or the sentinel
    arrives. *)
Fixpoint collect (gets : nat) (q : list (option Row)) (batch : list Row)
  : list Row * list (option Row) * bool :=
  match gets with
  | O => (batch, q, false)
  | S gets' =>
      if Z.leb 2000 (Z.of_nat (length batch)) then (batch, q, false)
      else match q with
           | [] => (batch, q, false)
           | None :: q' => (batch, q', true)
           | Some r :: q' => collect gets' q' (batch ++ [r])
           end
  end.

(** The rows that reach the file and whether the write went through. *)
Definition write_rows (io : IoOutcome) (rows : list Row) : list Row * bool :=
  match io with
  | IoOk => (rows, true)
  | IoFailsAtRow k =>
      if Nat.ltb k (length rows) then (take k rows, false) else (rows, true)
  | IoFailsAtFlush => (rows, false)
  end.

Definition nonempty {A} (l : list A) : bool :=
  match l with [] => false | _ => true end.

(** The body of the outer [while] loop, with its [try]/[except]: a failed
    write is counted and the (sorted) buffer is kept. *)
Definition writer_iteration (ev : WriterEvent) (w : Writer) : Writer :=
  let '(batch, q, sentinel) := collect (w_take ev) (w_queue w) [] in
  let stop := (w_stop w || sentinel)%bool in
  let buf := sort_buffer w ++ batch in
  if (Z.leb 4000 (Z.of_nat (length buf)) || (stop && nonempty buf))%bool then
    let sorted := sort_by_key_name buf in
    let '(written, ok) := write_rows (w_io ev) sorted in
    if ok then
      {| sort_buffer := [];
         units := units w ++ [written];
         w_stop := stop;
         w_processed := w_processed w + Z.of_nat (length sorted);
         w_errors := w_errors w;
         w_queue := q |}
    else
      {| sort_buffer := sorted;
         units := units w ++ [written];
         w_stop := stop;
         w_processed := w_processed w;
         w_errors := w_errors w + 1;
         w_queue := q |}
  else
    {| sort_buffer := buf;
       units := units w;
       w_stop := stop;
       w_processed := w_processed w;
       w_errors := w_errors w;
       w_queue := q |}.

(** [while not self.stop_writer or not self.write_queue.empty()]. *)
Definition writer_continues (w : Writer) : bool :=
  (negb (w_stop w) || nonempty (w_queue w))%bool.

(** The outer loop over the scripted rounds; the flag tells whether the
    loop was left ([false]: the script ended with the loop still going). *)
Fixpoint writer_loop (evs : list WriterEvent) (w : Writer) : Writer * bool :=
  if writer_continues w then
    match evs with
    | [] => (w, false)
    | ev :: evs' => writer_loop evs' (writer_iteration ev w)
    end
  else (w, true).

(** How the thread ends: it returns, the outer handler prints the fatal
    error and calls [sys.exit(1)] (which ends this thread only), or it is
    still in its loop when the script ends. *)
Inductive WriterEnd := WriterReturned | WriterSysExit | WriterLooping.

(** What opening the file and writing the header do. *)
Inductive WriterStart := StartOk | StartFailsAtOpen | StartFailsAtHeader.

(** The rows written after the loop ("write any remaining items"), outside
    the inner [try]: a [writerow] that raises, or the flush of the closing
    file that raises after the rows were counted, reaches the outer
    handler. *)
Definition write_remaining (io : IoOutcome) (w : Writer) : Writer * WriterEnd :=
  match sort_buffer w with
  | [] => (w, WriterReturned)
  | _ =>
      let sorted := sort_by_key_name (sort_buffer w) in
      let '(written, ok) := write_rows io sorted in
      let counted :=
        match io with
        | IoFailsAtFlush => true
        | _ => ok
        end in
      ({| sort_buffer := sorted;
          units := units w ++ [written];
          w_stop := w_stop w;
          w_processed :=
            if counted then w_processed w + Z.of_nat (length sorted)
            else w_processed w;
          w_errors := w_errors w;
          w_queue := w_queue w |},
       if ok then WriterReturned else WriterSysExit)
  end.

Definition new_writer (q : list (option Row)) : Writer :=
  {| sort_buffer := [];
     units := [];
     w_stop := false;
     w_processed := 0;
     w_errors := 0;
     w_queue := q |}.

(** [csv_writer_worker] run on the items [q] that are put on the queue. *)
Definition csv_writer_worker (start : WriterStart) (evs : list WriterEvent)
    (final_io : IoOutcome) (q : list (option Row)) : Writer * WriterEnd :=
  match start with
  | StartOk =>
      match writer_loop evs (new_writer q) with
      | (w, true) => write_remaining final_io w
      | (w, false) => (w, WriterLooping)
      end
  | _ => (new_writer q, WriterSysExit)
  end.

(** The records of the file the thread leaves. *)
Definition file_lines (start : WriterStart) (write_headers append_mode bops_compatible : bool)
    (old : option OutFile) (w : Writer) : option (list (list string)) :=
  let written := map row_cells (concat (units w)) in
  match start with
  | StartFailsAtOpen => o_lines <$> old
  | StartFailsAtHeader =>
      Some (if append_mode then from_option o_lines [] old else [])
  | StartOk =>
      Some ((if append_mode then from_option o_lines [] old
             else if write_headers then [fieldnames bops_compatible] else [])
            ++ written)
  end.

(* =================================================================== *)
(** ** The listing loop of [export_versions] *)
(* =================================================================== *)

(** The arguments of [export_versions]. *)
Record Config := {
  cfg_bucket_name : string;
  cfg_prefix : option string;
  cfg_output_file : string;
  cfg_skip_versioning_check : bool;
  cfg_write_headers : bool;
  cfg_enable_resume : bool;
  cfg_bops_compatible : bool;
  cfg_url_encode : bool
}.

(** What the environment does during one iteration of the loop: the clock,
    the modification time of the output file (if it exists), the fate of a
    checkpoint write, the answer of the listing API, whether a credential
    refresh succeeds, whether the checkpoint can be removed, and whether a
    [KeyboardInterrupt] arrives inside [process_batch]: after how many
    records were handled, and whether the next one was already added to
    the dedup set when it arrived (the main thread was in [put]). *)
Record EnvEvent := {
  ev_now : Z;
  ev_out_mtime : option Z;
  ev_fs_write : FsWrite;
  ev_api : ApiResult;
  ev_refresh : bool;
  ev_removable : bool;
  ev_interrupt : option (nat * bool)
}.

(** The local variables of the loop, the exporter, the checkpoint files,
    and two histories: the rows put on the queue and the requests sent. *)
Record LoopState := {
  l_self : Exporter;
  l_fs : gmap string CkptFile;
  l_next_key_marker : option string;
  l_next_version_marker : option string;
  l_batch_num : Z;
  l_total_items : Z;
  l_put : list Row;
  l_requests : list ListParams
}.

(** How the loop is left: by [break], by [sys.exit(1)], by a
    [KeyboardInterrupt], blocked for ever in [put] on a full queue nobody
    reads; [AwaitingPage] when the script of events ends first. *)
Inductive LoopExit := Completed | SysExit1 | Interrupted | Blocked | AwaitingPage.

Definition QUEUE_MAXSIZE : Z := 10.

Definition loop_save (cfg : Config) (ev : EnvEvent) (st : LoopState)
    (next_key next_version : option string) (batch_num total_items : Z) : LoopState :=
  let '(self, fs) :=
    _save_resume_state (l_self st) (l_fs st) (ev_now ev) (ev_out_mtime ev)
      (ev_fs_write ev) (cfg_bucket_name cfg) (cfg_prefix cfg)
      next_key next_version batch_num total_items in
  {| l_self := self; l_fs := fs;
     l_next_key_marker := l_next_key_marker st;
     l_next_version_marker := l_next_version_marker st;
     l_batch_num := l_batch_num st;
     l_total_items := l_total_items st;
     l_put := l_put st;
     l_requests := l_requests st |}.

Definition loop_save_if (b : bool) (cfg : Config) (ev : EnvEvent) (st : LoopState)
    (next_key next_version : option string) (batch_num total_items : Z) : LoopState :=
  if b then loop_save cfg ev st next_key next_version batch_num total_items else st.

(** The periodic trim: [if current_count >= 200000]. *)
Definition loop_trim (cfg : Config) (self : Exporter) : Exporter :=
  if (cfg_enable_resume cfg
      && Z.leb HIGH_WATERMARK (Z.of_nat (length (processed_keys self))))%bool
  then with_processed_keys self (trim_processed_keys (processed_keys self))
  else self.

Definition has_state_file (self : Exporter) : bool :=
  match resume_state_file self with Some _ => true | None => false end.

(** The dedup set when a [KeyboardInterrupt] arrives inside
    [process_batch], and the rows put until then. *)
Definition interrupted_batch (cfg : Config) (self : Exporter) (api : ApiResult)
    (done : nat) (marked_next : bool) : Exporter * list Row :=
  match api with
  | ApiOk response =>
      let rs := records_of response in
      let '(keys, put, _) :=
        process_records (cfg_bucket_name cfg) (cfg_bops_compatible cfg)
          (cfg_url_encode cfg) (processed_keys self) (take done rs) in
      let keys' :=
        match rs !! done with
        | Some r =>
            if marked_next
            then set_add (key_version (record_key r) (record_version_id r)) keys
            else keys
        | None => keys
        end in
      (with_processed_keys self keys', put)
  | _ => (self, [])
  end.

(** One iteration of [while True]: [inl] to go round again, [inr] when the
    loop is left. *)
Definition loop_iteration (cfg : Config) (writer_alive : bool) (ev : EnvEvent)
    (st : LoopState) : LoopState + LoopExit * LoopState :=
  let batch_num := l_batch_num st + 1 in
  let self0 := with_current_batch_num (l_self st) batch_num in
  let request :=
    list_params (cfg_bucket_name cfg) (cfg_prefix cfg)
      (l_next_key_marker st) (l_next_version_marker st) in
  match ev_interrupt ev with
  | Some (done, marked_next) =>
      let '(self1, put) := interrupted_batch cfg self0 (ev_api ev) done marked_next in
      let st1 :=
        {| l_self := self1; l_fs := l_fs st;
           l_next_key_marker := l_next_key_marker st;
           l_next_version_marker := l_next_version_marker st;
           l_batch_num := batch_num;
           l_total_items := l_total_items st;
           l_put := l_put st ++ put;
           l_requests := l_requests st ++ [request] |} in
      inr (Interrupted,
           loop_save_if (cfg_enable_resume cfg) cfg ev st1
             (l_next_key_marker st) (l_next_version_marker st)
             (batch_num - 1) (l_total_items st))
  | None =>
      let '(params, self1, put, result) :=
        process_batch self0 (ev_api ev) (cfg_bucket_name cfg) (cfg_prefix cfg)
          (l_next_key_marker st) (l_next_version_marker st)
          (cfg_bops_compatible cfg) (cfg_url_encode cfg) in
      let st1 :=
        {| l_self := self1; l_fs := l_fs st;
           l_next_key_marker := l_next_key_marker st;
           l_next_version_marker := l_next_version_marker st;
           l_batch_num := batch_num;
           l_total_items := l_total_items st;
           l_put := l_put st ++ put;
           l_requests := l_requests st ++ [params] |} in
      if (negb writer_alive && Z.ltb QUEUE_MAXSIZE (Z.of_nat (length (l_put st1))))%bool
      then inr (Blocked, st1)
      else if PyStr.truthy (error result) then
        let st2 :=
          loop_save_if (cfg_enable_resume cfg) cfg ev st1
            (l_next_key_marker st) (l_next_version_marker st)
            (batch_num - 1) (l_total_items st) in
        if (retry_after_refresh result && ev_refresh ev)%bool then inl st2
        else
          inr (SysExit1,
               loop_save_if (cfg_enable_resume cfg) cfg ev st2
                 (l_next_key_marker st) (l_next_version_marker st)
                 (batch_num - 1) (l_total_items st))
      else
        let total_items := l_total_items st + batch_count result in
        let st2 :=
          loop_save_if
            (cfg_enable_resume cfg && has_state_file self1
             && Z.eqb (batch_num mod 20) 0)%bool
            cfg ev st1 (next_key_marker result) (next_version_marker result)
            batch_num total_items in
        let self3 := loop_trim cfg (l_self st2) in
        if is_truncated result then
          inl {| l_self := self3; l_fs := l_fs st2;
                 l_next_key_marker := next_key_marker result;
                 l_next_version_marker := next_version_marker result;
                 l_batch_num := batch_num;
                 l_total_items := total_items;
                 l_put := l_put st2;
                 l_requests := l_requests st2 |}
        else
          inr (Completed,
               {| l_self := self3;
                  l_fs := if (cfg_enable_resume cfg && has_state_file self3)%bool
                          then _cleanup_resume_state self3 (l_fs st2) (ev_removable ev)
                          else l_fs st2;
                  l_next_key_marker := l_next_key_marker st;
                  l_next_version_marker := l_next_version_marker st;
                  l_batch_num := batch_num;
                  l_total_items := total_items;
                  l_put := l_put st2;
                  l_requests := l_requests st2 |})
  end.

(** The loop over the scripted events, with the number of iterations. *)
Fixpoint listing_loop (cfg : Config) (writer_alive : bool) (evs : list EnvEvent)
    (st : LoopState) : LoopExit * LoopState * nat :=
  match evs with
  | [] => (AwaitingPage, st, O)
  | ev :: evs' =>
      match loop_iteration cfg writer_alive ev st with
      | inl st' =>
          let '(x, st'', n) := listing_loop cfg writer_alive evs' st' in
          (x, st'', S n)
      | inr (x, st') => (x, st', 1%nat)
      end
  end.

(* =================================================================== *)
(** ** [export_versions] *)
(* =================================================================== *)

(** [hashlib.md5(s.encode()).hexdigest()], and the two path computations
    of [_generate_resume_state_filename], which depend on the working
    directory: [os.path.dirname(os.path.abspath(p))] and
    [os.path.basename(os.path.splitext(p)[0])]. *)
Variable md5_hexdigest : string -> string.
Variable abs_dirname : string -> string.
Variable base_stem : string -> string.

(** [os.path.join(a, b)] on POSIX paths. *)
Definition path_join (a b : string) : string :=
  if String.prefix "/" b then b
  else if (String.eqb a EmptyString
           || String.eqb (String.substring (String.length a - 1) 1 a) "/")%bool
       then a +:+ b
       else a +:+ "/" +:+ b.

Definition _generate_resume_state_filename (bucket : string) (prefix : option string)
    (output_file : string) : string :=
  let job_params := bucket +:+ ":" +:+ default "" (if_truthy prefix) +:+ ":" +:+ output_file in
  let job_hash := String.substring 0 8 (md5_hexdigest job_params) in
  let output_path := if PyStr.truthy (Some output_file) then output_file
                     else "s3_object_versions.csv" in
  path_join (abs_dirname output_path)
    (base_stem output_path +:+ "_" +:+ bucket +:+ "_" +:+ job_hash +:+ ".json").

(** [if not output_file: output_file = 's3_object_versions.csv']. *)
Definition effective_output_file (output_file : string) : string :=
  if PyStr.truthy (Some output_file) then output_file else "s3_object_versions.csv".

Definition all_chars (p : ascii -> bool) (s : string) : bool :=
  forallb p (list_ascii_of_string s).

Definition bucket_char (c : ascii) : bool :=
  (Urllib.in_range 97 122 c || Urllib.in_range 48 57 c
   || Ascii.eqb c "." || Ascii.eqb c "-")%bool.

Definition newline : string := String (Ascii.ascii_of_nat 10) EmptyString.

(** [_validate_bucket_name]; the [$] of the pattern also matches before a
    final newline. *)
Definition _validate_bucket_name (b : string) : bool :=
  let core := if String.eqb (String.substring (String.length b - 1) 1 b) newline
              then String.substring 0 (String.length b - 1) b else b in
  (all_chars bucket_char core
   && Nat.leb 3 (String.length core) && Nat.leb (String.length core) 63
   && negb (String.prefix "." b)
   && negb (String.eqb (String.substring (String.length b - 1) 1 b) ".")
   && negb (match String.index 0 ".." b with Some _ => true | None => false end))%bool.

(** What the environment does before the loop: the clock, the result of
    [_validate_file_path], the output file found, the answer typed at the
    [Overwrite?] prompt and whether a stale checkpoint can be removed. *)
Record StartEnv := {
  s_now : Z;
  s_path_ok : bool;
  s_out : option OutFile;
  s_answer : string;
  s_removable : bool
}.

(** What the environment does to the writer thread, and when the thread
    last touches the file. *)
Record WriterEnv := {
  we_start : WriterStart;
  we_events : list WriterEvent;
  we_final_io : IoOutcome;
  we_mtime : Z
}.

(** The clock, the modification time seen and the fate of the write for
    the checkpoint saved in the [finally] block. *)
Record FinalEnv := {
  f_now : Z;
  f_out_mtime : option Z;
  f_fs_write : FsWrite
}.

(** How the process ends: with an exit status, blocked for ever, or not
    within the scripted events. *)
Inductive ExitStatus := ExitCode (n : Z) | Hangs | ScriptEnded.

Record RunResult := {
  r_exit : ExitStatus;
  r_self : Exporter;
  r_fs : gmap string CkptFile;
  r_out : option OutFile;
  r_put : list Row;
  r_requests : list ListParams;
  r_iterations : nat
}.

Definition with_resume_state_file (e : Exporter) (now : Z) (path : option string) : Exporter :=
  {| processed_keys := processed_keys e;
     resume_state_file := path;
     current_batch_num := current_batch_num e;
     checkpoint_printed := checkpoint_printed e;
     total_processed := total_processed e;
     error_count := error_count e;
     stop_writer := stop_writer e;
     session_start_time := now;
     original_start_time := Some (default now (original_start_time e));
     cumulative_runtime := Some (default 0 (cumulative_runtime e));
     profile_name := profile_name e |}.

(** The resume set-up: the exporter, the checkpoint files and the resume
    state kept ([None] for the empty dictionary); [inr] when the user
    declines to overwrite and the process exits with status 0. *)
Definition resume_setup (cfg : Config) (env : StartEnv) (self : Exporter)
    (fs : gmap string CkptFile)
  : Exporter * gmap string CkptFile * option StateDict + Exporter :=
  if cfg_enable_resume cfg then
    let path := _generate_resume_state_filename (cfg_bucket_name cfg) (cfg_prefix cfg)
                  (effective_output_file (cfg_output_file cfg)) in
    let self1 := with_resume_state_file self (s_now env) (Some path) in
    match s_out env with
    | None =>
        inl (self1, if s_removable env then delete path fs else fs, None)
    | Some out =>
        match _load_resume_state self1 fs (s_now env) (Some (o_mtime out))
                (cfg_bucket_name cfg) (cfg_prefix cfg) with
        | (Loaded d, self2) => inl (self2, fs, Some d)
        | (Rejected _, self2) =>
            if PyStr.lower_starts_y (s_answer env)
            then inl (with_processed_keys self2 [], fs, None)
            else inr self2
        end
    end
  else inl (with_resume_state_file self (s_now env) None, fs, None).

Definition merge_counters (self : Exporter) (w : Writer) : Exporter :=
  {| processed_keys := processed_keys self;
     resume_state_file := resume_state_file self;
     current_batch_num := current_batch_num self;
     checkpoint_printed := checkpoint_printed self;
     total_processed := total_processed self + w_processed w;
     error_count := error_count self + w_errors w;
     stop_writer := w_stop w;
     session_start_time := session_start_time self;
     original_start_time := original_start_time self;
     cumulative_runtime := cumulative_runtime self;
     profile_name := profile_name self |}.

Definition writer_alive (start : WriterStart) : bool :=
  match start with StartOk => true | _ => false end.

(** [export_versions] as [main] calls it, up to the exit status of the
    process.  The main thread runs the loop on [evs]; the writer thread
    runs on the rows the main thread puts, followed by the sentinel. *)
Definition export_versions (cfg : Config) (env : StartEnv) (evs : list EnvEvent)
    (wenv : WriterEnv) (fin : FinalEnv) (self : Exporter) (fs : gmap string CkptFile)
  : RunResult :=
  if negb (_validate_bucket_name (cfg_bucket_name cfg) && s_path_ok env)%bool then
    {| r_exit := ExitCode 1; r_self := self; r_fs := fs; r_out := s_out env;
       r_put := []; r_requests := []; r_iterations := O |}
  else
    match resume_setup cfg env self fs with
    | inr self1 =>
        {| r_exit := ExitCode 0; r_self := self1; r_fs := fs; r_out := s_out env;
           r_put := []; r_requests := []; r_iterations := O |}
    | inl (self1, fs1, resume_state) =>
        let append_mode :=
          match resume_state with Some _ => true | None => false end in
        let '(existing_csv_count, self2) :=
          if append_mode then _check_existing_csv_for_resume self1 (s_out env)
          else (0, self1) in
        let st0 :=
          match resume_state with
          | Some d =>
              {| l_self := with_current_batch_num self2 (st_batch_num d);
                 l_fs := fs1;
                 l_next_key_marker := st_next_key_marker d;
                 l_next_version_marker := st_next_version_marker d;
                 l_batch_num := st_batch_num d;
                 l_total_items := st_total_items d;
                 l_put := []; l_requests := [] |}
          | None =>
              {| l_self := with_current_batch_num self2 0;
                 l_fs := fs1;
                 l_next_key_marker := None;
                 l_next_version_marker := None;
                 l_batch_num := 0;
                 l_total_items := existing_csv_count;
                 l_put := []; l_requests := [] |}
          end in
        let alive := writer_alive (we_start wenv) in
        let '(how, st, n) := listing_loop cfg alive evs st0 in
        let items := map Some (l_put st) ++ [None] in
        let '(w, wend) :=
          csv_writer_worker (we_start wenv) (we_events wenv) (we_final_io wenv) items in
        let lines :=
          file_lines (we_start wenv) (cfg_write_headers cfg) append_mode
            (cfg_bops_compatible cfg) (s_out env) w in
        let out :=
          match lines with
          | Some ls =>
              Some {| o_mtime :=
                        if (append_mode && negb (nonempty (concat (units w))))%bool
                        then from_option o_mtime (we_mtime wenv) (s_out env)
                        else we_mtime wenv;
                      o_lines := ls |}
          | None => None
          end in
        let blocked :=
          match how with
          | Blocked => true
          | _ => (negb alive
                  && Z.leb QUEUE_MAXSIZE (Z.of_nat (length (l_put st))))%bool
          end in
        if blocked then
          {| r_exit := Hangs; r_self := l_self st; r_fs := l_fs st; r_out := out;
             r_put := l_put st; r_requests := l_requests st; r_iterations := n |}
        else
          match how, wend with
          | AwaitingPage, _ | _, WriterLooping =>
              {| r_exit := ScriptEnded; r_self := l_self st; r_fs := l_fs st;
                 r_out := out; r_put := l_put st; r_requests := l_requests st;
                 r_iterations := n |}
          | _, _ =>
              let self3 := merge_counters (l_self st) w in
              let '(self4, fs4) :=
                if (cfg_enable_resume cfg && Z.ltb 0 (error_count self3))%bool
                then _save_resume_state self3 (l_fs st) (f_now fin) (f_out_mtime fin)
                       (f_fs_write fin) (cfg_bucket_name cfg) (cfg_prefix cfg)
                       (l_next_key_marker st) (l_next_version_marker st)
                       (current_batch_num self3) (l_total_items st)
                else (self3, l_fs st) in
              {| r_exit := match how with Completed => ExitCode 0 | _ => ExitCode 1 end;
                 r_self := self4; r_fs := fs4; r_out := out;
                 r_put := l_put st; r_requests := l_requests st; r_iterations := n |}
          end
    end.

(** The records of a page that [process_batch] does not skip, given the
    dedup set it starts with. *)
Fixpoint fresh_records (keys : list string) (rs : list record) : list record :=
  match rs with
  | [] => []
  | r :: rs' =>
      let kv := key_version (record_key r) (record_version_id r) in
      if set_mem kv keys then fresh_records keys rs'
      else r :: fresh_records (set_add kv keys) rs'
  end.

(** The kinds of rejection, and the position of each check in
    [_load_resume_state]. *)
Inductive ReasonKind :=
| KNoFile | KCorrupted | KBucket | KPrefix | KInvalidTimestamp | KTooOld | KCsvModified.

Definition kind_of (r : Rejection) : ReasonKind :=
  match r with
  | NoCheckpointFile => KNoFile
  | Corrupted _ => KCorrupted
  | BucketMismatch _ _ => KBucket
  | PrefixMismatch _ _ => KPrefix
  | InvalidTimestamp => KInvalidTimestamp
  | TooOld => KTooOld
  | CsvModified => KCsvModified
  end.

Definition check_order (r : Rejection) : nat :=
  match r with
  | NoCheckpointFile => 0
  | Corrupted _ => 1
  | BucketMismatch _ _ => 2
  | PrefixMismatch _ _ => 3
  | InvalidTimestamp => 4
  | TooOld => 4
  | CsvModified => 5
  end.

(** The conditions under which the specification wants a checkpoint
    refused, each with its reason.  The recorded fingerprint of the last
    one is a fingerprint the code regards as present: not null and not
    zero. *)
Inductive RejectionCondition (bucket : string) (prefix : option string)
    (now : Z) (out_mtime : option Z) : CkptFile -> Rejection -> Prop :=
| Cond_corrupt exn :
    RejectionCondition bucket prefix now out_mtime (CkptUnreadable exn) (Corrupted exn)
| Cond_bucket d :
    st_bucket_name d <> Some bucket ->
    RejectionCondition bucket prefix now out_mtime (CkptDict d)
      (BucketMismatch (st_bucket_name d) bucket)
| Cond_prefix d :
    st_prefix d <> prefix ->
    RejectionCondition bucket prefix now out_mtime (CkptDict d)
      (PrefixMismatch (st_prefix d) prefix)
| Cond_too_old d t :
    st_timestamp d = TsAt t ->
    HOURS_24 < now - t ->
    RejectionCondition bucket prefix now out_mtime (CkptDict d) TooOld
| Cond_invalid_timestamp d :
    st_timestamp d = TsInvalid ->
    RejectionCondition bucket prefix now out_mtime (CkptDict d) InvalidTimestamp
| Cond_csv_modified d m cur :
    st_csv_mtime d = Some m ->
    m <> 0 ->
    out_mtime = Some cur ->
    MTIME_TOLERANCE < Z.abs (cur - m) ->
    RejectionCondition bucket prefix now out_mtime (CkptDict d) CsvModified.

(** [a] may stand before [b] in a sorted buffer: the [key_name]s are in
    byte-wise lexicographic order. *)
Definition key_le (a b : Row) : Prop := String.le (key_name a) (key_name b).

Definition units_sorted (w : Writer) : Prop :=
  Forall (StronglySorted key_le) (units w).

(** The rows a round of the writer collects, whether it writes its buffer,
    and whether that write fails. *)
Definition collected (ev : WriterEvent) (w : Writer) : list Row :=
  (collect (w_take ev) (w_queue w) []).1.1.

Definition write_due (ev : WriterEvent) (w : Writer) : bool :=
  let '(batch, _, sentinel) := collect (w_take ev) (w_queue w) [] in
  (Z.leb 4000 (Z.of_nat (length (sort_buffer w ++ batch)))
   || ((w_stop w || sentinel) && nonempty (sort_buffer w ++ batch)))%bool.

Definition write_fails (ev : WriterEvent) (w : Writer) : bool :=
  (write_due ev w
   && negb (write_rows (w_io ev)
              (sort_by_key_name (sort_buffer w ++ collected ev w))).2)%bool.

(** The markers a page hands to the next request. *)
Definition event_markers (ev : EnvEvent) : option string * option string :=
  match ev_api ev with
  | ApiOk r => (NextKeyMarker r, NextVersionIdMarker r)
  | _ => (None, None)
  end.

(** The requests of a listing that starts at the cursor [(km, vm)] and
    receives the pages of [evs], each followed by one more request. *)
Fixpoint cursor_chain (cfg : Config) (km vm : option string) (evs : list EnvEvent)
  : list ListParams :=
  list_params (cfg_bucket_name cfg) (cfg_prefix cfg) km vm ::
  match evs with
  | [] => []
  | ev :: evs' => cursor_chain cfg (event_markers ev).1 (event_markers ev).2 evs'
  end.

(** An event that is a page answered without error and without
    interruption, with the given truncation flag. *)
Definition is_page (truncated : bool) (ev : EnvEvent) : Prop :=
  exists r, ev_api ev = ApiOk r /\ ev_interrupt ev = None /\ IsTruncated r = truncated.

(* =================================================================== *)
(** ** Concrete inputs *)
(* =================================================================== *)

(** Two iteration orders a set may have: the insertion order and its
    reverse. *)
Definition insertion_order (l : list string) : list string := l.
Definition reverse_order (l : list string) : list string := reverse l.

(** Stand-ins for [hashlib.md5] and the path functions: the runs below use
    one job, for which only the identity of the checkpoint path matters. *)
Definition md5_constant (s : string) : string := "0123456789abcdef0123456789abcdef".
Definition dirname_constant (p : string) : string := "/work".
Definition stem_constant (p : string) : string := "versions".

Definition demo_cfg : Config :=
  {| cfg_bucket_name := "my-bucket";
     cfg_prefix := None;
     cfg_output_file := "versions.csv";
     cfg_skip_versioning_check := false;
     cfg_write_headers := true;
     cfg_enable_resume := true;
     cfg_bops_compatible := false;
     cfg_url_encode := true |}.

Definition demo_version (key version : string) : Version :=
  {| v_Key := key;
     v_VersionId := version;
     v_IsLatest := true;
     v_Size := 5;
     v_LastModified := "2024-01-01T00:00:00+00:00";
     v_StorageClass := None;
     v_ETag := Some "d41d8cd98f00b204e9800998ecf8427e" |}.

(** A page of versions, followed by another page or not. *)
Definition demo_page (vs : list Version) (next : option (string * string)) : Response :=
  {| Versions := vs;
     DeleteMarkers := [];
     IsTruncated := match next with Some _ => true | None => false end;
     NextKeyMarker := fst <$> next;
     NextVersionIdMarker := snd <$> next |}.

(** The bucket of the resume scenario: the keys ["a b"] and ["a+b"], one
    (null) version each, listed one per page. *)
Definition page_1 : Response :=
  demo_page [demo_version "a b" "null"] (Some ("a b", "null")).
Definition page_2 : Response :=
  demo_page [demo_version "a+b" "null"] None.

(** A bucket whose keys need no encoding, listed one per page. *)
Definition plain_page_1 : Response :=
  demo_page [demo_version "a" "null"] (Some ("a", "null")).
Definition plain_page_2 : Response :=
  demo_page [demo_version "b" "null"] None.

(** The event of a page received at time [t], the output file having the
    modification time [mtime]. *)
Definition page_event (t : Z) (mtime : Z) (p : Response) (i : option (nat * bool))
  : EnvEvent :=
  {| ev_now := t;
     ev_out_mtime := Some mtime;
     ev_fs_write := WriteOk;
     ev_api := ApiOk p;
     ev_refresh := false;
     ev_removable := true;
     ev_interrupt := i |}.

Definition start_env (t : Z) (out : option OutFile) : StartEnv :=
  {| s_now := t; s_path_ok := true; s_out := out; s_answer := "n"; s_removable := true |}.

(** A writer that takes what is on the queue in one round and whose writes
    succeed, finishing at time [t]. *)
Definition good_writer (t : Z) : WriterEnv :=
  {| we_start := StartOk;
     we_events := [ {| w_take := 5; w_io := IoOk |} ];
     we_final_io := IoOk;
     we_mtime := t |}.

(** The same, its first write failing at the first row. *)
Definition failing_round : WriterEvent := {| w_take := 5; w_io := IoFailsAtRow 0 |}.

Definition failing_writer (t : Z) : WriterEnv :=
  {| we_start := StartOk;
     we_events := [ failing_round ];
     we_final_io := IoOk;
     we_mtime := t |}.

(** A writer thread that dies writing the header. *)
Definition dead_writer (t : Z) : WriterEnv :=
  {| we_start := StartFailsAtHeader;
     we_events := [];
     we_final_io := IoOk;
     we_mtime := t |}.

Definition final_env (t : Z) : FinalEnv :=
  {| f_now := t; f_out_mtime := Some t; f_fs_write := WriteOk |}.

(** The pairs [(key_name, version_id)] of the data records of an output
    file that starts with the header. *)
Definition key_rows (out : option OutFile) : list (string * string) :=
  match out with
  | Some f =>
      omap (fun cells => match cells with
                         | _ :: k :: v :: _ => Some (k, v)
                         | _ => None
                         end)
           (tail (o_lines f))
  | None => []
  end.

(** Times, in microseconds: the first run starts at 1 s, receives the first
    page at 2 s, is interrupted at 3 s while it requests the second one, and
    its writer finishes at 4 s; the second run starts one minute later. *)
Definition sec (n : Z) : Z := n * 1000000.

(** A page of eleven versions of one key. *)
Definition page_of_eleven : Response :=
  demo_page ((fun z => demo_version "k" (pretty z)) <$> seqZ 0 11) None.

(** The identities of [n] records marked one after the other. *)
Definition marked (n : Z) : list string :=
  (fun z => key_version ("key" +:+ pretty z) "null") <$> seqZ 0 n.

(** A checkpoint whose recorded fingerprint is the epoch. *)
Definition epoch_state : StateDict :=
  {| st_bucket_name := Some "my-bucket";
     st_prefix := None;
     st_next_key_marker := Some "a b";
     st_next_version_marker := Some "null";
     st_batch_num := 1;
     st_total_items := 1;
     st_timestamp := TsAt (sec 3);
     st_original_start_time := sec 1;
     st_cumulative_runtime := sec 2;
     st_csv_mtime := Some 0;
     st_processed_keys := ["a b-null"] |}.

Definition exporter_with_state_file (path : string) : Exporter :=
  {| processed_keys := [];
     resume_state_file := Some path;
     current_batch_num := 0;
     checkpoint_printed := false;
     total_processed := 0;
     error_count := 0;
     stop_writer := false;
     session_start_time := 0;
     original_start_time := None;
     cumulative_runtime := None;
     profile_name := None |}.

Definition empty_loop_state (self : Exporter) : LoopState :=
  {| l_self := self;
     l_fs := ∅;
     l_next_key_marker := None;
     l_next_version_marker := None;
     l_batch_num := 0;
     l_total_items := 0;
     l_put := [];
     l_requests := [] |}.


(* =================================================================== *)
(** ** Auxiliary definitions for the properties *)
(* =================================================================== *)

(** The identity of a record. *)
Definition record_identity (r : record) : string :=
  key_version (record_key r) (record_version_id r).

(** A string without carriage return, and one without line feed. *)
Definition no_cr (s : string) : bool :=
  all_chars (fun c => negb (Ascii.eqb c carriage_return)) s.

Definition no_lf (s : string) : bool :=
  all_chars (fun c => negb (Ascii.eqb c line_feed)) s.

(** The bytes [quote_plus(_, safe='/')] leaves as they are. *)
Definition kept_byte (c : ascii) : bool :=
  (Urllib.always_safe c || Ascii.eqb c "/")%bool.

(** The bytes that can occur in an encoded key. *)
Definition url_byte (c : ascii) : bool :=
  (kept_byte c || Ascii.eqb c "+" || Ascii.eqb c "%")%bool.

Definition hex_value (c : ascii) : option N :=
  let n := N_of_ascii c in
  if (N.leb 48 n && N.leb n 57)%bool then Some (n - 48)%N
  else if (N.leb 65 n && N.leb n 70)%bool then Some (n - 55)%N
  else None.

(** Reads back the first byte of an encoded key: the inverse of
    [Urllib.plus_byte] in front of any rest. *)
Definition decode_head (s : string) : option (ascii * string) :=
  match s with
  | EmptyString => None
  | String c rest =>
      if Ascii.eqb c "+" then Some (" "%char, rest)
      else if Ascii.eqb c "%" then
        match rest with
        | String h (String l rest') =>
            match hex_value h, hex_value l with
            | Some a, Some b => Some (ascii_of_N (16 * a + b), rest')
            | _, _ => None
            end
        | _ => None
        end
      else Some (c, rest)
  end.


(** The rows among the items of a queue. *)
Definition queue_rows (q : list (option Row)) : list Row := omap id q.

(** All scripted writes of a writer succeed. *)
Definition all_writes_ok (evs : list WriterEvent) : Prop :=
  Forall (fun ev => w_io ev = IoOk) evs.


(** The rows of [rows] are exactly those that are in the file, in the
    buffer of the writer or still on the queue. *)
Definition writer_covers (rows : list Row) (w : Writer) : Prop :=
  forall r, r ∈ rows <->
            r ∈ concat (units w) \/ r ∈ sort_buffer w \/ r ∈ queue_rows (w_queue w).

(** The same with multiplicities, together with the counters of a writer
    none of whose writes failed. *)
Definition writer_conserves (rows : list Row) (w : Writer) : Prop :=
  rows ≡ₚ concat (units w) ++ sort_buffer w ++ queue_rows (w_queue w)
  /\ w_processed w = Z.of_nat (length (concat (units w)))
  /\ w_errors w = 0.

(** The sizes a writer keeps when its writes succeed. *)
Definition writer_bounded (w : Writer) : Prop :=
  Z.of_nat (length (sort_buffer w)) < 4000
  /\ Forall (fun u => Z.of_nat (length u) < 6000) (units w).


(** The records of the page an event brings. *)
Definition event_records (ev : EnvEvent) : list record :=
  match ev_api ev with
  | ApiOk r => records_of r
  | _ => []
  end.

(** The checkpoint path [export_versions] uses for a job. *)
Definition state_path (cfg : Config) : string :=
  _generate_resume_state_filename (cfg_bucket_name cfg) (cfg_prefix cfg)
    (effective_output_file (cfg_output_file cfg)).

(** The parts of the exporter a checkpoint write leaves alone. *)
Definition same_exporter_state (e e' : Exporter) : Prop :=
  processed_keys e' = processed_keys e
  /\ resume_state_file e' = resume_state_file e
  /\ error_count e' = error_count e
  /\ current_batch_num e' = current_batch_num e.


(** An error the loop does not recover from: a client error that is not a
    token error or whose refresh fails, or another exception (with a
    message). *)
Definition fatal_error (ev : EnvEvent) : Prop :=
  (exists code, ev_api ev = ApiClientError code
                /\ (is_token_error code = false \/ ev_refresh ev = false))
  \/ (exists msg, ev_api ev = ApiException msg /\ msg <> EmptyString).


(* =================================================================== *)
(** ** Credential refresh, construction and [main] *)
(* =================================================================== *)

(** What one attempt of [_refresh_credentials_and_retry] meets when it
    builds a client and calls [get_caller_identity]: the credentials are
    verified, a [ClientError] with its code, or another exception. *)
Inductive AttemptOutcome :=
| AttemptVerified
| AttemptClientError (code : string)
| AttemptException.

(** The loop [for attempt in range(max_retries)] from [attempt] on, with
    [remaining] attempts left: the value returned and the arguments of
    [time.sleep], in seconds and in order. *)
Fixpoint refresh_attempts (outcome : nat -> AttemptOutcome) (attempt remaining : nat)
  : bool * list Z :=
  match remaining with
  | O => (false, [])
  | S remaining' =>
      let wait := 2 ^ Z.of_nat attempt in
      match outcome attempt with
      | AttemptVerified => (true, [wait])
      | AttemptClientError code =>
          if is_token_error code then
            let '(refreshed, waits) := refresh_attempts outcome (S attempt) remaining' in
            (refreshed, wait :: waits)
          else (false, [wait])
      | AttemptException =>
          let '(refreshed, waits) := refresh_attempts outcome (S attempt) remaining' in
          (refreshed, wait :: waits)
      end
  end.

Definition _refresh_credentials_and_retry (outcome : nat -> AttemptOutcome)
    (max_retries : nat) : bool * list Z :=
  refresh_attempts outcome 0 max_retries.

(** An attempt after which the loop goes on to the next one. *)
Definition retried (o : AttemptOutcome) : bool :=
  match o with
  | AttemptVerified => false
  | AttemptClientError code => is_token_error code
  | AttemptException => true
  end.

Definition profile_char (c : ascii) : bool :=
  (Urllib.in_range 97 122 c || Urllib.in_range 65 90 c || Urllib.in_range 48 57 c
   || Ascii.eqb c "_" || Ascii.eqb c "-")%bool.

Definition region_char (c : ascii) : bool :=
  (Urllib.in_range 97 122 c || Urllib.in_range 48 57 c || Ascii.eqb c "-")%bool.

(** [re.match(r'^[...]+$', s)] for a class of characters that has no
    newline: one or more characters of the class up to the end of the
    string or to a final newline. *)
Definition match_plus (p : ascii -> bool) (s : string) : bool :=
  let core := if String.eqb (String.substring (String.length s - 1) 1 s) newline
              then String.substring 0 (String.length s - 1) s else s in
  (Nat.ltb 0 (String.length core) && all_chars p core)%bool.

(** What [get_caller_identity] meets in [_initialize_client]. *)
Inductive ClientOutcome :=
| ClientVerified
| ClientNoCredentials
| ClientFails (code : string)
| ClientException.

(** How the construction of an exporter ends. *)
Inductive Construction :=
| Constructed (self : Exporter)
| RaisesValueError (msg : string)
| RaisesUnboundLocalError
| RaisesClientError (code : string)
| ConstructionExits1.

(** [_initialize_client] called by [__init__] on the exporter built so
    far. *)
Definition _initialize_client (self : Exporter) (client : ClientOutcome) : Construction :=
  match client with
  | ClientVerified => Constructed self
  | ClientNoCredentials => ConstructionExits1
  | ClientFails code =>
      if is_token_error code then RaisesClientError code else ConstructionExits1
  | ClientException => ConstructionExits1
  end.

(** [__init__].  The name [re] is bound by the [import] statement in the
    branch [if profile_name:] and is local to the function: the test of the
    region name reads it unbound when that branch was not taken. *)
Definition __init__ (profile_name region_name : option string) (client : ClientOutcome)
  : Construction :=
  let re_bound := PyStr.truthy profile_name in
  if (PyStr.truthy profile_name
      && negb (match_plus profile_char (default EmptyString profile_name)))%bool
  then RaisesValueError "Invalid profile name - contains unsafe characters"
  else if PyStr.truthy region_name then
    if negb re_bound then RaisesUnboundLocalError
    else if negb (match_plus region_char (default EmptyString region_name))
    then RaisesValueError "Invalid region name format"
    else _initialize_client (new_exporter profile_name) client
  else _initialize_client (new_exporter profile_name) client.

(** The parsed command line. *)
Record Args := {
  a_bucket : string;
  a_prefix : option string;
  a_output : string;
  a_profile : option string;
  a_region : option string;
  a_nocsvheaders : bool;
  a_skipversioningcheck : bool;
  a_noresume : bool;
  a_bopsmanifestcompatible : bool;
  a_nourlencoding : bool
}.

(** The arguments [main] passes to [export_versions]. *)
Definition config_of_args (args : Args) : Config :=
  {| cfg_bucket_name := a_bucket args;
     cfg_prefix := a_prefix args;
     cfg_output_file := a_output args;
     cfg_skip_versioning_check := a_skipversioningcheck args;
     cfg_write_headers :=
       (negb (a_nocsvheaders args) && negb (a_bopsmanifestcompatible args))%bool;
     cfg_enable_resume := negb (a_noresume args);
     cfg_bops_compatible := a_bopsmanifestcompatible args;
     cfg_url_encode := negb (a_nourlencoding args) |}.

(** [main] after the command line is parsed: either no exporter is
    constructed and the process exits with status 1, or [export_versions]
    runs. *)
Inductive MainResult :=
| ExitsBeforeExport
| Exported (run : RunResult).

Definition main (args : Args) (client : ClientOutcome) (env : StartEnv)
    (evs : list EnvEvent) (wenv : WriterEnv) (fin : FinalEnv)
    (fs : gmap string CkptFile) : MainResult :=
  match __init__ (a_profile args) (a_region args) client with
  | Constructed exporter =>
      Exported (export_versions (config_of_args args) env evs wenv fin exporter fs)
  | _ => ExitsBeforeExport
  end.

Definition main_exit (m : MainResult) : ExitStatus :=
  match m with
  | ExitsBeforeExport => ExitCode 1
  | Exported run => r_exit run
  end.

(** A row made from a record of one of the pages the listing returned. *)
Definition listed (cfg : Config) (evs : list EnvEvent) (r : Row) : Prop :=
  exists ev rec,
    ev ∈ evs /\ rec ∈ event_records ev
    /\ r = row_of_record (cfg_bucket_name cfg) (cfg_bops_compatible cfg)
             (cfg_url_encode cfg) rec.

(** The header record a fresh output file starts with. *)
Definition header_lines (cfg : Config) : list (list string) :=
  if cfg_write_headers cfg then [fieldnames (cfg_bops_compatible cfg)] else [].

Definition sum_list (l : list Z) : Z := foldr Z.add 0 l.

(* =================================================================== *)
(** ** Further concrete inputs *)
(* =================================================================== *)

(** An iteration whose request fails, at time [t]. *)
Definition error_event (t : Z) (api : ApiResult) (refresh : bool) : EnvEvent :=
  {| ev_now := t;
     ev_out_mtime := Some t;
     ev_fs_write := WriteOk;
     ev_api := api;
     ev_refresh := refresh;
     ev_removable := true;
     ev_interrupt := None |}.

Definition demo_row : Row :=
  row_of_version "my-bucket" false true (demo_version "a b" "null").

(** The two pages of the listing, received at 2 s and 3 s. *)
Definition two_pages : list EnvEvent :=
  [page_event (sec 2) (sec 1) page_1 None; page_event (sec 3) (sec 1) page_2 None].

Definition noresume_cfg : Config :=
  {| cfg_bucket_name := "my-bucket";
     cfg_prefix := None;
     cfg_output_file := "versions.csv";
     cfg_skip_versioning_check := false;
     cfg_write_headers := true;
     cfg_enable_resume := false;
     cfg_bops_compatible := false;
     cfg_url_encode := true |}.

(** [--bucket my-bucket --output versions.csv], with a region or in the
    manifest format. *)
Definition demo_args (region : option string) (bops : bool) : Args :=
  {| a_bucket := "my-bucket";
     a_prefix := None;
     a_output := "versions.csv";
     a_profile := None;
     a_region := region;
     a_nocsvheaders := false;
     a_skipversioningcheck := false;
     a_noresume := false;
     a_bopsmanifestcompatible := bops;
     a_nourlencoding := false |}.

(** The output file a first run left with its header and one row. *)
Definition one_row_file : OutFile :=
  {| o_mtime := sec 4;
     o_lines := [fieldnames false; row_cells demo_row] |}.

(* =================================================================== *)
(** ** The checkpoint file as JSON *)
(* =================================================================== *)

(** What [json.load] returns.  Numbers are integers; those that stand for
    times ([csv_mtime]) are in microseconds, as everywhere in this file. *)
#[warnings="-register-all"] Inductive Json :=
| JNull
| JBool (b : bool)
| JNum (z : Z)
| JStr (s : string)
| JList (items : list Json)
| JObj (members : list (string * Json)).

(** The content of the file at the checkpoint path: text that
    [json.load] (or [open]) refuses with the given exception text, or a
    JSON value of any shape. *)
Inductive RawFile :=
| RawUnparseable (exn : string)
| RawJson (v : Json).

(** The value a dictionary built by [json.load] holds for a name: the last
    member of that name. *)
Definition json_member (name : string) (members : list (string * Json)) : option Json :=
  fold_left (fun found kv => if String.eqb kv.1 name then Some kv.2 else found)
            members None.

(** [state.get(name)] and [state.get(name, dflt)]. *)
Definition json_get (name : string) (members : list (string * Json)) : Json :=
  default JNull (json_member name members).

Definition json_get_default (name : string) (dflt : Json)
    (members : list (string * Json)) : Json :=
  default dflt (json_member name members).

(** Truthiness of a value. *)
Definition json_truthy (v : Json) : bool :=
  match v with
  | JNull => false
  | JBool b => b
  | JNum z => negb (Z.eqb z 0)
  | JStr s => negb (String.eqb s EmptyString)
  | JList items => nonempty items
  | JObj members => nonempty members
  end.

(** [v == s] for a string [s], and [v == prefix] for a prefix that is a
    string or [None]. *)
Definition json_is_str (v : Json) (s : string) : bool :=
  match v with
  | JStr s' => String.eqb s' s
  | _ => false
  end.

Definition json_is_opt_str (v : Json) (o : option string) : bool :=
  match v, o with
  | JNull, None => true
  | JStr s', Some s => String.eqb s' s
  | _, _ => false
  end.

(** [set(v)] raises [TypeError] unless [v] can be iterated and its
    elements hashed: a list without lists and dictionaries in it, a string
    (the set of its characters) or a dictionary (the set of its names). *)
Definition hashable (v : Json) : bool :=
  match v with
  | JList _ | JObj _ => false
  | _ => true
  end.

Definition set_raises (v : Json) : bool :=
  match v with
  | JList items => negb (forallb hashable items)
  | JStr _ | JObj _ => false
  | JNull | JBool _ | JNum _ => true
  end.

(** The number a value is in arithmetic and under the format
    specification [:,]: a number, or a boolean ([True] is 1, one second when
    it stands for a time). *)
Definition json_number (v : Json) : option Z :=
  match v with
  | JNum z => Some z
  | JBool b => Some (if b then 1000000 else 0)
  | _ => None
  end.

(** Where an exception that [_load_resume_state] reports as a corrupted
    checkpoint is raised. *)
Inductive LoadError :=
| ErrJson (exn : string)
| ErrNotAnObject
| ErrKeysNotASet
| ErrMtimeNotANumber
| ErrTotalNotANumber.

Inductive RawRejection :=
| RawNoCheckpointFile
| RawBucketMismatch (stored : Json) (current : string)
| RawPrefixMismatch (stored : Json) (current : option string)
| RawTooOld
| RawInvalidTimestamp
| RawCsvModified
| RawCorrupted (e : LoadError).

Inductive RawLoadResult :=
| RawLoaded (state : Json)
| RawRejected (r : RawRejection).

(** The block [if state.get('timestamp'): ...] with its own handler:
    [fromisoformat] gives the naive local time a string denotes, and
    nothing when [datetime.fromisoformat] raises [ValueError] or the time
    carries an offset (the subtraction from [datetime.now()] then raises
    [TypeError]); a value that is not a string raises [TypeError]. *)
Definition timestamp_check (fromisoformat : string -> option Z) (now : Z) (ts : Json)
  : option RawRejection :=
  if json_truthy ts then
    match ts with
    | JStr s =>
        match fromisoformat s with
        | Some t => if Z.ltb HOURS_24 (now - t) then Some RawTooOld else None
        | None => Some RawInvalidTimestamp
        end
    | _ => Some RawInvalidTimestamp
    end
  else None.

(** The block [if state.get('csv_mtime') and os.path.exists(output_file)]. *)
Definition mtime_check (out_mtime : option Z) (recorded : Json) : option RawRejection :=
  if json_truthy recorded then
    match out_mtime with
    | Some current =>
        match json_number recorded with
        | Some m =>
            if Z.ltb MTIME_TOLERANCE (Z.abs (current - m)) then Some RawCsvModified
            else None
        | None => Some (RawCorrupted ErrMtimeNotANumber)
        end
    | None => None
    end
  else None.

(** What [_load_resume_state] returns, as a function of the content of the
    checkpoint file ([None]: no path, or no file at the path), whatever the
    types of its members.  The exporter attributes it sets on the way are
    those of [_load_resume_state] above. *)
Definition _load_resume_state_raw (fromisoformat : string -> option Z)
    (content : option RawFile) (now : Z) (out_mtime : option Z)
    (bucket : string) (prefix : option string) : RawLoadResult :=
  match content with
  | None => RawRejected RawNoCheckpointFile
  | Some (RawUnparseable exn) => RawRejected (RawCorrupted (ErrJson exn))
  | Some (RawJson (JObj state)) =>
      if negb (json_is_str (json_get "bucket_name" state) bucket) then
        RawRejected (RawBucketMismatch (json_get "bucket_name" state) bucket)
      else if negb (json_is_opt_str (json_get "prefix" state) prefix) then
        RawRejected (RawPrefixMismatch (json_get "prefix" state) prefix)
      else
        match timestamp_check fromisoformat now (json_get "timestamp" state) with
        | Some r => RawRejected r
        | None =>
            if set_raises (json_get_default "processed_keys" (JList []) state) then
              RawRejected (RawCorrupted ErrKeysNotASet)
            else
              match mtime_check out_mtime (json_get "csv_mtime" state) with
              | Some r => RawRejected r
              | None =>
                  match json_number (json_get_default "total_items" (JNum 0) state) with
                  | Some _ => RawLoaded (JObj state)
                  | None => RawRejected (RawCorrupted ErrTotalNotANumber)
                  end
              end
        end
  | Some (RawJson _) => RawRejected (RawCorrupted ErrNotAnObject)
  end.



Definition raw_kind (r : RawRejection) : ReasonKind :=
  match r with
  | RawNoCheckpointFile => KNoFile
  | RawCorrupted _ => KCorrupted
  | RawBucketMismatch _ _ => KBucket
  | RawPrefixMismatch _ _ => KPrefix
  | RawInvalidTimestamp => KInvalidTimestamp
  | RawTooOld => KTooOld
  | RawCsvModified => KCsvModified
  end.



(** The JSON text [_save_resume_state] writes for a dictionary, read back:
    [isoformat] renders the time of the save.  A timestamp the load finds
    invalid is represented by a value that is not a string. *)
Definition json_opt_str (o : option string) : Json := from_option JStr JNull o.

Definition state_members (isoformat : Z -> string) (d : StateDict)
  : list (string * Json) :=
       [("bucket_name", json_opt_str (st_bucket_name d));
        ("prefix", json_opt_str (st_prefix d));
        ("next_key_marker", json_opt_str (st_next_key_marker d));
        ("next_version_marker", json_opt_str (st_next_version_marker d));
        ("batch_num", JNum (st_batch_num d));
        ("total_items", JNum (st_total_items d));
        ("timestamp", match st_timestamp d with
                      | TsAbsent => JNull
                      | TsInvalid => JBool true
                      | TsAt t => JStr (isoformat t)
                      end);
        ("original_start_time", JNum (st_original_start_time d));
        ("cumulative_runtime", JNum (st_cumulative_runtime d));
        ("csv_mtime", from_option JNum JNull (st_csv_mtime d));
        ("processed_keys", JList (JStr <$> st_processed_keys d))].

Definition state_json (isoformat : Z -> string) (d : StateDict) : Json :=
  JObj (state_members isoformat d).

Definition raw_of_file (isoformat : Z -> string) (file : CkptFile) : RawFile :=
  match file with
  | CkptDict d => RawJson (state_json isoformat d)
  | CkptUnreadable exn => RawUnparseable exn
  end.

(** A stand-in for [datetime.fromisoformat] that reads one timestamp, and
    a checkpoint file as JSON: one that [_save_resume_state] could have
    written at 3 s, and one whose members have unexpected types. *)
Definition demo_fromisoformat (s : string) : option Z :=
  if String.eqb s "1970-01-01T00:00:03" then Some (sec 3) else None.



Definition ill_typed_checkpoint : Json :=
  JObj [("bucket_name", JStr "my-bucket");
        ("next_key_marker", JNum 12);
        ("batch_num", JStr "seven");
        ("total_items", JBool true);
        ("timestamp", JStr EmptyString);
        ("csv_mtime", JList []);
        ("processed_keys", JStr "abc")].

(** Three rows, in the order of their keys; an exporter that has seen the
    key ["a"]; a page that repeats a record; a queue of 4500 rows. *)
Definition plain_row (key : string) : Row :=
  row_of_version "my-bucket" false true (demo_version key "null").

Definition three_rows : list (option Row) :=
  [Some (plain_row "a"); Some (plain_row "b"); Some (plain_row "c"); None].

Definition fails_at_second_row : WriterEvent := {| w_take := 5; w_io := IoFailsAtRow 1 |}.

Definition seeded_exporter : Exporter :=
  with_processed_keys (new_exporter None) ["a-null"].

Definition page_with_repeat : Response :=
  demo_page [demo_version "a" "null"; demo_version "b" "null"; demo_version "b" "null"]
    None.

Definition long_queue : list (option Row) :=
  map Some (replicate 4500 demo_row) ++ [None].

Definition full_rounds : list WriterEvent :=
  replicate 4 {| w_take := 2000; w_io := IoOk |}.

(* =================================================================== *)
(** * Properties *)
(* =================================================================== *)

(** ** Key encoding *)

Lemma replace_app (a b : ascii) (s1 s2 : string) :
  PyStr.replace a b (s1 +:+ s2) = PyStr.replace a b s1 +:+ PyStr.replace a b s2.
Proof.
  induction s1 as [|c s1 IH]; simpl; [reflexivity|].
  unfold String.app in *. simpl. now rewrite IH.
Qed.

(** With the space made safe and then replaced, a byte is encoded as
    [plus_byte] says. *)
Lemma replace_quote_byte (c : ascii) :
  PyStr.replace " " "+" (Urllib.quote_byte ("/" +:+ " ") c) = Urllib.plus_byte c.
Proof. destruct c as [[] [] [] [] [] [] [] []]; vm_compute; reflexivity. Qed.

Lemma quote_with_space_safe (s : string) :
  PyStr.replace " " "+" (Urllib.quote ("/" +:+ " ") s) = Urllib.plus_encode s.
Proof.
  induction s as [|c s IH]; simpl; [reflexivity|].
  now rewrite replace_app, replace_quote_byte, IH.
Qed.

Lemma quote_without_space (s : string) :
  PyStr.contains " " s = false -> Urllib.quote "/" s = Urllib.plus_encode s.
Proof.
  induction s as [|c s IH]; [reflexivity|].
  cbn [PyStr.contains Urllib.quote Urllib.plus_encode].
  destruct (Ascii.eqb " " c) eqn:E; [discriminate|]. intros H.
  rewrite IH by assumption. unfold Urllib.plus_byte.
  destruct (Ascii.eqb c " ") eqn:E2; [|reflexivity].
  apply Ascii.eqb_eq in E2. subst c. discriminate E.
Qed.

(** [quote_plus(key, safe='/')] byte by byte. *)
Lemma quote_plus_plus_encode (s : string) :
  Urllib.quote_plus "/" s = Urllib.plus_encode s.
Proof.
  unfold Urllib.quote_plus. destruct (PyStr.contains " " s) eqn:E.
  - apply quote_with_space_safe.
  - now apply quote_without_space.
Qed.

(** The two encodings agree exactly on the keys without a space. *)
Lemma plus_encode_percent_encode (s : string) :
  PyStr.contains " " s = false ->
  Urllib.plus_encode s = Urllib.percent_encode_preserving_slash s.
Proof. intros H. symmetry. now apply quote_without_space. Qed.

(** ** [process_batch]: the rows put *)

Lemma process_records_app bucket bops url keys rs1 rs2 :
  process_records bucket bops url keys (rs1 ++ rs2) =
  fold_left (process_record bucket bops url) rs2 (process_records bucket bops url keys rs1).
Proof. unfold process_records. apply fold_left_app. Qed.



(** ** [process_batch]: the rows put *)

Lemma set_add_member x s : set_mem x s = true -> set_add x s = s.
Proof. unfold set_add. now intros ->. Qed.

Lemma set_add_fresh x s : set_mem x s = false -> set_add x s = s ++ [x].
Proof. unfold set_add. now intros ->. Qed.

Lemma process_records_fold bucket bops url rs : forall keys put count,
  fold_left (process_record bucket bops url) rs (keys, put, count) =
  (fold_left (fun s r => set_add (key_version (record_key r) (record_version_id r)) s) rs keys,
   put ++ map (row_of_record bucket bops url) (fresh_records keys rs),
   count + Z.of_nat (length (fresh_records keys rs))).
Proof.
  induction rs as [|r rs IH]; intros keys put count; simpl.
  - rewrite app_nil_r, Z.add_0_r. reflexivity.
  - destruct (set_mem _ keys) eqn:E.
    + rewrite IH, (set_add_member _ _ E). reflexivity.
    + rewrite IH. cbn [map length]. rewrite Nat2Z.inj_succ, <- app_assoc.
      f_equal. lia.
Qed.

Lemma process_records_put bucket bops url keys rs :
  (process_records bucket bops url keys rs).1.2 =
  map (row_of_record bucket bops url) (fresh_records keys rs).
Proof. unfold process_records. rewrite process_records_fold. reflexivity. Qed.

Lemma process_batch_put self response bucket prefix km vm bops url :
  (process_batch self (ApiOk response) bucket prefix km vm bops url).1.2 =
  map (row_of_record bucket bops url)
      (fresh_records (processed_keys self) (records_of response)).
Proof.
  unfold process_batch.
  pose proof (process_records_put bucket bops url (processed_keys self) (records_of response)) as H.
  destruct (process_records _ _ _ _ _) as [[keys put] count]. exact H.
Qed.

Lemma key_name_row_of_record bucket bops url r :
  key_name (row_of_record bucket bops url r) = encode_key url (record_key r).
Proof. destruct r; reflexivity. Qed.

(** C8 (as amended).  Every row [process_batch] puts on the queue comes, in
    order, from a record of the page that is not in the dedup set.  With
    URL encoding its [key_name] is the key encoded byte by byte: a space
    becomes a plus sign, an unreserved byte or a slash stays, any other
    byte becomes [%XX]; this is the percent-encoding with the slash
    preserved exactly for the keys without a space.  Without URL encoding
    [key_name] is the key. *)
Theorem put_rows_key_name :
  forall self response bucket prefix km vm (bops url : bool),
    Forall2 (fun row r =>
               key_name row =
               if url then Urllib.plus_encode (record_key r) else record_key r)
      (process_batch self (ApiOk response) bucket prefix km vm bops url).1.2
      (fresh_records (processed_keys self) (records_of response))
    /\ (forall k, PyStr.contains " " k = false ->
                  Urllib.plus_encode k = Urllib.percent_encode_preserving_slash k)
    /\ (forall c, Urllib.plus_byte c =
                  if Ascii.eqb c " " then String "+" EmptyString
                  else if (Urllib.always_safe c || Ascii.eqb c "/")%bool
                       then String c EmptyString else Urllib.pct c).
Proof.
  intros. split; [|split].
  - rewrite process_batch_put.
    induction (fresh_records _ _) as [|r rs IH]; simpl; constructor; [|exact IH].
    rewrite key_name_row_of_record. unfold encode_key.
    destruct url; [apply quote_plus_plus_encode|reflexivity].
  - apply plus_encode_percent_encode.
  - intros c. unfold Urllib.plus_byte, Urllib.quote_byte. simpl PyStr.contains.
    rewrite (Ascii.eqb_sym c "/"). destruct (Ascii.eqb "/" c); reflexivity.
Qed.

(** ** The dedup identity *)

(** The identity determines the record when version ids hold no dash. *)
Lemma key_version_inj_no_dash (k1 k2 v1 v2 : string) :
  PyStr.contains "-" v1 = false ->
  PyStr.contains "-" v2 = false ->
  key_version k1 v1 = key_version k2 v2 ->
  k1 = k2 /\ v1 = v2.
Proof.
  unfold key_version, String.app. intros H1 H2.
  assert (Hin : forall k v, PyStr.contains "-" (String.append k (String "-" v)) = true).
  { intros k v. induction k as [|c k IHk].
    - reflexivity.
    - change (String.append (String c k) (String "-" v))
        with (String c (String.append k (String "-" v))).
      cbn [PyStr.contains]. destruct (Ascii.eqb "-" c); [reflexivity|exact IHk]. }
  assert (Hdash : forall k v v', PyStr.contains "-" v' = false ->
            String "-" v' <> String.append k (String "-" v) \/ k = EmptyString).
  { intros k v v' Hv'. destruct k as [|c k]; [now right|left].
    change (String.append (String c k) (String "-" v))
      with (String c (String.append k (String "-" v))).
    intros Heq. injection Heq as <- ->.
    rewrite Hin in Hv'. discriminate. }
  revert k2. induction k1 as [|c1 k1 IH]; intros [|c2 k2];
    unfold String.append; fold String.append; intros Heq.
  - injection Heq as ->. auto.
  - destruct (Hdash (String c2 k2) v2 v1 H1) as [Hne| ?]; [|discriminate].
    exfalso. apply Hne. exact Heq.
  - destruct (Hdash (String c1 k1) v1 v2 H2) as [Hne| ?]; [|discriminate].
    exfalso. apply Hne. symmetry. exact Heq.
  - injection Heq as -> Heq. destruct (IH _ Heq) as [-> ->]. auto.
Qed.

(** ** Pre-seeding from the output file *)

Lemma row_get_key_name bops (cells : list string) b k v rest :
  cells = b :: k :: v :: rest ->
  row_get "key_name" (fieldnames bops) cells "" = k.
Proof. intros ->. destruct bops; destruct rest as [|? [|? [|? [|? [|? [|? ?]]]]]]; reflexivity. Qed.

Lemma row_get_version_id bops (cells : list string) b k v rest :
  cells = b :: k :: v :: rest ->
  row_get "version_id" (fieldnames bops) cells "" = v.
Proof. intros ->. destruct bops; destruct rest as [|? [|? [|? [|? [|? [|? ?]]]]]]; reflexivity. Qed.

(** A string without carriage return is read as it was written. *)
Lemma universal_newlines_no_cr (s : string) :
  no_cr s = true -> universal_newlines s = s.
Proof.
  unfold no_cr, all_chars. induction s as [|c s IH]; [reflexivity|].
  cbn [list_ascii_of_string forallb universal_newlines].
  intros H. apply andb_true_iff in H as [Hc Hs].
  apply negb_true_iff in Hc. rewrite Hc, (IH Hs). reflexivity.
Qed.

(** What is read as a string without line feed was written as that
    string. *)
Lemma universal_newlines_plain (s : string) : forall t,
  no_lf t = true -> universal_newlines s = t -> s = t.
Proof.
  unfold no_lf, all_chars. induction s as [|c s IH]; intros t Ht; cbn [universal_newlines].
  - intros <-. reflexivity.
  - assert (Hlf : forall u, String line_feed u <> t).
    { intros u <-. cbn [list_ascii_of_string forallb] in Ht.
      rewrite Ascii.eqb_refl in Ht. discriminate. }
    destruct (Ascii.eqb c carriage_return).
    + destruct s as [|c' s'].
      * intros H. destruct (Hlf _ H).
      * destruct (Ascii.eqb c' line_feed) eqn:Hc'.
        -- cbn [universal_newlines].
           apply Ascii.eqb_eq in Hc'. subst c'.
           change (Ascii.eqb line_feed carriage_return) with false. cbn iota.
           intros H. destruct (Hlf _ H).
        -- intros H. destruct (Hlf _ H).
    + destruct t as [|c2 t]; [discriminate|]. intros H. injection H as -> H.
      cbn [list_ascii_of_string forallb] in Ht. apply andb_true_iff in Ht as [_ Ht].
      f_equal. now apply IH.
Qed.

Lemma read_fieldnames bops : map universal_newlines (fieldnames bops) = fieldnames bops.
Proof. destruct bops; reflexivity. Qed.

(** Read back from a file that starts with the header, a row gives the
    identity built from its [key_name] and [version_id] columns as they
    are read. *)
Lemma csv_identities_rows bops (rows : list Row) :
  csv_identities (fieldnames bops :: map row_cells rows) =
  map (fun row => key_version (universal_newlines (key_name row))
                              (universal_newlines (version_id row))) rows.
Proof.
  unfold csv_identities, read_records. cbn [map]. rewrite read_fieldnames.
  induction rows as [|row rows IH]; [reflexivity|].
  cbn [map]. rewrite filter_cons_True by (unfold row_cells; discriminate).
  cbn [map]. rewrite IH. f_equal.
  unfold row_cells. cbn [map app].
  erewrite row_get_key_name, row_get_version_id by reflexivity. reflexivity.
Qed.

(** Without URL encoding the identity read back from the file is the one
    computed when the record was fetched, provided the key and the version
    id hold no carriage return. *)
Lemma csv_identity_without_encoding bucket bops (r : record) :
  no_cr (record_key r) = true ->
  no_cr (record_version_id r) = true ->
  csv_identities [fieldnames bops; row_cells (row_of_record bucket bops false r)] =
  [key_version (record_key r) (record_version_id r)].
Proof.
  intros Hk Hv.
  change [row_cells (row_of_record bucket bops false r)]
    with (map row_cells [row_of_record bucket bops false r]).
  rewrite csv_identities_rows. cbn [map]. f_equal.
  destruct r; cbn [row_of_record row_of_version row_of_delete_marker key_name version_id
                   encode_key record_key record_version_id] in *;
    now rewrite (universal_newlines_no_cr _ Hk), (universal_newlines_no_cr _ Hv).
Qed.

(** ** Checkpoints *)

Lemma csv_modified_same (m : option Z) : csv_modified m m = false.
Proof.
  destruct m as [m|]; [|reflexivity]. unfold csv_modified.
  destruct (Z.eqb m 0); [reflexivity|].
  rewrite Z.sub_diag. reflexivity.
Qed.

(** C3.  A checkpoint written by [_save_resume_state] is accepted by
    [_load_resume_state] called for the same bucket, prefix and output file
    not more than 24 hours later, the output file having the modification
    time it had (or still not existing); the state returned has the cursor
    markers and the [total_items] that were saved. *)
Theorem checkpoint_round_trip :
  forall (self self' : Exporter) (fs : gmap string CkptFile)
         (bucket : string) (prefix : option string) (output_file : string)
         (out_mtime : option Z) (next_key next_version : option string)
         (batch_num total_items t_save t_load : Z),
    resume_state_file self =
      Some (_generate_resume_state_filename bucket prefix output_file) ->
    resume_state_file self' =
      Some (_generate_resume_state_filename bucket prefix output_file) ->
    t_load - t_save <= HOURS_24 ->
    exists d,
      (_load_resume_state self'
         (_save_resume_state self fs t_save out_mtime WriteOk bucket prefix
            next_key next_version batch_num total_items).2
         t_load out_mtime bucket prefix).1 = Loaded d
      /\ st_next_key_marker d = next_key
      /\ st_next_version_marker d = next_version
      /\ st_total_items d = total_items.
Proof.
  intros self self' fs bucket prefix output_file out_mtime nk nv bn ti t_save t_load
    Hself Hself' Hage.
  unfold _save_resume_state, _load_resume_state.
  rewrite Hself, Hself'. cbn [snd]. rewrite lookup_insert_eq.
  cbn [st_bucket_name st_prefix st_timestamp st_csv_mtime].
  rewrite !bool_decide_eq_true_2 by reflexivity. cbn [negb].
  destruct (Z.ltb_spec HOURS_24 (t_load - t_save)) as [Hlt|_]; [lia|].
  rewrite csv_modified_same. cbn [fst]. eexists. split; [reflexivity|].
  cbn. auto.
Qed.

Lemma csv_modified_true (m cur : Z) :
  m <> 0 -> MTIME_TOLERANCE < Z.abs (cur - m) ->
  csv_modified (Some m) (Some cur) = true.
Proof.
  intros Hm Hd. unfold csv_modified.
  destruct (Z.eqb_spec m 0); [contradiction|]. now apply Z.ltb_lt.
Qed.

Lemma csv_modified_inv (stored current : option Z) :
  csv_modified stored current = true ->
  exists m cur, stored = Some m /\ m <> 0 /\ current = Some cur
                /\ MTIME_TOLERANCE < Z.abs (cur - m).
Proof.
  unfold csv_modified. destruct stored as [m|], current as [cur|]; try discriminate.
  destruct (Z.eqb_spec m 0); [discriminate|]. intros H%Z.ltb_lt. eauto 10.
Qed.

(** The texts of the rejections tell the reasons apart. *)
Lemma rejection_message_kind (r1 r2 : Rejection) :
  rejection_message r1 = rejection_message r2 -> kind_of r1 = kind_of r2.
Proof.
  destruct r1, r2; try reflexivity;
    unfold rejection_message; unfold String.app; cbn [String.append];
    intros H; discriminate H.
Qed.

(** What [_load_resume_state] returns for a checkpoint file that calls for
    a rejection: the reason of the first check that fails. *)
Ltac order_case H :=
  inversion H; simplify_eq; cbn;
  first [ lia | congruence | done
        | match goal with
          | H1 : st_timestamp ?d = TsAt _, H2 : st_timestamp ?d = TsAt _ |- _ =>
              rewrite H1 in H2; injection H2 as ->; lia
          end ].

Lemma load_rejects_first self fs now out_mtime bucket prefix path file reason :
  resume_state_file self = Some path ->
  fs !! path = Some file ->
  RejectionCondition bucket prefix now out_mtime file reason ->
  exists r,
    (_load_resume_state self fs now out_mtime bucket prefix).1 = Rejected r
    /\ RejectionCondition bucket prefix now out_mtime file r
    /\ (check_order r <= check_order reason)%nat.
Proof.
  intros Hpath Hfile Hcond. unfold _load_resume_state. rewrite Hpath, Hfile.
  destruct file as [d|exn].
  2:{ inversion Hcond; subst. eexists; split; [reflexivity|]. split; [constructor|lia]. }
  destruct (decide (st_bucket_name d = Some bucket)) as [Hb|Hb].
  2:{ rewrite bool_decide_eq_false_2 by assumption. cbn [negb fst].
      eexists; split; [reflexivity|]. split; [now constructor|].
      order_case Hcond. }
  rewrite bool_decide_eq_true_2 by assumption. cbn [negb].
  destruct (decide (st_prefix d = prefix)) as [Hp|Hp].
  2:{ rewrite bool_decide_eq_false_2 by assumption. cbn [negb fst].
      eexists; split; [reflexivity|]. split; [now constructor|].
      order_case Hcond. }
  rewrite bool_decide_eq_true_2 by assumption. cbn [negb].
  destruct (st_timestamp d) as [| |t] eqn:Hts.
  - destruct (csv_modified (st_csv_mtime d) out_mtime) eqn:Hm.
    + cbn [fst]. eexists; split; [reflexivity|].
      apply csv_modified_inv in Hm as (m & cur & Hs & Hm0 & Hc & Hd).
      split; [now apply (Cond_csv_modified _ _ _ _ d m cur)|].
      order_case Hcond.
    + exfalso. inversion Hcond; subst; try congruence.
      match goal with
      | H1 : st_csv_mtime d = Some ?m, H2 : ?m <> 0,
        H3 : MTIME_TOLERANCE < _ |- _ =>
          rewrite H1, (csv_modified_true _ _ H2 H3) in Hm; discriminate
      end.
  - cbn [fst]. eexists; split; [reflexivity|]. split; [now constructor|].
    order_case Hcond.
  - destruct (Z.ltb_spec HOURS_24 (now - t)) as [Hold|Hfresh].
    + cbn [fst]. eexists; split; [reflexivity|].
      split; [now apply (Cond_too_old _ _ _ _ d t)|].
      order_case Hcond.
    + destruct (csv_modified (st_csv_mtime d) out_mtime) eqn:Hm.
      * cbn [fst]. eexists; split; [reflexivity|].
        apply csv_modified_inv in Hm as (m & cur & Hs & Hm0 & Hc & Hd).
        split; [now apply (Cond_csv_modified _ _ _ _ d m cur)|].
        order_case Hcond.
      * exfalso. inversion Hcond; subst; try congruence.
        -- match goal with
           | H1 : st_timestamp d = TsAt ?t', H2 : HOURS_24 < now - ?t' |- _ =>
               rewrite H1 in Hts; injection Hts as ->; lia
           end.
        -- match goal with
           | H1 : st_csv_mtime d = Some ?m, H2 : ?m <> 0,
             H3 : MTIME_TOLERANCE < _ |- _ =>
               rewrite H1, (csv_modified_true _ _ H2 H3) in Hm; discriminate
           end.
Qed.

(** ** The trim of the dedup set *)

Lemma set_mem_false x (s : list string) : x ∉ s -> set_mem x s = false.
Proof. intros H. unfold set_mem. now apply bool_decide_eq_false_2. Qed.

Lemma fold_set_add_NoDup (l : list string) : forall acc,
  NoDup (acc ++ l) -> fold_left (fun s x => set_add x s) l acc = acc ++ l.
Proof.
  induction l as [|x l IH]; intros acc Hnd; simpl.
  - now rewrite app_nil_r.
  - assert (Hx : x ∉ acc).
    { apply NoDup_app in Hnd as (_ & Hd & _). intros Hin.
      apply (Hd x Hin). left. }
    rewrite (set_add_fresh _ _ (set_mem_false _ _ Hx)).
    rewrite IH; rewrite <- app_assoc; [reflexivity|exact Hnd].
Qed.

(** [set(l)] keeps a list without duplicates as it is. *)
Lemma set_of_list_NoDup (l : list string) : NoDup l -> set_of_list l = l.
Proof. intros H. unfold set_of_list. now rewrite fold_set_add_NoDup. Qed.

Lemma py_tail_length {A} (n : Z) (l : list A) :
  0 <= n <= Z.of_nat (length l) -> Z.of_nat (length (py_tail n l)) = n.
Proof. intros H. unfold py_tail. rewrite length_drop. lia. Qed.

Lemma py_tail_reverse {A} (n : Z) (l : list A) :
  0 <= n <= Z.of_nat (length l) ->
  py_tail n (reverse l) = reverse (take (Z.to_nat n) l).
Proof.
  intros H. unfold py_tail. rewrite length_reverse, drop_reverse.
  f_equal. f_equal. lia.
Qed.

(** Whatever the iteration order, a trim keeps exactly 10,000 members of
    the set. *)
Lemma trim_keeps_low_watermark (s : list string) :
  set_order s ≡ₚ s ->
  NoDup s ->
  LOW_WATERMARK <= Z.of_nat (length s) ->
  NoDup (trim_processed_keys s)
  /\ trim_processed_keys s ⊆ s
  /\ Z.of_nat (length (trim_processed_keys s)) = LOW_WATERMARK.
Proof.
  intros Hperm Hnd Hlen. unfold trim_processed_keys.
  assert (Hnd' : NoDup (py_tail LOW_WATERMARK (set_order s))).
  { unfold py_tail. eapply sublist_NoDup; [|apply sublist_drop].
    now rewrite Hperm. }
  rewrite (set_of_list_NoDup _ Hnd'). split; [exact Hnd'|]. split.
  - unfold py_tail. etrans; [apply subseteq_drop|]. now rewrite Hperm.
  - apply py_tail_length. rewrite Hperm. unfold LOW_WATERMARK in *. lia.
Qed.

(** ** The writer: every write unit is sorted *)

Lemma insert_by_key_Forall (P : Row -> Prop) r l :
  P r -> Forall P l -> Forall P (insert_by_key r l).
Proof.
  intros Hr Hl. induction Hl as [|x l Hx Hl IH]; simpl.
  - constructor; [assumption|constructor].
  - destruct (String.ltb _ _); repeat constructor; assumption.
Qed.

Lemma ltb_false_le (a b : string) : String.ltb a b = false -> String.le b a.
Proof.
  unfold String.ltb, String.le, String.leb. rewrite (String.compare_antisym b a).
  destruct (String.compare a b); [reflexivity|discriminate|reflexivity].
Qed.

Lemma ltb_true_le (a b : string) : String.ltb a b = true -> String.le a b.
Proof.
  unfold String.ltb, String.le, String.leb.
  destruct (String.compare a b); [discriminate|reflexivity|discriminate].
Qed.

Lemma insert_by_key_sorted r l :
  StronglySorted key_le l -> StronglySorted key_le (insert_by_key r l).
Proof.
  induction 1 as [|x l Hl IH Hx]; simpl.
  - repeat constructor.
  - destruct (String.ltb (key_name r) (key_name x)) eqn:E.
    + constructor; [now constructor|].
      apply ltb_true_le in E. constructor; [exact E|].
      eapply Forall_impl; [exact Hx|]. intros y Hy. unfold key_le in *.
      etrans; eassumption.
    + constructor; [exact IH|].
      apply insert_by_key_Forall; [|exact Hx]. now apply ltb_false_le.
Qed.

Lemma sort_by_key_name_sorted l : StronglySorted key_le (sort_by_key_name l).
Proof.
  unfold sort_by_key_name.
  assert (H : forall acc, StronglySorted key_le acc ->
            StronglySorted key_le (fold_left (fun acc r => insert_by_key r acc) l acc)).
  { induction l as [|r l IH]; intros acc Hacc; simpl; [assumption|].
    apply IH. now apply insert_by_key_sorted. }
  apply H. constructor.
Qed.

Lemma insert_by_key_Permutation r l : insert_by_key r l ≡ₚ r :: l.
Proof.
  induction l as [|x l IH]; simpl; [reflexivity|].
  destruct (String.ltb _ _); [reflexivity|].
  rewrite IH. apply Permutation_swap.
Qed.

(** The sort keeps the rows of the buffer. *)
Lemma sort_by_key_name_Permutation l : sort_by_key_name l ≡ₚ l.
Proof.
  unfold sort_by_key_name.
  assert (H : forall acc, fold_left (fun acc r => insert_by_key r acc) l acc ≡ₚ acc ++ l).
  { induction l as [|r l IH]; intros acc; simpl; [now rewrite app_nil_r|].
    rewrite IH, insert_by_key_Permutation. simpl. apply Permutation_middle. }
  now rewrite H.
Qed.

Lemma StronglySorted_take {A} (R : relation A) n l :
  StronglySorted R l -> StronglySorted R (take n l).
Proof.
  intros H. revert n. induction H as [|x l Hl IH Hx]; intros [|n]; simpl;
    try constructor; [apply IH|].
  eapply Forall_forall. intros y Hy. eapply Forall_forall; [exact Hx|].
  eapply subseteq_take; exact Hy.
Qed.

(** What reaches the file in one write is sorted. *)
Lemma write_rows_sorted io rows :
  StronglySorted key_le rows -> StronglySorted key_le (write_rows io rows).1.
Proof.
  intros H. destruct io as [|k|]; simpl; try assumption.
  destruct (Nat.ltb k (length rows)); simpl; [now apply StronglySorted_take|assumption].
Qed.

Lemma writer_iteration_sorted ev w :
  units_sorted w -> units_sorted (writer_iteration ev w).
Proof.
  unfold units_sorted, writer_iteration. intros H.
  destruct (collect _ _ _) as [[batch q] sentinel].
  destruct (_ || _)%bool; [|exact H].
  pose proof (write_rows_sorted (w_io ev) _
                (sort_by_key_name_sorted (sort_buffer w ++ batch))) as Hs.
  destruct (write_rows _ _) as [written ok]. simpl in Hs.
  destruct ok; simpl; apply Forall_app; split; auto.
Qed.

Lemma writer_loop_sorted evs : forall w,
  units_sorted w -> units_sorted (writer_loop evs w).1.
Proof.
  induction evs as [|ev evs IH]; intros w H; simpl.
  - destruct (writer_continues w); exact H.
  - destruct (writer_continues w); [|exact H].
    apply IH. now apply writer_iteration_sorted.
Qed.

Lemma write_remaining_sorted io w :
  units_sorted w -> units_sorted (write_remaining io w).1.
Proof.
  unfold units_sorted, write_remaining. intros H.
  destruct (sort_buffer w) as [|r buf] eqn:E; [exact H|].
  pose proof (write_rows_sorted io _ (sort_by_key_name_sorted (r :: buf))) as Hs.
  destruct (write_rows _ _) as [written ok]. simpl in Hs.
  simpl. apply Forall_app; split; auto.
Qed.

(** C6.  Whatever the environment does (how the rows arrive, which writes
    fail), in every write unit the writer thread appends to the output file,
    the one written after the loop included, the [key_name]s are
    non-decreasing. *)
Theorem write_units_locally_sorted :
  forall (start : WriterStart) (evs : list WriterEvent) (final_io : IoOutcome)
         (q : list (option Row)),
    Forall (Sorted key_le) (units (csv_writer_worker start evs final_io q).1).
Proof.
  intros. eapply Forall_impl; [|intros u Hu; apply StronglySorted_Sorted; exact Hu].
  change (units_sorted (csv_writer_worker start evs final_io q).1).
  unfold csv_writer_worker.
  assert (H0 : units_sorted (new_writer q)) by constructor.
  destruct start; try exact H0.
  pose proof (writer_loop_sorted evs _ H0) as H1.
  destruct (writer_loop evs (new_writer q)) as [w [|]]; simpl in H1; [|exact H1].
  now apply write_remaining_sorted.
Qed.

(** ** The listing loop *)

Lemma loop_save_if_requests b cfg ev st nk nv bn ti :
  l_requests (loop_save_if b cfg ev st nk nv bn ti) = l_requests st
  /\ l_put (loop_save_if b cfg ev st nk nv bn ti) = l_put st.
Proof.
  unfold loop_save_if, loop_save. destruct b; [|auto].
  destruct (_save_resume_state _ _ _ _ _ _ _ _ _ _ _); auto.
Qed.

(** One iteration on a page: the request carries the cursor of the loop;
    a truncated page hands its markers on, another one ends the loop. *)
Lemma loop_iteration_page cfg ev st truncated :
  is_page truncated ev ->
  match loop_iteration cfg true ev st with
  | inl st' =>
      truncated = true
      /\ (l_next_key_marker st', l_next_version_marker st') = event_markers ev
      /\ l_requests st' =
         l_requests st ++ [list_params (cfg_bucket_name cfg) (cfg_prefix cfg)
                             (l_next_key_marker st) (l_next_version_marker st)]
  | inr (how, st') =>
      truncated = false /\ how = Completed
      /\ l_requests st' =
         l_requests st ++ [list_params (cfg_bucket_name cfg) (cfg_prefix cfg)
                             (l_next_key_marker st) (l_next_version_marker st)]
  end.
Proof.
  intros (r & Hapi & Hint & Htr). unfold loop_iteration, event_markers.
  rewrite Hint, Hapi. unfold process_batch.
  destruct (process_records _ _ _ _ _) as [[keys put] count].
  cbn [negb andb PyStr.truthy error is_truncated next_key_marker
       next_version_marker batch_count].
  rewrite Htr. destruct truncated; cbn [l_requests l_next_key_marker l_next_version_marker];
    (split; [reflexivity|]); (split; [reflexivity|]);
    apply loop_save_if_requests.
Qed.

(** With the writer thread running: when the listing API answers a finite
    sequence of pages without error, all truncated but the last, the loop
    (its rows being taken off the queue by the writer) ends by its [break]
    after exactly one iteration per page, whatever events would follow; the
    first request carries the cursor the loop starts with and each later
    one the markers of the page before it. *)
Lemma listing_loop_terminates :
  forall (cfg : Config) (evs : list EnvEvent) (ev_last : EnvEvent)
         (rest : list EnvEvent) (st : LoopState),
    Forall (is_page true) evs ->
    is_page false ev_last ->
    exists st',
      listing_loop cfg true (evs ++ ev_last :: rest) st
        = (Completed, st', S (length evs))
      /\ l_requests st' =
         l_requests st
           ++ cursor_chain cfg (l_next_key_marker st) (l_next_version_marker st) evs.
Proof.
  intros cfg evs ev_last rest st Hevs Hlast. revert st.
  induction Hevs as [|ev evs Hev Hevs IH]; intros st.
  - cbn [app listing_loop length cursor_chain].
    pose proof (loop_iteration_page cfg ev_last st false Hlast) as H.
    destruct (loop_iteration cfg true ev_last st) as [st'|[how st']].
    + destruct H as [H _]. discriminate.
    + destruct H as (_ & -> & Hreq). eexists. split; [reflexivity|exact Hreq].
  - cbn [app listing_loop length cursor_chain].
    pose proof (loop_iteration_page cfg ev st true Hev) as H.
    destruct (loop_iteration cfg true ev st) as [st1|[how st1]].
    + destruct H as (_ & Hmark & Hreq).
      destruct (IH st1) as (st' & Hloop & Hreq').
      rewrite Hloop. eexists. split; [reflexivity|].
      rewrite Hreq', Hreq, <- app_assoc. cbn [app].
      rewrite <- Hmark. reflexivity.
    + destruct H as [H _]. discriminate.
Qed.

(** ** A failed write in the writer loop *)

(** The failed write of a round: counted, the buffer kept. *)
Lemma writer_iteration_failed ev w :
  write_fails ev w = true ->
  w_errors (writer_iteration ev w) = w_errors w + 1
  /\ sort_buffer (writer_iteration ev w) ≡ₚ sort_buffer w ++ collected ev w
  /\ w_processed (writer_iteration ev w) = w_processed w.
Proof.
  unfold write_fails, write_due, collected, writer_iteration.
  destruct (collect _ _ _) as [[batch q] sentinel]. cbn [fst].
  destruct (_ || _)%bool; [|discriminate]. cbn [andb].
  destruct (write_rows _ _) as [written ok]. cbn [snd].
  destruct ok; [discriminate|]. intros _. cbn.
  split; [reflexivity|]. split; [apply sort_by_key_name_Permutation|reflexivity].
Qed.

(** The main thread does not look at the writer: with the writer thread
    started, what it requests, what it puts on the queue and how many
    iterations it makes are the same whatever the writes do, and so is the
    exit status of a run that ends. *)
Lemma main_thread_ignores_writes cfg env evs wenv wenv' fin self fs :
  we_start wenv = StartOk ->
  we_start wenv' = StartOk ->
  let run := export_versions cfg env evs wenv fin self fs in
  let run' := export_versions cfg env evs wenv' fin self fs in
  r_requests run = r_requests run'
  /\ r_put run = r_put run'
  /\ r_iterations run = r_iterations run'
  /\ (forall c c', r_exit run = ExitCode c -> r_exit run' = ExitCode c' -> c = c').
Proof.
  intros Hs Hs'. cbv zeta. unfold export_versions. rewrite Hs, Hs'.
  destruct (negb _); [cbn; repeat split; congruence|].
  destruct (resume_setup cfg env self fs) as [[[self1 fs1] rs]|self1];
    [|cbn; repeat split; congruence].
  destruct (if match rs with Some _ => true | None => false end
            then _check_existing_csv_for_resume self1 (s_out env)
            else (0, self1)) as [cnt self2].
  cbn [writer_alive].
  destruct (listing_loop cfg true evs _) as [[how st] n].
  destruct (csv_writer_worker StartOk (we_events wenv) _ _) as [w wend].
  destruct (csv_writer_worker StartOk (we_events wenv') _ _) as [w' wend'].
  cbn [file_lines negb andb].
  destruct how, wend, wend';
    repeat match goal with
           | |- context [_save_resume_state ?a ?b ?c ?d ?e ?f ?g ?h ?i ?j ?k] =>
               destruct (_save_resume_state a b c d e f g h i j k)
           | |- context [if ?b then _ else _] => destruct b
           end;
    cbn; repeat split; congruence.
Qed.

(* =================================================================== *)
(** * Further properties of the code *)
(* =================================================================== *)

(** ** The encoded key *)

Lemma decode_head_plus_byte (c : ascii) (s : string) :
  decode_head (Urllib.plus_byte c +:+ s) = Some (c, s).
Proof. destruct c as [[] [] [] [] [] [] [] []]; reflexivity. Qed.

Lemma plus_encode_inj (k1 : string) : forall k2,
  Urllib.plus_encode k1 = Urllib.plus_encode k2 -> k1 = k2.
Proof.
  induction k1 as [|c1 k1 IH]; intros [|c2 k2] H; cbn [Urllib.plus_encode] in H.
  - reflexivity.
  - apply (f_equal decode_head) in H. rewrite decode_head_plus_byte in H. discriminate.
  - apply (f_equal decode_head) in H. rewrite decode_head_plus_byte in H. discriminate.
  - apply (f_equal decode_head) in H. rewrite !decode_head_plus_byte in H.
    injection H as -> H. f_equal. now apply IH.
Qed.

(** X1.  The key encoding loses nothing: in either mode two different keys
    get different [key_name]s. *)
Theorem encode_key_inj :
  forall (url_encode : bool) (k1 k2 : string),
    encode_key url_encode k1 = encode_key url_encode k2 -> k1 = k2.
Proof.
  intros [|] k1 k2 H; [|exact H]. unfold encode_key in H.
  rewrite !quote_plus_plus_encode in H. now apply plus_encode_inj.
Qed.

Lemma all_chars_app (p : ascii -> bool) (s1 s2 : string) :
  all_chars p (s1 +:+ s2) = (all_chars p s1 && all_chars p s2)%bool.
Proof.
  unfold all_chars. induction s1 as [|c s1 IH]; [reflexivity|].
  change (String.append (String c s1) s2) with (String c (String.append s1 s2)).
  cbn [list_ascii_of_string forallb]. rewrite IH. now rewrite andb_assoc.
Qed.

Lemma plus_byte_url_bytes (c : ascii) : all_chars url_byte (Urllib.plus_byte c) = true.
Proof. destruct c as [[] [] [] [] [] [] [] []]; reflexivity. Qed.

(** X2.  With URL encoding a [key_name] holds only ASCII letters, digits
    and the characters [_ . - ~ / + %]: no comma, quote, space, line break
    or byte above 127 reaches the output file through it. *)
Theorem encoded_key_bytes :
  forall key : string, all_chars url_byte (encode_key true key) = true.
Proof.
  intros key. unfold encode_key. rewrite quote_plus_plus_encode.
  induction key as [|c key IH]; [reflexivity|].
  cbn [Urllib.plus_encode]. now rewrite all_chars_app, plus_byte_url_bytes, IH.
Qed.

Lemma plus_byte_kept (c : ascii) :
  kept_byte c = true -> Urllib.plus_byte c = String c EmptyString.
Proof. destruct c as [[] [] [] [] [] [] [] []]; intros H; first [reflexivity | discriminate H]. Qed.

(** X3.  A key made of unreserved bytes and slashes only is written
    unchanged, with or without URL encoding. *)
Theorem encode_key_kept :
  forall (url_encode : bool) (key : string),
    all_chars kept_byte key = true -> encode_key url_encode key = key.
Proof.
  intros [|] key H; [|reflexivity]. unfold encode_key.
  rewrite quote_plus_plus_encode. unfold all_chars in H.
  induction key as [|c key IH]; [reflexivity|].
  cbn [list_ascii_of_string forallb] in H. apply andb_true_iff in H as [Hc Hk].
  cbn [Urllib.plus_encode]. rewrite (plus_byte_kept c Hc), (IH Hk). reflexivity.
Qed.

(** ** [process_batch] and the dedup set *)

Lemma set_mem_true x (s : list string) : set_mem x s = true <-> x ∈ s.
Proof. unfold set_mem. apply bool_decide_eq_true. Qed.

Lemma set_add_elem_of x y (s : list string) : x ∈ set_add y s <-> x = y \/ x ∈ s.
Proof.
  unfold set_add. destruct (set_mem y s) eqn:E.
  - apply set_mem_true in E. split; [auto|]. intros [->|H]; assumption.
  - rewrite elem_of_app, list_elem_of_singleton. tauto.
Qed.

Lemma set_add_NoDup y (s : list string) : NoDup s -> NoDup (set_add y s).
Proof.
  intros H. unfold set_add. destruct (set_mem y s) eqn:E; [exact H|].
  apply NoDup_app. split; [exact H|]. split; [|apply NoDup_singleton].
  intros x Hx Hy. apply list_elem_of_singleton in Hy as ->.
  apply set_mem_true in Hx. congruence.
Qed.

(** The dedup set after the two loops: the identities of the records that
    were not skipped are appended in the order of the page. *)
Lemma fold_set_add_fresh (rs : list record) : forall keys,
  fold_left (fun s r => set_add (key_version (record_key r) (record_version_id r)) s)
    rs keys
  = keys ++ map record_identity (fresh_records keys rs).
Proof.
  induction rs as [|r rs IH]; intros keys; cbn [fold_left fresh_records].
  - now rewrite app_nil_r.
  - destruct (set_mem _ keys) eqn:E.
    + rewrite (set_add_member _ _ E). apply IH.
    + rewrite IH, (set_add_fresh _ _ E), <- app_assoc. reflexivity.
Qed.

Lemma process_batch_ok self response bucket prefix km vm bops url :
  process_batch self (ApiOk response) bucket prefix km vm bops url =
  (list_params bucket prefix km vm,
   with_processed_keys self
     (processed_keys self
        ++ map record_identity (fresh_records (processed_keys self) (records_of response))),
   map (row_of_record bucket bops url)
     (fresh_records (processed_keys self) (records_of response)),
   {| batch_count :=
        Z.of_nat (length (fresh_records (processed_keys self) (records_of response)));
      is_truncated := IsTruncated response;
      next_key_marker := NextKeyMarker response;
      next_version_marker := NextVersionIdMarker response;
      error := None;
      retry_after_refresh := false |}).
Proof.
  unfold process_batch, process_records.
  rewrite process_records_fold, fold_set_add_fresh. reflexivity.
Qed.

(** X4.  A page that is answered: [batch_count] is the number of rows put
    on the queue, one for each record of the page that is not skipped and in
    the order of the page, and the dedup set grows by exactly the
    identities of these records. *)
Theorem process_batch_accounting :
  forall self response bucket prefix km vm (bops url : bool),
    let out := process_batch self (ApiOk response) bucket prefix km vm bops url in
    let fresh := fresh_records (processed_keys self) (records_of response) in
    out.1.2 = map (row_of_record bucket bops url) fresh
    /\ batch_count out.2 = Z.of_nat (length out.1.2)
    /\ processed_keys out.1.1.2 = processed_keys self ++ map record_identity fresh
    /\ error_count out.1.1.2 = error_count self.
Proof.
  intros. subst out fresh. rewrite process_batch_ok. cbn.
  rewrite length_map. auto.
Qed.

Lemma fresh_records_sublist (rs : list record) : forall keys,
  fresh_records keys rs `sublist_of` rs.
Proof.
  induction rs as [|r rs IH]; intros keys; cbn [fresh_records]; [constructor|].
  destruct (set_mem _ keys); [apply sublist_cons, IH|apply sublist_skip, IH].
Qed.

Lemma fresh_records_seen (rs : list record) : forall keys,
  (forall r, r ∈ rs -> record_identity r ∈ keys) -> fresh_records keys rs = [].
Proof.
  induction rs as [|r rs IH]; intros keys H; cbn [fresh_records]; [reflexivity|].
  assert (Hr : set_mem (key_version (record_key r) (record_version_id r)) keys = true).
  { apply set_mem_true. apply (H r). left. }
  rewrite Hr. apply IH. intros r' Hr'. apply H. now right.
Qed.

(** After the loops every record of the page is in the dedup set. *)
Lemma fresh_records_marks (rs : list record) : forall keys r,
  r ∈ rs -> record_identity r ∈ keys ++ map record_identity (fresh_records keys rs).
Proof.
  induction rs as [|r0 rs IH]; intros keys r Hr; [inversion Hr|].
  cbn [fresh_records]. destruct (set_mem _ keys) eqn:E.
  - apply elem_of_cons in Hr as [->|Hr]; [|now apply IH].
    apply elem_of_app. left. now apply set_mem_true.
  - cbn [map]. rewrite (set_add_fresh _ _ E).
    apply elem_of_cons in Hr as [->|Hr].
    + apply elem_of_app. right. left.
    + specialize (IH (keys ++ [record_identity r0]) r Hr).
      rewrite <- app_assoc in IH. exact IH.
Qed.

(** X5.  Nothing is forgotten inside a batch: what was in the dedup set
    stays in it, and every record of the page is in it afterwards, put or
    skipped. *)
Theorem process_batch_marks :
  forall self response bucket prefix km vm (bops url : bool),
    let self' := (process_batch self (ApiOk response) bucket prefix km vm bops url).1.1.2 in
    (forall x, x ∈ processed_keys self -> x ∈ processed_keys self')
    /\ (forall r, r ∈ records_of response -> record_identity r ∈ processed_keys self').
Proof.
  intros. subst self'. rewrite process_batch_ok. cbn. split.
  - intros x Hx. apply elem_of_app. now left.
  - intros r Hr. now apply fresh_records_marks.
Qed.

(** X6.  A page fetched again is not emitted again: when [process_batch] is
    run a second time on the same answer, with the exporter the first run
    left, no row is put, [batch_count] is 0 and the dedup set does not
    change. *)
Theorem process_batch_again :
  forall self response bucket prefix km vm (bops url : bool),
    let first := process_batch self (ApiOk response) bucket prefix km vm bops url in
    let second := process_batch first.1.1.2 (ApiOk response) bucket prefix km vm bops url in
    second.1.2 = []
    /\ batch_count second.2 = 0
    /\ processed_keys second.1.1.2 = processed_keys first.1.1.2.
Proof.
  intros. subst first second. rewrite (process_batch_ok self). cbn [fst snd].
  rewrite process_batch_ok. cbn [fst snd processed_keys with_processed_keys batch_count].
  rewrite fresh_records_seen; [cbn; rewrite app_nil_r; auto|].
  intros r Hr. now apply fresh_records_marks.
Qed.

(** X7.  No two rows of a batch stand for the same identity, none stands
    for an identity that was in the dedup set, and a dedup set without
    duplicates stays without duplicates. *)
Theorem process_batch_distinct :
  forall self response bucket prefix km vm (bops url : bool),
    NoDup (processed_keys self) ->
    let out := process_batch self (ApiOk response) bucket prefix km vm bops url in
    let fresh := fresh_records (processed_keys self) (records_of response) in
    NoDup (processed_keys out.1.1.2)
    /\ NoDup (map record_identity fresh)
    /\ (forall r, r ∈ fresh -> record_identity r ∉ processed_keys self).
Proof.
  intros self response bucket prefix km vm bops url Hnd out fresh.
  assert (H : NoDup (processed_keys out.1.1.2)).
  { subst out. unfold process_batch, process_records.
    rewrite process_records_fold. cbn.
    generalize (records_of response) (processed_keys self) Hnd.
    intros rs. induction rs as [|r rs IH]; intros keys Hk; cbn; [exact Hk|].
    apply IH. now apply set_add_NoDup. }
  split; [exact H|]. subst out. rewrite process_batch_ok in H. cbn in H.
  apply NoDup_app in H as (_ & Hdis & Hfresh). split; [exact Hfresh|].
  intros r Hr Hin. apply (Hdis _ Hin). now apply list_elem_of_fmap_2.
Qed.

(** ** Checkpoints: what is accepted, what is restored *)

Lemma set_of_list_elem_of (l : list string) x : x ∈ set_of_list l <-> x ∈ l.
Proof.
  unfold set_of_list.
  assert (H : forall acc, x ∈ fold_left (fun s y => set_add y s) l acc <-> x ∈ acc \/ x ∈ l).
  { induction l as [|y l IH]; intros acc; cbn [fold_left].
    - rewrite elem_of_nil. tauto.
    - rewrite IH, set_add_elem_of, elem_of_cons. tauto. }
  rewrite H, elem_of_nil. tauto.
Qed.

Lemma set_of_list_is_NoDup (l : list string) : NoDup (set_of_list l).
Proof.
  unfold set_of_list.
  assert (H : forall acc, NoDup acc -> NoDup (fold_left (fun s y => set_add y s) l acc)).
  { induction l as [|y l IH]; intros acc Hacc; cbn [fold_left]; [exact Hacc|].
    apply IH. now apply set_add_NoDup. }
  apply H. constructor.
Qed.

(** The checks a checkpoint dictionary passes when it is accepted. *)
Lemma load_result_cases self fs now out_mtime bucket prefix :
  match (_load_resume_state self fs now out_mtime bucket prefix).1 with
  | Loaded d =>
      exists path,
        resume_state_file self = Some path /\ fs !! path = Some (CkptDict d)
        /\ st_bucket_name d = Some bucket /\ st_prefix d = prefix
        /\ (st_timestamp d = TsAbsent
            \/ exists t, st_timestamp d = TsAt t /\ now - t <= HOURS_24)
        /\ csv_modified (st_csv_mtime d) out_mtime = false
  | Rejected r =>
      (r = NoCheckpointFile
       /\ (resume_state_file self = None
           \/ exists path, resume_state_file self = Some path /\ fs !! path = None))
      \/ exists path file,
           resume_state_file self = Some path /\ fs !! path = Some file
           /\ RejectionCondition bucket prefix now out_mtime file r
  end.
Proof.
  unfold _load_resume_state.
  destruct (resume_state_file self) as [path|] eqn:Hpath; [|left; auto].
  destruct (fs !! path) as [[d|exn]|] eqn:Hfile; cbn [fst].
  3:{ left. split; [reflexivity|]. right. exists path. split; first [assumption | reflexivity]. }
  2:{ right. exists path, (CkptUnreadable exn). do 2 (split; [first [assumption | reflexivity]|]). constructor. }
  destruct (decide (st_bucket_name d = Some bucket)) as [Hb|Hb].
  2:{ rewrite bool_decide_eq_false_2 by assumption. cbn [negb fst].
      right. exists path, (CkptDict d). do 2 (split; [first [assumption | reflexivity]|]). now constructor. }
  rewrite bool_decide_eq_true_2 by assumption. cbn [negb].
  destruct (decide (st_prefix d = prefix)) as [Hp|Hp].
  2:{ rewrite bool_decide_eq_false_2 by assumption. cbn [negb fst].
      right. exists path, (CkptDict d). do 2 (split; [first [assumption | reflexivity]|]). now constructor. }
  rewrite bool_decide_eq_true_2 by assumption. cbn [negb].
  destruct (st_timestamp d) as [| |t] eqn:Hts.
  - destruct (csv_modified (st_csv_mtime d) out_mtime) eqn:Hm; cbn [fst].
    + right. exists path, (CkptDict d). do 2 (split; [first [assumption | reflexivity]|]).
      apply csv_modified_inv in Hm as (m & cur & Hs & Hm0 & Hc & Hd).
      now apply (Cond_csv_modified _ _ _ _ d m cur).
    + exists path. do 4 (split; [first [assumption | reflexivity]|]). split; [left; first [assumption | reflexivity]|first [assumption | reflexivity]].
  - cbn [fst]. right. exists path, (CkptDict d). do 2 (split; [first [assumption | reflexivity]|]). now constructor.
  - destruct (Z.ltb_spec HOURS_24 (now - t)) as [Hold|Hfresh]; cbn [fst].
    + right. exists path, (CkptDict d). do 2 (split; [first [assumption | reflexivity]|]).
      now apply (Cond_too_old _ _ _ _ d t).
    + destruct (csv_modified (st_csv_mtime d) out_mtime) eqn:Hm; cbn [fst].
      * right. exists path, (CkptDict d). do 2 (split; [first [assumption | reflexivity]|]).
        apply csv_modified_inv in Hm as (m & cur & Hs & Hm0 & Hc & Hd).
        now apply (Cond_csv_modified _ _ _ _ d m cur).
      * exists path. do 4 (split; [first [assumption | reflexivity]|]). split; [right; exists t; split; first [assumption | reflexivity]|first [assumption | reflexivity]].
Qed.

(** X8.  [_load_resume_state] accepts a checkpoint exactly when the file is
    a dictionary for which none of the conditions of rejection holds, and
    then returns that dictionary; a rejection is never returned for a
    condition that does not hold (the missing file apart). *)
Theorem load_accepts_exactly :
  forall (self : Exporter) (fs : gmap string CkptFile) (now : Z)
         (out_mtime : option Z) (bucket : string) (prefix : option string),
    (forall d,
        (_load_resume_state self fs now out_mtime bucket prefix).1 = Loaded d
        <-> exists path,
              resume_state_file self = Some path /\ fs !! path = Some (CkptDict d)
              /\ forall reason,
                   ~ RejectionCondition bucket prefix now out_mtime (CkptDict d) reason)
    /\ (forall r,
          (_load_resume_state self fs now out_mtime bucket prefix).1 = Rejected r ->
          r <> NoCheckpointFile ->
          exists path file,
            resume_state_file self = Some path /\ fs !! path = Some file
            /\ RejectionCondition bucket prefix now out_mtime file r).
Proof.
  intros self fs now out_mtime bucket prefix.
  pose proof (load_result_cases self fs now out_mtime bucket prefix) as Hc.
  split.
  - intros d. split.
    + intros Hl. rewrite Hl in Hc.
      destruct Hc as (path & Hp & Hf & Hb & Hpre & Hts & Hm).
      exists path. split; [exact Hp|]. split; [exact Hf|].
      intros reason Hcond. inversion Hcond; subst; try congruence.
      * destruct Hts as [Hts|(t' & Hts & Hfresh)]; [congruence|].
        assert (t = t') by congruence. subst. lia.
      * destruct Hts as [Hts|(t' & Hts & _)]; congruence.
      * match goal with
        | H1 : st_csv_mtime d = Some ?m, H2 : ?m <> 0,
          H3 : MTIME_TOLERANCE < _ |- _ =>
            rewrite H1, (csv_modified_true _ _ H2 H3) in Hm; discriminate
        end.
    + intros (path & Hp & Hf & Hno).
      destruct (_load_resume_state self fs now out_mtime bucket prefix).1 as [d'|r].
      * destruct Hc as (path' & Hp' & Hf' & _). congruence.
      * exfalso. destruct Hc as [(_ & [Hn|(path' & Hp' & Hf')])|(path' & file & Hp' & Hf' & Hcond)];
          try congruence.
        assert (path' = path) by congruence. subst.
        assert (file = CkptDict d) by congruence. subst.
        exact (Hno _ Hcond).
  - intros r Hr Hne. rewrite Hr in Hc.
    destruct Hc as [(-> & _)|H]; [contradiction|exact H].
Qed.

(** X9.  The dedup set and the run times survive a checkpoint: after a
    save and a load that accepts it, the exporter holds the identities it
    held at the save (as a set), the original start time, and a cumulative
    run time grown by the length of the session that saved. *)
Theorem dedup_snapshot_round_trip :
  forall (self self' : Exporter) (fs : gmap string CkptFile)
         (bucket : string) (prefix : option string) (path : string)
         (out_mtime : option Z) (next_key next_version : option string)
         (batch_num total_items t_save t_load : Z),
    resume_state_file self = Some path ->
    resume_state_file self' = Some path ->
    set_order (processed_keys self) ≡ₚ processed_keys self ->
    t_load - t_save <= HOURS_24 ->
    let loaded :=
      _load_resume_state self'
        (_save_resume_state self fs t_save out_mtime WriteOk bucket prefix
           next_key next_version batch_num total_items).2
        t_load out_mtime bucket prefix in
    (exists d, loaded.1 = Loaded d /\ st_batch_num d = batch_num)
    /\ (forall x, x ∈ processed_keys loaded.2 <-> x ∈ processed_keys self)
    /\ NoDup (processed_keys loaded.2)
    /\ original_start_time loaded.2 = Some (default t_save (original_start_time self))
    /\ cumulative_runtime loaded.2 =
       Some (default 0 (cumulative_runtime self) + (t_save - session_start_time self)).
Proof.
  intros self self' fs bucket prefix path out_mtime nk nv bn ti t_save t_load
    Hself Hself' Hperm Hage loaded. subst loaded.
  unfold _save_resume_state, _load_resume_state.
  rewrite Hself, Hself'. cbn [snd]. rewrite lookup_insert_eq.
  cbn [st_bucket_name st_prefix st_timestamp st_csv_mtime].
  rewrite !bool_decide_eq_true_2 by reflexivity. cbn [negb].
  destruct (Z.ltb_spec HOURS_24 (t_load - t_save)) as [Hlt|_]; [lia|].
  rewrite csv_modified_same. cbn [fst snd]. split; [eexists; split; reflexivity|].
  unfold after_load.
  cbn [processed_keys original_start_time cumulative_runtime st_processed_keys
       st_original_start_time st_cumulative_runtime].
  split; [|split; [apply set_of_list_is_NoDup|auto]].
  intros x. rewrite set_of_list_elem_of. now rewrite Hperm.
Qed.

(** X10.  [_cleanup_resume_state] removes the checkpoint of the job and no
    other file; afterwards [_load_resume_state] reports that there is no
    checkpoint.  When the file cannot be removed nothing changes. *)
Theorem cleanup_removes_checkpoint :
  forall (self : Exporter) (fs : gmap string CkptFile) (path : string)
         (now : Z) (out_mtime : option Z) (bucket : string) (prefix : option string),
    resume_state_file self = Some path ->
    (_load_resume_state self (_cleanup_resume_state self fs true)
       now out_mtime bucket prefix).1 = Rejected NoCheckpointFile
    /\ (forall other, other <> path ->
          _cleanup_resume_state self fs true !! other = fs !! other)
    /\ _cleanup_resume_state self fs false = fs.
Proof.
  intros self fs path now out_mtime bucket prefix Hp.
  unfold _cleanup_resume_state, _load_resume_state. rewrite Hp.
  rewrite lookup_delete_eq. split; [reflexivity|]. split; [|reflexivity].
  intros other Hne. now apply lookup_delete_ne.
Qed.

(** X11.  A run without prefix and a run with the empty prefix use the same
    checkpoint file, but neither resumes from the checkpoint of the other:
    the load is refused for a prefix mismatch. *)
Theorem empty_prefix_shares_checkpoint_file :
  forall (self self' : Exporter) (fs : gmap string CkptFile) (bucket output_file : string)
         (out_mtime : option Z) (next_key next_version : option string)
         (batch_num total_items t_save t_load : Z),
    resume_state_file self =
      Some (_generate_resume_state_filename bucket None output_file) ->
    resume_state_file self' =
      Some (_generate_resume_state_filename bucket (Some EmptyString) output_file) ->
    _generate_resume_state_filename bucket None output_file
      = _generate_resume_state_filename bucket (Some EmptyString) output_file
    /\ (_load_resume_state self'
          (_save_resume_state self fs t_save out_mtime WriteOk bucket None
             next_key next_version batch_num total_items).2
          t_load out_mtime bucket (Some EmptyString)).1
       = Rejected (PrefixMismatch None (Some EmptyString)).
Proof.
  intros self self' fs bucket output_file out_mtime nk nv bn ti t_save t_load Hs Hs'.
  split; [reflexivity|].
  unfold _save_resume_state, _load_resume_state. rewrite Hs, Hs'. cbn [snd].
  change (_generate_resume_state_filename bucket (Some EmptyString) output_file)
    with (_generate_resume_state_filename bucket None output_file).
  rewrite lookup_insert_eq. cbn [st_bucket_name st_prefix].
  rewrite bool_decide_eq_true_2 by reflexivity.
  rewrite bool_decide_eq_false_2 by discriminate. reflexivity.
Qed.

(** ** Seeding the dedup set from the output file *)

Lemma read_records_nonempty (records : list (list string)) :
  length (filter (fun cells => cells <> []) (map (map universal_newlines) records))
  = length (filter (fun cells => cells <> []) records).
Proof.
  induction records as [|cells records IH]; [reflexivity|].
  cbn [map]. destruct cells as [|c cells].
  - cbn [map]. rewrite !filter_cons_False by (intros H; now apply H). exact IH.
  - cbn [map]. rewrite !filter_cons_True by discriminate. cbn [length]. now rewrite IH.
Qed.

Lemma fold_set_add_elem_of (l : list string) x : forall acc,
  x ∈ fold_left (fun s y => set_add y s) l acc <-> x ∈ acc \/ x ∈ l.
Proof.
  induction l as [|y l IH]; intros acc; cbn [fold_left].
  - rewrite elem_of_nil. tauto.
  - rewrite IH, set_add_elem_of, elem_of_cons. tauto.
Qed.

Lemma fold_set_add_is_NoDup (l : list string) : forall acc,
  NoDup acc -> NoDup (fold_left (fun s y => set_add y s) l acc).
Proof.
  induction l as [|y l IH]; intros acc Hacc; cbn [fold_left]; [exact Hacc|].
  apply IH. now apply set_add_NoDup.
Qed.

(** X12.  [_check_existing_csv_for_resume] counts the non-empty records
    after the first one (duplicates included) and adds their identities to
    the dedup set: afterwards the set holds what it held and these
    identities, still without duplicates.  Without an output file it
    returns 0 and changes nothing. *)
Theorem check_existing_csv_seeds :
  forall (self : Exporter) (out : option OutFile),
    let lines := from_option o_lines [] out in
    let res := _check_existing_csv_for_resume self out in
    res.1 = Z.of_nat (length (filter (fun cells => cells <> []) (tail lines)))
    /\ (forall x, x ∈ processed_keys res.2
                  <-> x ∈ processed_keys self \/ x ∈ csv_identities lines)
    /\ (NoDup (processed_keys self) -> NoDup (processed_keys res.2))
    /\ (out = None -> res = (0, self)).
Proof.
  intros self [f|]; cbn zeta.
  - cbn [_check_existing_csv_for_resume from_option fst snd processed_keys
         with_processed_keys].
    split; [|split; [|split]].
    + unfold csv_identities, read_records.
      destruct (o_lines f) as [|fields records]; [reflexivity|].
      cbn [tail map]. rewrite length_map. f_equal. apply read_records_nonempty.
    + intros x. apply fold_set_add_elem_of.
    + apply fold_set_add_is_NoDup.
    + discriminate.
  - cbn. split; [reflexivity|]. split; [|auto].
    intros x. rewrite elem_of_nil. tauto.
Qed.

Lemma row_get_absent (name : string) (fields : list string) : forall cells dflt,
  name ∉ fields -> row_get name fields cells dflt = dflt.
Proof.
  induction fields as [|f fields IH]; intros cells dflt Hn; cbn [row_get]; [reflexivity|].
  apply not_elem_of_cons in Hn as [Hne Hn].
  rewrite IH by assumption.
  destruct (String.eqb_spec f name); [congruence|reflexivity].
Qed.

(** A field name without line feed is among the names read only if it was
    written. *)
Lemma read_name_absent (name : string) (fields : list string) :
  no_lf name = true -> name ∉ fields -> name ∉ map universal_newlines fields.
Proof.
  intros Hname Hn Hin. apply Hn.
  apply list_elem_of_fmap in Hin as (f & Hf & Hin).
  symmetry in Hf. apply (universal_newlines_plain _ _ Hname) in Hf. now subst.
Qed.

(** X13.  An output file without the header row gives no usable identity:
    its first record is taken for the field names, and unless that record
    holds the cells [key_name] and [version_id], every other record yields
    the identity ["-"]. *)
Theorem headerless_csv_identities :
  forall (first : list string) (records : list (list string)),
    "key_name" ∉ first ->
    "version_id" ∉ first ->
    csv_identities (first :: records)
    = replicate (length (filter (fun cells => cells <> []) records)) "-".
Proof.
  intros first records Hk Hv. unfold csv_identities, read_records. cbn [map].
  rewrite <- read_records_nonempty.
  induction (filter (fun cells => cells <> []) (map (map universal_newlines) records))
    as [|cells l IH]; [reflexivity|].
  cbn [map length replicate]. rewrite IH. f_equal.
  now rewrite !row_get_absent by (now apply read_name_absent).
Qed.

Lemma quote_plus_kept (key : string) :
  all_chars kept_byte key = true -> Urllib.quote_plus "/" key = key.
Proof.
  intros H. rewrite quote_plus_plus_encode. unfold all_chars in H.
  induction key as [|c key IH]; [reflexivity|].
  cbn [list_ascii_of_string forallb] in H. apply andb_true_iff in H as [Hc Hk].
  cbn [Urllib.plus_encode]. rewrite (plus_byte_kept c Hc), (IH Hk). reflexivity.
Qed.

Lemma kept_byte_no_cr (s : string) : all_chars kept_byte s = true -> no_cr s = true.
Proof.
  unfold no_cr, all_chars. induction s as [|c s IH]; [reflexivity|].
  cbn [list_ascii_of_string forallb]. intros H. apply andb_true_iff in H as [Hc Hs].
  rewrite (IH Hs), andb_true_r.
  destruct (Ascii.eqb c carriage_return) eqn:E; [|reflexivity].
  apply Ascii.eqb_eq in E. subst c. discriminate.
Qed.

(** X14.  Read back from a file that starts with the header row, the rows
    written for a list of records give the identities computed when the
    records were fetched, provided no version id holds a carriage return
    (the file is read with its line ends translated) and either URL
    encoding is off and no key holds one, or the keys hold only bytes the
    encoding keeps. *)
Theorem csv_identities_agree :
  forall (bucket : string) (bops url_encode : bool) (rs : list record),
    (url_encode = false /\ Forall (fun r => no_cr (record_key r) = true) rs)
    \/ Forall (fun r => all_chars kept_byte (record_key r) = true) rs ->
    Forall (fun r => no_cr (record_version_id r) = true) rs ->
    csv_identities
      (fieldnames bops :: map row_cells (map (row_of_record bucket bops url_encode) rs))
    = map record_identity rs.
Proof.
  intros bucket bops url rs H Hv. rewrite csv_identities_rows, map_map.
  assert (Hall : Forall (fun r => encode_key url (record_key r) = record_key r
                                  /\ no_cr (record_key r) = true
                                  /\ no_cr (record_version_id r) = true) rs).
  { apply Forall_forall. intros r Hr.
    rewrite Forall_forall in Hv. split; [|split; [|now apply Hv]].
    - destruct H as [[-> _]|H]; [reflexivity|].
      rewrite Forall_forall in H. unfold encode_key.
      destruct url; [now apply quote_plus_kept, H|reflexivity].
    - destruct H as [[_ H]|H]; rewrite Forall_forall in H;
        [now apply H|now apply kept_byte_no_cr, H]. }
  clear H Hv. induction Hall as [|r rs (Hr & Hk & Hv) Hall IH]; [reflexivity|].
  cbn [map]. rewrite IH. f_equal.
  unfold record_identity. rewrite key_name_row_of_record, Hr.
  rewrite (universal_newlines_no_cr _ Hk).
  replace (version_id (row_of_record bucket bops url r)) with (record_version_id r)
    by (destruct r; reflexivity).
  now rewrite (universal_newlines_no_cr _ Hv).
Qed.

(** ** The writer: what reaches the file *)

Lemma collect_spec (gets : nat) : forall q batch,
  exists b,
    (collect gets q batch).1.1 = batch ++ b
    /\ queue_rows q = b ++ queue_rows (collect gets q batch).1.2.
Proof.
  induction gets as [|gets IH]; intros q batch; cbn [collect].
  - exists []. cbn. now rewrite app_nil_r.
  - destruct (Z.leb 2000 (Z.of_nat (length batch))).
    + exists []. cbn. now rewrite app_nil_r.
    + destruct q as [|[r|] q].
      * exists []. cbn. now rewrite app_nil_r.
      * destruct (IH q (batch ++ [r])) as (b & Hb & Hq).
        exists (r :: b). rewrite Hb, <- app_assoc. split; [reflexivity|].
        cbn [queue_rows omap]. cbn. unfold queue_rows in Hq. now rewrite Hq.
      * exists []. cbn. now rewrite app_nil_r.
Qed.

(** A round collects at most 2000 rows. *)
Lemma collect_bound (gets : nat) : forall q batch,
  Z.of_nat (length batch) <= 2000 ->
  Z.of_nat (length (collect gets q batch).1.1) <= 2000.
Proof.
  induction gets as [|gets IH]; intros q batch Hb; cbn [collect]; [exact Hb|].
  destruct (Z.leb_spec 2000 (Z.of_nat (length batch))); [exact Hb|].
  destruct q as [|[r|] q]; try exact Hb.
  apply IH. rewrite length_app. cbn. lia.
Qed.

Lemma sort_by_key_name_elem_of l r : r ∈ sort_by_key_name l <-> r ∈ l.
Proof. now rewrite sort_by_key_name_Permutation. Qed.

Lemma sort_by_key_name_length l : length (sort_by_key_name l) = length l.
Proof. apply Permutation_length, sort_by_key_name_Permutation. Qed.

Lemma write_rows_ok io rows : (write_rows io rows).2 = true -> (write_rows io rows).1 = rows.
Proof.
  destruct io as [|k|]; unfold write_rows.
  - reflexivity.
  - destruct (Nat.ltb k (length rows)); cbn [fst snd]; [discriminate|reflexivity].
  - cbn [fst snd]. discriminate.
Qed.

Lemma write_rows_subset io rows r : r ∈ (write_rows io rows).1 -> r ∈ rows.
Proof.
  destruct io as [|k|]; unfold write_rows; try (intros H; exact H).
  destruct (Nat.ltb k (length rows)); cbn [fst snd]; [|intros H; exact H].
  apply subseteq_take.
Qed.

Lemma concat_snoc_elem_of {A} (ls : list (list A)) (l : list A) x :
  x ∈ concat (ls ++ [l]) <-> x ∈ concat ls \/ x ∈ l.
Proof. rewrite concat_app, elem_of_app. cbn. now rewrite app_nil_r. Qed.

Lemma writer_iteration_covers rows ev w :
  writer_covers rows w -> writer_covers rows (writer_iteration ev w).
Proof.
  unfold writer_covers, writer_iteration. intros H r.
  destruct (collect_spec (w_take ev) (w_queue w) []) as (b & Hb & Hq).
  destruct (collect _ _ _) as [[batch q] sentinel]. cbn [fst snd] in Hb, Hq.
  cbn [app] in Hb. subst batch. rewrite (H r), Hq, elem_of_app.
  destruct (_ || _)%bool.
  - pose proof (write_rows_ok (w_io ev) (sort_by_key_name (sort_buffer w ++ b))) as Hok.
    pose proof (write_rows_subset (w_io ev) (sort_by_key_name (sort_buffer w ++ b)) r) as Hsub.
    destruct (write_rows _ _) as [written ok]. cbn [fst snd] in Hok, Hsub.
    rewrite sort_by_key_name_elem_of, elem_of_app in Hsub.
    destruct ok; cbn [units sort_buffer w_queue]; rewrite concat_snoc_elem_of.
    + rewrite (Hok eq_refl), sort_by_key_name_elem_of, elem_of_app, elem_of_nil. tauto.
    + rewrite sort_by_key_name_elem_of, elem_of_app. tauto.
  - cbn [units sort_buffer w_queue]. rewrite elem_of_app. tauto.
Qed.

Lemma writer_loop_covers rows evs : forall w,
  writer_covers rows w -> writer_covers rows (writer_loop evs w).1.
Proof.
  induction evs as [|ev evs IH]; intros w H; cbn [writer_loop].
  - destruct (writer_continues w); exact H.
  - destruct (writer_continues w); [|exact H].
    apply IH. now apply writer_iteration_covers.
Qed.

(** When the loop is left the stop flag is set and the queue is empty. *)
Lemma writer_loop_left evs : forall w,
  (writer_loop evs w).2 = true ->
  w_stop (writer_loop evs w).1 = true /\ w_queue (writer_loop evs w).1 = [].
Proof.
  induction evs as [|ev evs IH]; intros w; cbn [writer_loop].
  - destruct (writer_continues w) eqn:E; [discriminate|]. intros _.
    unfold writer_continues in E. cbn.
    destruct (w_stop w), (w_queue w); try discriminate. auto.
  - destruct (writer_continues w) eqn:E; [apply IH|]. intros _.
    unfold writer_continues in E. cbn.
    destruct (w_stop w), (w_queue w); try discriminate. auto.
Qed.

Lemma new_writer_covers q : writer_covers (queue_rows q) (new_writer q).
Proof. intros r. cbn. rewrite !elem_of_nil. tauto. Qed.

(** X15.  A writer thread that returns has written every row that was put
    on the queue, and nothing else, whatever writes failed on the way. *)
Theorem writer_loses_no_row :
  forall (start : WriterStart) (evs : list WriterEvent) (final_io : IoOutcome)
         (q : list (option Row)),
    (csv_writer_worker start evs final_io q).2 = WriterReturned ->
    forall r, r ∈ concat (units (csv_writer_worker start evs final_io q).1)
              <-> r ∈ queue_rows q.
Proof.
  intros start evs final_io q. unfold csv_writer_worker.
  destruct start; try discriminate.
  pose proof (writer_loop_covers _ evs _ (new_writer_covers q)) as Hc.
  pose proof (writer_loop_left evs (new_writer q)) as Hl.
  destruct (writer_loop evs (new_writer q)) as [w [|]]; [|discriminate].
  cbn [fst snd] in Hc, Hl. destruct (Hl eq_refl) as [_ Hq].
  unfold write_remaining. intros Hret r. rewrite (Hc r), Hq.
  destruct (sort_buffer w) as [|r0 buf] eqn:Hbuf.
  - cbn. rewrite !elem_of_nil. tauto.
  - pose proof (write_rows_ok final_io (sort_by_key_name (r0 :: buf))) as Hok.
    destruct (write_rows _ _) as [written ok]. cbn [fst snd] in Hok, Hret |- *.
    destruct ok; [|discriminate]. cbn [units].
    rewrite concat_snoc_elem_of, (Hok eq_refl), sort_by_key_name_elem_of.
    cbn. rewrite elem_of_nil. tauto.
Qed.

Lemma writer_iteration_conserves rows ev w :
  w_io ev = IoOk ->
  writer_conserves rows w -> writer_conserves rows (writer_iteration ev w).
Proof.
  unfold writer_conserves, writer_iteration. intros Hio (Hp & Hn & He).
  destruct (collect_spec (w_take ev) (w_queue w) []) as (b & Hb & Hq).
  destruct (collect _ _ _) as [[batch q] sentinel]. cbn [fst snd] in Hb, Hq.
  cbn [app] in Hb. subst batch. rewrite Hio. cbn [write_rows].
  destruct (_ || _)%bool; cbn [units sort_buffer w_queue w_processed w_errors].
  - rewrite concat_app. cbn [concat]. rewrite !app_nil_r.
    split; [|split; [|exact He]].
    + rewrite Hp, Hq, sort_by_key_name_Permutation. cbn [app].
      now rewrite <- !app_assoc.
    + rewrite length_app, Hn. lia.
  - split; [|auto]. rewrite Hp, Hq. now rewrite <- !app_assoc.
Qed.

Lemma writer_loop_conserves rows evs : forall w,
  all_writes_ok evs ->
  writer_conserves rows w -> writer_conserves rows (writer_loop evs w).1.
Proof.
  induction evs as [|ev evs IH]; intros w Hok H; cbn [writer_loop].
  - destruct (writer_continues w); exact H.
  - destruct (writer_continues w); [|exact H].
    inversion Hok; subst. apply IH; [assumption|].
    now apply writer_iteration_conserves.
Qed.

(** X16.  When no write fails and the thread leaves its loop, it returns,
    and the file holds every row that was put on the queue exactly once;
    the shared counter of written rows grows by their number and no error
    is counted. *)
Theorem writer_writes_each_row_once :
  forall (evs : list WriterEvent) (q : list (option Row)),
    all_writes_ok evs ->
    (csv_writer_worker StartOk evs IoOk q).2 <> WriterLooping ->
    let w := (csv_writer_worker StartOk evs IoOk q).1 in
    (csv_writer_worker StartOk evs IoOk q).2 = WriterReturned
    /\ concat (units w) ≡ₚ queue_rows q
    /\ w_processed w = Z.of_nat (length (queue_rows q))
    /\ w_errors w = 0.
Proof.
  intros evs q Hok. unfold csv_writer_worker.
  assert (H0 : writer_conserves (queue_rows q) (new_writer q)).
  { unfold writer_conserves. cbn. auto. }
  pose proof (writer_loop_conserves _ evs _ Hok H0) as (Hp & Hn & He).
  pose proof (writer_loop_left evs (new_writer q)) as Hl.
  destruct (writer_loop evs (new_writer q)) as [w [|]]; [|intros []; reflexivity].
  cbn [fst snd] in Hp, Hn, He, Hl. destruct (Hl eq_refl) as [_ Hq]. intros _.
  rewrite Hq in Hp. cbn [queue_rows omap] in Hp. rewrite app_nil_r in Hp.
  unfold write_remaining. destruct (sort_buffer w) as [|r0 buf] eqn:Hbuf.
  - cbn [fst snd]. rewrite app_nil_r in Hp.
    split; [reflexivity|]. split; [now symmetry|]. split; [|exact He].
    rewrite Hn. f_equal. now apply Permutation_length.
  - cbn [write_rows fst snd units w_processed w_errors].
    split; [reflexivity|]. rewrite concat_app. cbn [concat]. rewrite app_nil_r.
    split; [|split; [|exact He]].
    + now rewrite sort_by_key_name_Permutation.
    + rewrite Hn, sort_by_key_name_length.
      rewrite (Permutation_length Hp), length_app. lia.
Qed.

Lemma writer_iteration_bounded ev w :
  w_io ev = IoOk -> writer_bounded w -> writer_bounded (writer_iteration ev w).
Proof.
  unfold writer_bounded, writer_iteration. intros Hio (Hb & Hu).
  pose proof (collect_bound (w_take ev) (w_queue w) []) as Hc.
  destruct (collect _ _ _) as [[batch q] sentinel]. cbn [fst snd] in Hc.
  specialize (Hc ltac:(cbn; lia)). rewrite Hio. cbn [write_rows].
  destruct (Z.leb_spec 4000 (Z.of_nat (length (sort_buffer w ++ batch)))) as [Hge|Hlt];
    cbn [orb].
  - cbn [units sort_buffer]. split; [cbn; lia|].
    apply Forall_app; split; [exact Hu|]. constructor; [|constructor].
    rewrite sort_by_key_name_length, length_app. lia.
  - destruct (_ && _)%bool; cbn [units sort_buffer].
    + split; [cbn; lia|]. apply Forall_app; split; [exact Hu|].
      constructor; [|constructor]. rewrite sort_by_key_name_length. lia.
    + split; [exact Hlt|exact Hu].
Qed.

(** X17.  While its writes succeed the writer never keeps 4000 rows or
    more from one round to the next, and no write unit of its loop has 6000
    rows or more. *)
Theorem writer_buffer_bounded :
  forall (evs : list WriterEvent) (q : list (option Row)),
    all_writes_ok evs ->
    writer_bounded (writer_loop evs (new_writer q)).1.
Proof.
  intros evs q Hok.
  assert (H : forall w, writer_bounded w -> writer_bounded (writer_loop evs w).1).
  { induction Hok as [|ev evs Hev Hok IH]; intros w Hw; cbn [writer_loop].
    - destruct (writer_continues w); exact Hw.
    - destruct (writer_continues w); [|exact Hw].
      apply IH. now apply writer_iteration_bounded. }
  apply H. split; [cbn; lia|constructor].
Qed.

Lemma le_ltb_false (a b : string) : String.le a b -> String.ltb b a = false.
Proof.
  unfold String.le, String.leb, String.ltb. rewrite (String.compare_antisym a b).
  destruct (String.compare b a); cbn; intros H; first [reflexivity | contradiction].
Qed.

Lemma insert_by_key_last r acc :
  Forall (fun a => key_le a r) acc -> insert_by_key r acc = acc ++ [r].
Proof.
  induction 1 as [|x acc Hx Hacc IH]; cbn [insert_by_key app]; [reflexivity|].
  rewrite (le_ltb_false _ _ Hx), IH. reflexivity.
Qed.

(** Sorting a sorted buffer changes nothing. *)
Lemma sort_by_key_name_sorted_id l :
  StronglySorted key_le l -> sort_by_key_name l = l.
Proof.
  unfold sort_by_key_name.
  assert (H : forall acc, StronglySorted key_le (acc ++ l) ->
            fold_left (fun acc r => insert_by_key r acc) l acc = acc ++ l).
  { induction l as [|x l IH]; intros acc Hs; cbn [fold_left].
    - now rewrite app_nil_r.
    - rewrite insert_by_key_last.
      + rewrite IH; rewrite <- app_assoc; [reflexivity|exact Hs].
      + apply Forall_forall. intros a Ha.
        eapply (StronglySorted_app_1_elem_of key_le acc (x :: l)); [exact Hs|exact Ha|left]. }
  intros Hs. now apply (H []).
Qed.

(** X18.  After a write that fails at a row of the buffer, the rows written
    before that row are in the file and the whole buffer is kept; when the
    loop is left after such a round, the write of the remaining items puts
    the whole buffer into the file, so that these rows are in the file
    twice. *)
Theorem failed_write_repeats_rows :
  forall (ev : WriterEvent) (evs : list WriterEvent) (w : Writer) (k : nat),
    write_due ev w = true ->
    w_io ev = IoFailsAtRow k ->
    (k < length (sort_buffer w ++ collected ev w))%nat ->
    writer_continues (writer_iteration ev w) = false ->
    let sorted := sort_by_key_name (sort_buffer w ++ collected ev w) in
    units (write_remaining IoOk (writer_loop evs (writer_iteration ev w)).1).1
    = units w ++ [take k sorted; sorted].
Proof.
  intros ev evs w k Hdue Hio Hk Hleft sorted.
  assert (Hloop : writer_loop evs (writer_iteration ev w) = (writer_iteration ev w, true)).
  { destruct evs; cbn [writer_loop]; now rewrite Hleft. }
  rewrite Hloop. cbn [fst]. clear Hloop Hleft.
  unfold write_due, collected in *. subst sorted. unfold writer_iteration.
  destruct (collect _ _ _) as [[batch q] sentinel]. cbn [fst] in *.
  rewrite Hdue, Hio. unfold write_rows at 1.
  rewrite <- (sort_by_key_name_length (sort_buffer w ++ batch)) in Hk.
  apply Nat.ltb_lt in Hk. rewrite Hk.
  unfold write_remaining. cbn [sort_buffer units].
  destruct (sort_by_key_name (sort_buffer w ++ batch)) as [|r0 l] eqn:Hs.
  { apply Nat.ltb_lt in Hk. cbn in Hk. lia. }
  rewrite <- Hs. rewrite (sort_by_key_name_sorted_id (sort_by_key_name _))
    by apply sort_by_key_name_sorted.
  cbn [write_rows fst units]. rewrite <- app_assoc. reflexivity.
Qed.

(** ** The loop: saving, errors and retries *)

Lemma save_same_exporter self fs now out_mtime w bucket prefix nk nv bn ti :
  same_exporter_state self
    (_save_resume_state self fs now out_mtime w bucket prefix nk nv bn ti).1.
Proof.
  unfold same_exporter_state, _save_resume_state.
  destruct (resume_state_file self) eqn:E; [|cbn; auto].
  destruct w; cbn; rewrite ?E; auto.
Qed.

Lemma loop_save_if_fields b cfg ev st nk nv bn ti :
  let st' := loop_save_if b cfg ev st nk nv bn ti in
  same_exporter_state (l_self st) (l_self st')
  /\ l_put st' = l_put st /\ l_requests st' = l_requests st
  /\ l_total_items st' = l_total_items st /\ l_batch_num st' = l_batch_num st
  /\ l_next_key_marker st' = l_next_key_marker st
  /\ l_next_version_marker st' = l_next_version_marker st.
Proof.
  unfold loop_save_if, loop_save. destruct b.
  - pose proof (save_same_exporter (l_self st) (l_fs st) (ev_now ev) (ev_out_mtime ev)
                  (ev_fs_write ev) (cfg_bucket_name cfg) (cfg_prefix cfg) nk nv bn ti) as H.
    destruct (_save_resume_state _ _ _ _ _ _ _ _ _ _ _). cbn in *. auto 10.
  - cbn. unfold same_exporter_state. auto 10.
Qed.

(** What a successful checkpoint write leaves in the file. *)
Lemma loop_save_written cfg ev st nk nv bn ti path :
  resume_state_file (l_self st) = Some path ->
  ev_fs_write ev = WriteOk ->
  exists d,
    l_fs (loop_save cfg ev st nk nv bn ti) !! path = Some (CkptDict d)
    /\ st_next_key_marker d = nk /\ st_next_version_marker d = nv
    /\ st_batch_num d = bn /\ st_total_items d = ti
    /\ st_bucket_name d = Some (cfg_bucket_name cfg) /\ st_prefix d = cfg_prefix cfg
    /\ st_timestamp d = TsAt (ev_now ev)
    /\ st_processed_keys d = set_order (processed_keys (l_self st)).
Proof.
  intros Hp Hw. unfold loop_save, _save_resume_state. rewrite Hp, Hw. cbn [l_fs].
  rewrite lookup_insert_eq. eexists. split; [reflexivity|]. cbn. auto 10.
Qed.

Lemma client_error_message_truthy bucket code :
  PyStr.truthy (Some (client_error_message bucket code)) = true.
Proof.
  unfold client_error_message.
  repeat match goal with |- context [String.eqb ?a ?b] => destruct (String.eqb a b) end;
    reflexivity.
Qed.

Lemma truthy_nonempty (msg : string) : msg <> EmptyString -> PyStr.truthy (Some msg) = true.
Proof. destruct msg; [contradiction|reflexivity]. Qed.

(** The iteration of an error that ends the loop, step by step. *)
Lemma loop_iteration_fatal cfg ev st :
  ev_interrupt ev = None ->
  fatal_error ev ->
  loop_iteration cfg true ev st =
  inr (SysExit1,
       loop_save_if (cfg_enable_resume cfg) cfg ev
         (loop_save_if (cfg_enable_resume cfg) cfg ev
            {| l_self :=
                 with_error_count (with_current_batch_num (l_self st) (l_batch_num st + 1))
                   (error_count (l_self st) + 1);
               l_fs := l_fs st;
               l_next_key_marker := l_next_key_marker st;
               l_next_version_marker := l_next_version_marker st;
               l_batch_num := l_batch_num st + 1;
               l_total_items := l_total_items st;
               l_put := l_put st ++ [];
               l_requests :=
                 l_requests st ++ [list_params (cfg_bucket_name cfg) (cfg_prefix cfg)
                                     (l_next_key_marker st) (l_next_version_marker st)] |}
            (l_next_key_marker st) (l_next_version_marker st)
            (l_batch_num st + 1 - 1) (l_total_items st))
         (l_next_key_marker st) (l_next_version_marker st)
         (l_batch_num st + 1 - 1) (l_total_items st)).
Proof.
  intros Hint Hfatal. unfold loop_iteration. rewrite Hint.
  destruct Hfatal as [(code & Hapi & Hno)|(msg & Hapi & Hmsg)]; rewrite Hapi;
    unfold process_batch, error_result;
    cbn [negb andb error retry_after_refresh l_put].
  - rewrite client_error_message_truthy.
    destruct Hno as [-> | ->]; [reflexivity|].
    now rewrite andb_false_r.
  - rewrite (truthy_nonempty msg Hmsg). reflexivity.
Qed.

(** The iteration of an error the loop does not recover from leaves the
    loop with [sys.exit(1)]: nothing is put on the queue, the error is
    counted, and with resume enabled the checkpoint the loop writes before
    it leaves holds the cursor of the request that failed, the number of the
    last batch that succeeded and the items counted so far.  (The [finally]
    block of [export_versions] then writes the checkpoint again.) *)
Lemma fatal_error_checkpoints_failed_page :
  forall (cfg : Config) (ev : EnvEvent) (st : LoopState) (path : string),
    ev_interrupt ev = None ->
    fatal_error ev ->
    cfg_enable_resume cfg = true ->
    resume_state_file (l_self st) = Some path ->
    ev_fs_write ev = WriteOk ->
    exists st',
      loop_iteration cfg true ev st = inr (SysExit1, st')
      /\ l_put st' = l_put st
      /\ error_count (l_self st') = error_count (l_self st) + 1
      /\ exists d,
           l_fs st' !! path = Some (CkptDict d)
           /\ st_next_key_marker d = l_next_key_marker st
           /\ st_next_version_marker d = l_next_version_marker st
           /\ st_batch_num d = l_batch_num st
           /\ st_total_items d = l_total_items st.
Proof.
  intros cfg ev st path Hint Hfatal Hres Hpath Hw.
  rewrite (loop_iteration_fatal cfg ev st Hint Hfatal), Hres.
  eexists. split; [reflexivity|].
  set (st1 := {| l_self := _; l_fs := l_fs st |}).
  set (st2 := loop_save_if true cfg ev st1 _ _ _ _).
  pose proof (loop_save_if_fields true cfg ev st1 (l_next_key_marker st)
                (l_next_version_marker st) (l_batch_num st + 1 - 1) (l_total_items st))
    as ((Hk1 & Hf1 & He1 & _) & Hp1 & _).
  fold st2 in Hk1, Hf1, He1, Hp1.
  pose proof (loop_save_if_fields true cfg ev st2 (l_next_key_marker st)
                (l_next_version_marker st) (l_batch_num st + 1 - 1) (l_total_items st))
    as ((Hk2 & Hf2 & He2 & _) & Hp2 & _).
  split; [rewrite Hp2, Hp1; subst st1; cbn; apply app_nil_r|].
  split; [rewrite He2, He1; reflexivity|].
  assert (Hpath2 : resume_state_file (l_self st2) = Some path).
  { rewrite Hf1. subst st1. cbn. exact Hpath. }
  destruct (loop_save_written cfg ev st2 (l_next_key_marker st) (l_next_version_marker st)
              (l_batch_num st + 1 - 1) (l_total_items st) path Hpath2 Hw)
    as (d & Hd & Hnk & Hnv & Hbn & Hti & _).
  exists d. unfold loop_save_if. split; [exact Hd|].
  repeat split; try assumption. lia.
Qed.

(** X20.  A token error followed by a successful refresh of the credentials
    sends the loop round again with the same cursor: the next request is
    for the same page, nothing was put on the queue or counted as an item,
    the error is counted and the batch number is one higher. *)
Theorem refreshed_credentials_retry_same_page :
  forall (cfg : Config) (ev : EnvEvent) (st : LoopState) (code : string),
    ev_interrupt ev = None ->
    ev_api ev = ApiClientError code ->
    is_token_error code = true ->
    ev_refresh ev = true ->
    exists st',
      loop_iteration cfg true ev st = inl st'
      /\ l_next_key_marker st' = l_next_key_marker st
      /\ l_next_version_marker st' = l_next_version_marker st
      /\ l_put st' = l_put st
      /\ l_total_items st' = l_total_items st
      /\ l_batch_num st' = l_batch_num st + 1
      /\ error_count (l_self st') = error_count (l_self st) + 1
      /\ processed_keys (l_self st') = processed_keys (l_self st).
Proof.
  intros cfg ev st code Hint Hapi Htok Href.
  unfold loop_iteration. rewrite Hint, Hapi. unfold process_batch, error_result.
  cbn [negb andb error retry_after_refresh l_put].
  rewrite client_error_message_truthy, Htok, Href. cbn [andb].
  eexists. split; [reflexivity|].
  match goal with
  | |- context [loop_save_if ?b cfg ev ?s ?a1 ?a2 ?a3 ?a4] =>
      pose proof (loop_save_if_fields b cfg ev s a1 a2 a3 a4)
        as ((Hk & Hf & He & _) & Hp & _ & Hti & Hbn & Hnk & Hnv)
  end.
  cbv zeta in *. rewrite Hnk, Hnv, Hp, Hti, Hbn, He, Hk. cbn.
  rewrite app_nil_r. auto 10.
Qed.

(** ** The loop on pages: what is put and counted *)

Lemma fresh_records_all (rs : list record) : forall keys,
  NoDup (map record_identity rs) ->
  (forall r, r ∈ rs -> record_identity r ∉ keys) ->
  fresh_records keys rs = rs.
Proof.
  induction rs as [|r rs IH]; intros keys Hnd Hout; cbn [fresh_records]; [reflexivity|].
  cbn [map] in Hnd. apply NoDup_cons in Hnd as [Hr Hnd].
  assert (E : set_mem (key_version (record_key r) (record_version_id r)) keys = false).
  { apply set_mem_false. apply (Hout r). left. }
  rewrite E. f_equal. apply IH; [exact Hnd|].
  intros r' Hr' Hin. rewrite (set_add_fresh _ _ E) in Hin.
  apply elem_of_app in Hin as [Hin|Hin].
  - apply (Hout r'); [now right|exact Hin].
  - apply list_elem_of_singleton in Hin. apply Hr.
    change (key_version (record_key r) (record_version_id r)) with (record_identity r) in Hin.
    rewrite <- Hin. now apply list_elem_of_fmap_2.
Qed.

Lemma py_tail_subseteq {A} (n : Z) (l : list A) : py_tail n l ⊆ l.
Proof. unfold py_tail. apply subseteq_drop. Qed.

(** A trim only removes identities, provided iterating over a set yields
    members of the set. *)
Lemma loop_trim_subset cfg self :
  (forall s x, x ∈ set_order s -> x ∈ s) ->
  (forall x, x ∈ processed_keys (loop_trim cfg self) -> x ∈ processed_keys self)
  /\ resume_state_file (loop_trim cfg self) = resume_state_file self
  /\ error_count (loop_trim cfg self) = error_count self.
Proof.
  intros Hsub. unfold loop_trim. destruct (_ && _)%bool; [|auto].
  cbn. split; [|auto]. intros x Hx. unfold trim_processed_keys in Hx.
  rewrite set_of_list_elem_of in Hx. apply py_tail_subseteq in Hx. now apply Hsub.
Qed.

(** One iteration on a page: the rows put, the items counted and the
    identities the dedup set may hold afterwards. *)
Lemma loop_iteration_page_put cfg alive ev st truncated :
  (forall s x, x ∈ set_order s -> x ∈ s) ->
  is_page truncated ev ->
  alive = true
  \/ Z.of_nat (length (l_put st)
               + length (fresh_records (processed_keys (l_self st)) (event_records ev)))
     <= QUEUE_MAXSIZE ->
  exists st',
    loop_iteration cfg alive ev st
      = (if truncated then inl st' else inr (Completed, st'))
    /\ l_put st' =
       l_put st ++ map (row_of_record (cfg_bucket_name cfg) (cfg_bops_compatible cfg)
                          (cfg_url_encode cfg))
                     (fresh_records (processed_keys (l_self st)) (event_records ev))
    /\ l_total_items st' =
       l_total_items st
       + Z.of_nat (length (fresh_records (processed_keys (l_self st)) (event_records ev)))
    /\ (forall x, x ∈ processed_keys (l_self st') ->
                  x ∈ processed_keys (l_self st)
                  \/ x ∈ map record_identity (event_records ev))
    /\ resume_state_file (l_self st') = resume_state_file (l_self st)
    /\ error_count (l_self st') = error_count (l_self st).
Proof.
  intros Hsub (r & Hapi & Hint & Htr) Hroom. unfold loop_iteration.
  unfold event_records in *.
  rewrite Hint, Hapi, process_batch_ok. rewrite Hapi in Hroom.
  cbn [l_put processed_keys with_processed_keys with_current_batch_num] in *.
  assert (Hgo : (negb alive
                 && (QUEUE_MAXSIZE
                     <? Z.of_nat (length
                          (l_put st
                           ++ map (row_of_record (cfg_bucket_name cfg)
                                     (cfg_bops_compatible cfg) (cfg_url_encode cfg))
                                (fresh_records (processed_keys (l_self st))
                                   (records_of r))))))%bool = false).
  { destruct Hroom as [->|Hroom]; [reflexivity|].
    apply andb_false_iff. right. apply Z.ltb_ge.
    rewrite length_app, length_map. exact Hroom. }
  rewrite Hgo. clear Hgo Hroom.
  cbn [negb andb PyStr.truthy error is_truncated next_key_marker next_version_marker
       batch_count processed_keys with_processed_keys with_current_batch_num].
  rewrite Htr.
  match goal with
  | |- context [loop_save_if ?b cfg ev ?s ?a1 ?a2 ?a3 ?a4] =>
      pose proof (loop_save_if_fields b cfg ev s a1 a2 a3 a4)
        as ((Hk & Hf & He & _) & Hp & _ & Hti & _);
      set (st2 := loop_save_if b cfg ev s a1 a2 a3 a4) in *
  end.
  cbv zeta in *. cbn [l_self l_put l_total_items processed_keys resume_state_file
                      error_count with_processed_keys with_current_batch_num] in *.
  destruct (loop_trim_subset cfg (l_self st2) Hsub) as (Htk & Htf & Hte).
  assert (Hmem : forall x, x ∈ processed_keys (loop_trim cfg (l_self st2)) ->
            x ∈ processed_keys (l_self st) \/ x ∈ map record_identity (records_of r)).
  { intros x Hx. apply Htk in Hx. rewrite Hk in Hx.
    apply elem_of_app in Hx as [Hx|Hx]; [now left|right].
    apply list_elem_of_fmap in Hx as (r' & -> & Hr').
    apply list_elem_of_fmap_2. eapply elem_of_sublist; [exact Hr'|].
    apply fresh_records_sublist. }
  destruct truncated; eexists; (split; [reflexivity|]);
    cbn [l_self l_put l_total_items]; rewrite ?Hp, ?Htf, ?Hte, ?Hf, ?He;
    repeat split; auto.
Qed.

(** X21.  Provided the rows put can leave the queue (the writer thread is
    running, or the queue holds all of them: ten at most), a listing whose
    pages are answered without error, all truncated but the last, and whose
    records all have identities that differ from one another and from those
    in the dedup set, ends after one request per page and puts one row for
    every record, in the order of the listing, and counts them all; trims
    of the dedup set on the way change nothing to that. *)
Theorem listing_puts_every_record :
  forall (cfg : Config) (alive : bool) (evs : list EnvEvent) (ev_last : EnvEvent)
         (rest : list EnvEvent) (st : LoopState),
    (forall s x, x ∈ set_order s -> x ∈ s) ->
    Forall (is_page true) evs ->
    is_page false ev_last ->
    NoDup (map record_identity (concat (map event_records (evs ++ [ev_last])))) ->
    (forall r, r ∈ concat (map event_records (evs ++ [ev_last])) ->
               record_identity r ∉ processed_keys (l_self st)) ->
    alive = true
    \/ Z.of_nat (length (l_put st)
                 + length (concat (map event_records (evs ++ [ev_last]))))
       <= QUEUE_MAXSIZE ->
    exists st',
      listing_loop cfg alive (evs ++ ev_last :: rest) st
        = (Completed, st', S (length evs))
      /\ l_put st' =
         l_put st ++ map (row_of_record (cfg_bucket_name cfg) (cfg_bops_compatible cfg)
                            (cfg_url_encode cfg))
                       (concat (map event_records (evs ++ [ev_last])))
      /\ l_total_items st' =
         l_total_items st
         + Z.of_nat (length (concat (map event_records (evs ++ [ev_last])))).
Proof.
  intros cfg alive evs ev_last rest st Hsub Hevs Hlast. revert st.
  induction Hevs as [|ev evs Hev Hevs IH]; intros st Hnd Hout Hroom.
  - cbn [app map concat] in *. rewrite app_nil_r in *.
    cbn [listing_loop length].
    destruct (loop_iteration_page_put cfg alive ev_last st false Hsub Hlast)
      as (st' & Hit & Hput & Htot & _).
    { now rewrite (fresh_records_all _ _ Hnd Hout). }
    rewrite Hit. rewrite (fresh_records_all _ _ Hnd Hout) in Hput, Htot.
    exists st'. auto.
  - cbn [app map concat] in *. cbn [listing_loop length].
    rewrite map_app in Hnd.
    apply NoDup_app in Hnd as (Hnd1 & Hdis & Hnd2).
    assert (Hfresh : fresh_records (processed_keys (l_self st)) (event_records ev)
                     = event_records ev).
    { apply (fresh_records_all _ _ Hnd1). intros r Hr. apply Hout, elem_of_app. now left. }
    destruct (loop_iteration_page_put cfg alive ev st true Hsub Hev)
      as (st1 & Hit & Hput & Htot & Hmem & _).
    { rewrite Hfresh. destruct Hroom as [?|Hroom]; [now left|right].
      rewrite length_app in Hroom. lia. }
    rewrite Hit. rewrite Hfresh in Hput, Htot.
    destruct (IH st1 Hnd2) as (st' & Hloop & Hput' & Htot').
    { intros r Hr Hin. apply Hmem in Hin as [Hin|Hin].
      - apply (Hout r); [apply elem_of_app; now right|exact Hin].
      - apply (Hdis _ Hin). now apply list_elem_of_fmap_2. }
    { destruct Hroom as [?|Hroom]; [now left|right].
      rewrite Hput, length_app, length_map. rewrite length_app in Hroom. lia. }
    rewrite Hloop. exists st'. split; [reflexivity|].
    rewrite Hput', Hput, Htot', Htot.
    split; [rewrite <- app_assoc, <- map_app; reflexivity|rewrite length_app; lia].
Qed.

(** ** The loop and the checkpoint file *)

Lemma process_batch_state_file self api bucket prefix km vm bops url :
  resume_state_file (process_batch self api bucket prefix km vm bops url).1.1.2
  = resume_state_file self.
Proof.
  unfold process_batch. destruct api; [|reflexivity..].
  destruct (process_records _ _ _ _ _) as [[keys put] count]. reflexivity.
Qed.

Lemma interrupted_batch_state_file cfg self api done marked :
  resume_state_file (interrupted_batch cfg self api done marked).1 = resume_state_file self.
Proof.
  unfold interrupted_batch. destruct api; [|reflexivity..].
  destruct (process_records _ _ _ _ _) as [[keys put] count]. reflexivity.
Qed.

Lemma loop_trim_state_file cfg self :
  resume_state_file (loop_trim cfg self) = resume_state_file self.
Proof. unfold loop_trim. destruct (_ && _)%bool; reflexivity. Qed.

Lemma loop_save_if_state_file b cfg ev st nk nv bn ti :
  resume_state_file (l_self (loop_save_if b cfg ev st nk nv bn ti))
  = resume_state_file (l_self st).
Proof. apply (loop_save_if_fields b cfg ev st nk nv bn ti). Qed.

(** The path of the checkpoint file never changes in the loop. *)
Lemma loop_iteration_state_file cfg alive ev st :
  match loop_iteration cfg alive ev st with
  | inl st' => resume_state_file (l_self st') = resume_state_file (l_self st)
  | inr (_, st') => resume_state_file (l_self st') = resume_state_file (l_self st)
  end.
Proof.
  unfold loop_iteration. destruct (ev_interrupt ev) as [[done marked]|].
  - pose proof (interrupted_batch_state_file cfg
                  (with_current_batch_num (l_self st) (l_batch_num st + 1))
                  (ev_api ev) done marked) as Hi.
    destruct (interrupted_batch _ _ _ _ _) as [self1 put]. cbn [fst] in Hi.
    rewrite loop_save_if_state_file. exact Hi.
  - pose proof (process_batch_state_file
                  (with_current_batch_num (l_self st) (l_batch_num st + 1))
                  (ev_api ev) (cfg_bucket_name cfg) (cfg_prefix cfg)
                  (l_next_key_marker st) (l_next_version_marker st)
                  (cfg_bops_compatible cfg) (cfg_url_encode cfg)) as Hb.
    destruct (process_batch _ _ _ _ _ _ _ _) as [[[params self1] put] result].
    cbn [fst snd] in Hb.
    repeat match goal with
           | |- context [if ?b then _ else _] => destruct b
           end;
      cbn [l_self]; rewrite ?loop_trim_state_file, ?loop_save_if_state_file; exact Hb.
Qed.

Lemma listing_loop_state_file cfg alive evs : forall st,
  resume_state_file (l_self (listing_loop cfg alive evs st).1.2)
  = resume_state_file (l_self st).
Proof.
  induction evs as [|ev evs IH]; intros st; cbn [listing_loop]; [reflexivity|].
  pose proof (loop_iteration_state_file cfg alive ev st) as H.
  destruct (loop_iteration cfg alive ev st) as [st1|[how st1]]; [|exact H].
  specialize (IH st1). destruct (listing_loop cfg alive evs st1) as [[how st2] n].
  cbn [fst snd] in *. now rewrite IH.
Qed.

Lemma loop_iteration_noresume cfg alive ev st :
  cfg_enable_resume cfg = false ->
  match loop_iteration cfg alive ev st with
  | inl st' => l_fs st' = l_fs st
  | inr (_, st') => l_fs st' = l_fs st
  end.
Proof.
  intros H. unfold loop_iteration, loop_save_if. rewrite H. cbn [andb].
  destruct (ev_interrupt ev) as [[done marked]|].
  - destruct (interrupted_batch _ _ _ _ _). reflexivity.
  - destruct (process_batch _ _ _ _ _ _ _ _) as [[[params self1] put] result].
    repeat match goal with
           | |- context [if ?b then _ else _] => destruct b
           end; reflexivity.
Qed.

Lemma listing_loop_noresume cfg alive evs : forall st,
  cfg_enable_resume cfg = false ->
  l_fs (listing_loop cfg alive evs st).1.2 = l_fs st.
Proof.
  induction evs as [|ev evs IH]; intros st H; cbn [listing_loop]; [reflexivity|].
  pose proof (loop_iteration_noresume cfg alive ev st H) as H1.
  destruct (loop_iteration cfg alive ev st) as [st1|[how st1]]; [|exact H1].
  specialize (IH st1 H). destruct (listing_loop cfg alive evs st1) as [[how st2] n].
  cbn [fst snd] in *. now rewrite IH.
Qed.

(** X22.  With resume disabled a run never creates, changes or removes a
    checkpoint file, however it ends. *)
Theorem noresume_leaves_checkpoints_alone :
  forall (cfg : Config) (env : StartEnv) (evs : list EnvEvent) (wenv : WriterEnv)
         (fin : FinalEnv) (self : Exporter) (fs : gmap string CkptFile),
    cfg_enable_resume cfg = false ->
    r_fs (export_versions cfg env evs wenv fin self fs) = fs.
Proof.
  intros cfg env evs wenv fin self fs H. unfold export_versions, resume_setup.
  rewrite H. cbn [andb].
  destruct (negb _); [reflexivity|].
  match goal with
  | |- context [listing_loop cfg ?a evs ?s] =>
      pose proof (listing_loop_noresume cfg a evs s H) as Hl;
      destruct (listing_loop cfg a evs s) as [[how st] n]
  end.
  cbn [fst snd l_fs] in Hl.
  destruct (csv_writer_worker _ _ _ _) as [w wend].
  repeat match goal with
         | |- context [if ?b then _ else _] => destruct b
         | |- context [match ?x with _ => _ end] => destruct x
         end; cbn [r_fs]; exact Hl.
Qed.

(** The iteration that completes the listing removes the checkpoint. *)
Lemma loop_iteration_completed cfg alive ev st st' path :
  loop_iteration cfg alive ev st = inr (Completed, st') ->
  cfg_enable_resume cfg = true ->
  resume_state_file (l_self st) = Some path ->
  ev_removable ev = true ->
  l_fs st' !! path = None.
Proof.
  unfold loop_iteration. intros Hit Hres Hpath Hrem.
  destruct (ev_interrupt ev) as [[done marked]|].
  { destruct (interrupted_batch _ _ _ _ _). discriminate. }
  pose proof (process_batch_state_file
                (with_current_batch_num (l_self st) (l_batch_num st + 1))
                (ev_api ev) (cfg_bucket_name cfg) (cfg_prefix cfg)
                (l_next_key_marker st) (l_next_version_marker st)
                (cfg_bops_compatible cfg) (cfg_url_encode cfg)) as Hb.
  destruct (process_batch _ _ _ _ _ _ _ _) as [[[params self1] put] result].
  cbn [fst snd] in Hb.
  destruct (_ && _)%bool; [discriminate|].
  destruct (PyStr.truthy (error result)).
  { destruct (_ && _)%bool; discriminate. }
  destruct (is_truncated result); [discriminate|].
  injection Hit as <-. cbn [l_fs].
  match goal with
  | |- context [_cleanup_resume_state ?s] =>
      assert (Hs : resume_state_file s = Some path)
        by (rewrite loop_trim_state_file, loop_save_if_state_file; cbn [l_self];
            rewrite Hb; exact Hpath);
      set (self3 := s) in *
  end.
  unfold has_state_file, _cleanup_resume_state. rewrite Hs, Hres, Hrem. cbn [andb].
  apply lookup_delete_eq.
Qed.

Lemma listing_loop_completed cfg alive path evs : forall st st' n,
  listing_loop cfg alive evs st = (Completed, st', n) ->
  cfg_enable_resume cfg = true ->
  resume_state_file (l_self st) = Some path ->
  Forall (fun ev => ev_removable ev = true) evs ->
  l_fs st' !! path = None /\ resume_state_file (l_self st') = Some path.
Proof.
  induction evs as [|ev evs IH]; intros st st' n Hl Hres Hpath Hrem;
    cbn [listing_loop] in Hl; [discriminate|].
  inversion Hrem as [|? ? Hev Hevs]; subst.
  pose proof (loop_iteration_state_file cfg alive ev st) as Hf.
  destruct (loop_iteration cfg alive ev st) as [st1|[how st1]] eqn:Hit.
  - destruct (listing_loop cfg alive evs st1) as [[how st2] m] eqn:Hl1.
    injection Hl as -> -> _. apply (IH st1 st' m Hl1 Hres); [congruence|exact Hevs].
  - injection Hl as -> -> _. split; [|congruence].
    now apply (loop_iteration_completed cfg alive ev st st' path Hit).
Qed.

Lemma load_state_file self fs now out_mtime bucket prefix :
  resume_state_file (_load_resume_state self fs now out_mtime bucket prefix).2
  = resume_state_file self.
Proof.
  unfold _load_resume_state.
  destruct (resume_state_file self) as [path|] eqn:Hp; [|exact Hp].
  repeat match goal with
         | |- context [match ?x with _ => _ end] => destruct x
         end; exact Hp.
Qed.

Lemma resume_setup_state_file cfg env self fs self1 fs1 rs :
  cfg_enable_resume cfg = true ->
  resume_setup cfg env self fs = inl (self1, fs1, rs) ->
  resume_state_file self1 = Some (state_path cfg).
Proof.
  unfold resume_setup, state_path. intros -> H.
  destruct (s_out env) as [out|].
  - match type of H with
    | context [_load_resume_state ?e ?f ?n ?m ?b ?p] =>
        pose proof (load_state_file e f n m b p) as Hl;
        destruct (_load_resume_state e f n m b p) as [[d|r] self2]
    end; cbn [snd resume_state_file with_resume_state_file] in Hl.
    + injection H as <- _ _. exact Hl.
    + destruct (PyStr.lower_starts_y _); [|discriminate].
      injection H as <- _ _. exact Hl.
  - injection H as <- _ _. reflexivity.
Qed.

(** X23.  A run with resume enabled that completes the listing and exits
    with status 0 leaves no checkpoint when no error was counted; when an
    error was counted on the way (a listing error that was retried, a
    failed write) it leaves a checkpoint of the job behind although it
    completed. *)
Theorem completed_run_and_checkpoint :
  forall (cfg : Config) (env : StartEnv) (evs : list EnvEvent) (wenv : WriterEnv)
         (fin : FinalEnv) (self : Exporter) (fs : gmap string CkptFile),
    cfg_enable_resume cfg = true ->
    Forall (fun ev => ev_removable ev = true) evs ->
    f_fs_write fin = WriteOk ->
    r_exit (export_versions cfg env evs wenv fin self fs) = ExitCode 0 ->
    r_iterations (export_versions cfg env evs wenv fin self fs) <> O ->
    (error_count (r_self (export_versions cfg env evs wenv fin self fs)) = 0 ->
     r_fs (export_versions cfg env evs wenv fin self fs) !! state_path cfg = None)
    /\ (0 < error_count (r_self (export_versions cfg env evs wenv fin self fs)) ->
        exists d,
          r_fs (export_versions cfg env evs wenv fin self fs) !! state_path cfg
            = Some (CkptDict d)
          /\ st_bucket_name d = Some (cfg_bucket_name cfg)
          /\ st_prefix d = cfg_prefix cfg).
Proof.
  intros cfg env evs wenv fin self fs Hres Hrem Hfw.
  unfold export_versions.
  destruct (negb _); [cbn; discriminate|].
  destruct (resume_setup cfg env self fs) as [[[self1 fs1] rs]|self1] eqn:Hsetup;
    [|cbn; congruence].
  pose proof (resume_setup_state_file cfg env self fs self1 fs1 rs Hres Hsetup) as Hp1.
  assert (Hp2 : resume_state_file
                  (if match rs with Some _ => true | None => false end
                   then _check_existing_csv_for_resume self1 (s_out env)
                   else (0, self1)).2 = Some (state_path cfg)).
  { destruct rs; [|exact Hp1]. unfold _check_existing_csv_for_resume.
    destruct (s_out env); exact Hp1. }
  destruct (if match rs with Some _ => true | None => false end
            then _check_existing_csv_for_resume self1 (s_out env)
            else (0, self1)) as [cnt self2].
  cbn [snd] in Hp2.
  match goal with
  | |- context [listing_loop cfg ?a evs ?s] =>
      assert (Hp0 : resume_state_file (l_self s) = Some (state_path cfg))
        by (destruct rs; exact Hp2);
      pose proof (fun st' n H => listing_loop_completed cfg a (state_path cfg) evs s st' n
                                   H Hres Hp0 Hrem) as Hl;
      destruct (listing_loop cfg a evs s) as [[how st] n]
  end.
  destruct (csv_writer_worker _ _ _ _) as [w wend].
  destruct (match how with Blocked => true | _ => _ end); [cbn; discriminate|].
  destruct how;
    try (destruct wend; try (cbn; discriminate);
         match goal with
         | |- context [match ?p with pair _ _ => _ end] => destruct p
         end; cbn; discriminate).
  destruct (Hl st n eq_refl) as [Hnone Hp]. clear Hl.
  rewrite Hres. cbn [andb].
  destruct wend; [| |cbn; discriminate].
  all: unfold _save_resume_state;
    cbn [resume_state_file merge_counters error_count]; rewrite Hp, Hfw;
    destruct (Z.ltb_spec 0 (error_count (l_self st) + w_errors w)) as [Hpos|Hzero];
    cbn [r_exit r_iterations r_self r_fs error_count with_checkpoint_printed
         merge_counters];
    intros _ _; (split; [intros He|intros He]);
    try lia; try exact Hnone;
    rewrite lookup_insert_eq; eexists; split; [reflexivity|]; cbn; auto.
Qed.

(** X24.  An existing output file is never overwritten or appended to
    behind the user's back: when the job has no checkpoint, or one that
    calls for a rejection, and the answer to the prompt does not begin with
    [y], the run exits with status 0 without sending a request and leaves
    the checkpoint files and the output file as they are. *)
Theorem declined_overwrite_changes_nothing :
  forall (cfg : Config) (env : StartEnv) (evs : list EnvEvent) (wenv : WriterEnv)
         (fin : FinalEnv) (self : Exporter) (fs : gmap string CkptFile) (out : OutFile),
    cfg_enable_resume cfg = true ->
    _validate_bucket_name (cfg_bucket_name cfg) = true ->
    s_path_ok env = true ->
    s_out env = Some out ->
    (fs !! state_path cfg = None
     \/ exists file reason,
          fs !! state_path cfg = Some file
          /\ RejectionCondition (cfg_bucket_name cfg) (cfg_prefix cfg) (s_now env)
               (Some (o_mtime out)) file reason) ->
    PyStr.lower_starts_y (s_answer env) = false ->
    let run := export_versions cfg env evs wenv fin self fs in
    r_exit run = ExitCode 0 /\ r_fs run = fs /\ r_out run = Some out
    /\ r_requests run = [] /\ r_put run = [].
Proof.
  intros cfg env evs wenv fin self fs out Hres Hb Hp Hout Hck Hans. cbv zeta.
  unfold export_versions, resume_setup. rewrite Hb, Hp, Hres, Hout, Hans. cbn [negb andb].
  fold (state_path cfg).
  assert (Hrej : exists r,
            (_load_resume_state
               (with_resume_state_file self (s_now env) (Some (state_path cfg))) fs
               (s_now env) (Some (o_mtime out)) (cfg_bucket_name cfg) (cfg_prefix cfg)).1
            = Rejected r).
  { destruct Hck as [Hnone|(file & reason & Hfile & Hcond)].
    - unfold _load_resume_state. cbn [resume_state_file with_resume_state_file].
      rewrite Hnone. eauto.
    - destruct (load_rejects_first
                  (with_resume_state_file self (s_now env) (Some (state_path cfg))) fs
                  (s_now env) (Some (o_mtime out)) (cfg_bucket_name cfg) (cfg_prefix cfg)
                  (state_path cfg) file reason eq_refl Hfile Hcond) as (r & Hr & _).
      eauto. }
  destruct Hrej as (r & Hr).
  destruct (_load_resume_state _ _ _ _ _ _) as [res self2]. cbn [fst] in Hr. subst res.
  cbn. auto.
Qed.

Lemma loop_trim_subset_fields cfg self :
  resume_state_file (loop_trim cfg self) = resume_state_file self
  /\ error_count (loop_trim cfg self) = error_count self.
Proof. unfold loop_trim. destruct (_ && _)%bool; auto. Qed.

(** X25.  An exception whose message is empty is not seen as an error by
    the loop: the listing ends as if the last page had been reached, with
    nothing put or counted for the batch, though the error counter went
    up. *)
Theorem empty_error_message_ends_listing :
  forall (cfg : Config) (ev : EnvEvent) (st : LoopState),
    ev_interrupt ev = None ->
    ev_api ev = ApiException EmptyString ->
    exists st',
      loop_iteration cfg true ev st = inr (Completed, st')
      /\ l_put st' = l_put st
      /\ l_total_items st' = l_total_items st
      /\ error_count (l_self st') = error_count (l_self st) + 1.
Proof.
  intros cfg ev st Hint Hapi. unfold loop_iteration. rewrite Hint, Hapi.
  unfold process_batch, error_result.
  cbn [negb andb PyStr.truthy error is_truncated batch_count next_key_marker
       next_version_marker].
  eexists. split; [reflexivity|].
  match goal with
  | |- context [loop_save_if ?b cfg ev ?s ?a1 ?a2 ?a3 ?a4] =>
      pose proof (loop_save_if_fields b cfg ev s a1 a2 a3 a4)
        as ((Hk & Hf & He & _) & Hp & _);
      set (st2 := loop_save_if b cfg ev s a1 a2 a3 a4) in *
  end.
  cbv zeta in *. cbn [l_put l_total_items l_self].
  destruct (loop_trim_subset_fields cfg (l_self st2)) as (_ & Hte).
  rewrite Hp, Hte, He. cbn. rewrite app_nil_r. split; [reflexivity|]. split; [lia|reflexivity].
Qed.

(* ------------------------------------------------------------------- *)
(** ** Credential refresh *)

Lemma refresh_attempts_true outcome remaining : forall attempt,
  (refresh_attempts outcome attempt remaining).1 = true <->
  exists k, (k < remaining)%nat /\ outcome (attempt + k)%nat = AttemptVerified
            /\ forall j, (j < k)%nat -> retried (outcome (attempt + j)%nat) = true.
Proof.
  assert (Hnext : forall a n b,
    retried (outcome a) = true ->
    (b = true <->
     exists k, (k < n)%nat /\ outcome (S a + k)%nat = AttemptVerified
               /\ forall j, (j < k)%nat -> retried (outcome (S a + j)%nat) = true) ->
    (b = true <->
     exists k, (k < S n)%nat /\ outcome (a + k)%nat = AttemptVerified
               /\ forall j, (j < k)%nat -> retried (outcome (a + j)%nat) = true)).
  { intros a n b Hr ->. split.
    - intros (k & Hk & Hv & Hj). exists (S k). split; [lia|]. split.
      + rewrite <- Hv. f_equal. lia.
      + intros [|j] Hlt; [now rewrite Nat.add_0_r|].
        replace (a + S j)%nat with (S a + j)%nat by lia. apply Hj. lia.
    - intros ([|k] & Hk & Hv & Hj).
      + rewrite Nat.add_0_r in Hv. rewrite Hv in Hr. discriminate.
      + exists k. split; [lia|]. split.
        * rewrite <- Hv. f_equal. lia.
        * intros j Hlt. replace (S a + j)%nat with (a + S j)%nat by lia. apply Hj. lia. }
  induction remaining as [|n IH]; intros a; cbn [refresh_attempts].
  - split; [discriminate|]. intros (k & Hk & _). lia.
  - destruct (outcome a) as [|code|] eqn:Ho.
    + split; [intros _|reflexivity]. exists O. rewrite Nat.add_0_r.
      split; [lia|]. split; [exact Ho|]. intros j Hj. lia.
    + destruct (is_token_error code) eqn:Ht.
      * specialize (IH (S a)).
        destruct (refresh_attempts outcome (S a) n) as [b waits]. cbn [fst] in *.
        apply Hnext; [rewrite Ho; exact Ht|exact IH].
      * split; [discriminate|]. intros ([|k] & Hk & Hv & Hj).
        -- rewrite Nat.add_0_r in Hv. congruence.
        -- specialize (Hj O ltac:(lia)). rewrite Nat.add_0_r, Ho in Hj. cbn in Hj. congruence.
    + specialize (IH (S a)).
      destruct (refresh_attempts outcome (S a) n) as [b waits]. cbn [fst] in *.
      apply Hnext; [rewrite Ho; reflexivity|exact IH].
Qed.

(** X26.  [_refresh_credentials_and_retry] returns [True] exactly when one
    of the first [max_retries] attempts verifies the credentials and every
    attempt before it failed with an expired or invalid token or with an
    exception that is not a [ClientError]; a [ClientError] of another kind
    ends the attempts at once. *)
Theorem refresh_succeeds_iff :
  forall (outcome : nat -> AttemptOutcome) (max_retries : nat),
    (_refresh_credentials_and_retry outcome max_retries).1 = true <->
    exists k, (k < max_retries)%nat /\ outcome k = AttemptVerified
              /\ forall j, (j < k)%nat -> retried (outcome j) = true.
Proof.
  intros outcome max_retries. unfold _refresh_credentials_and_retry.
  apply (refresh_attempts_true outcome max_retries O).
Qed.

Lemma sum_list_powers n : forall a,
  sum_list (map (fun i => 2 ^ Z.of_nat i) (seq a n))
  = 2 ^ Z.of_nat (a + n) - 2 ^ Z.of_nat a.
Proof.
  induction n as [|n IH]; intros a; cbn [seq map sum_list foldr].
  - rewrite Nat.add_0_r. lia.
  - fold (sum_list (map (fun i => 2 ^ Z.of_nat i) (seq (S a) n))). rewrite IH.
    replace (Z.of_nat (S a)) with (Z.of_nat a + 1) by lia.
    replace (Z.of_nat (S a + n)) with (Z.of_nat (a + S n)) by lia.
    rewrite Z.pow_add_r by lia. lia.
Qed.

Lemma refresh_attempts_waits outcome remaining : forall attempt,
  exists n, (n <= remaining)%nat
            /\ (refresh_attempts outcome attempt remaining).2
               = map (fun i => 2 ^ Z.of_nat i) (seq attempt n)
            /\ ((forall j, (j < remaining)%nat -> retried (outcome (attempt + j)%nat) = true)
                -> n = remaining).
Proof.
  induction remaining as [|r IH]; intros a; cbn [refresh_attempts].
  - exists O. split; [lia|]. split; reflexivity.
  - assert (Hone : exists n, (n <= S r)%nat
              /\ [2 ^ Z.of_nat a] = map (fun i => 2 ^ Z.of_nat i) (seq a n)
              /\ ((forall j, (j < S r)%nat -> retried (outcome (a + j)%nat) = true)
                  -> retried (outcome a) = false -> n = S r)).
    { exists 1%nat. split; [lia|]. split; [reflexivity|].
      intros Hall Hno. specialize (Hall O ltac:(lia)). rewrite Nat.add_0_r in Hall.
      congruence. }
    assert (Hmore : retried (outcome a) = true ->
              exists n, (n <= S r)%nat
              /\ 2 ^ Z.of_nat a :: (refresh_attempts outcome (S a) r).2
                 = map (fun i => 2 ^ Z.of_nat i) (seq a n)
              /\ ((forall j, (j < S r)%nat -> retried (outcome (a + j)%nat) = true)
                  -> n = S r)).
    { intros _. destruct (IH (S a)) as (n & Hn & Hw & Hall). exists (S n).
      split; [lia|]. split; [cbn [seq map]; now rewrite Hw|].
      intros H. f_equal. apply Hall. intros j Hj.
      replace (S a + j)%nat with (a + S j)%nat by lia. apply H. lia. }
    destruct (outcome a) as [|code|] eqn:Ho; cbn [retried] in *.
    + destruct Hone as (n & Hn & Hw & Hall). exists n. cbn [snd]. auto.
    + destruct (is_token_error code) eqn:Ht.
      * destruct (Hmore eq_refl) as (n & Hn & Hw & Hall).
        destruct (refresh_attempts outcome (S a) r). exists n. cbn [snd] in *. auto.
      * destruct Hone as (n & Hn & Hw & Hall). exists n. cbn [snd]. auto.
    + destruct (Hmore eq_refl) as (n & Hn & Hw & Hall).
      destruct (refresh_attempts outcome (S a) r). exists n. cbn [snd] in *. auto.
Qed.

(** X27.  Before its attempts [_refresh_credentials_and_retry] sleeps 1, 2,
    4, ... seconds, one wait for each attempt made and never more than
    [max_retries] of them; the waits add up to one second less than the
    next power of two, and all [max_retries] attempts are made when each
    one fails in a way that is retried. *)
Theorem refresh_waits :
  forall (outcome : nat -> AttemptOutcome) (max_retries : nat),
    exists n,
      (n <= max_retries)%nat
      /\ (_refresh_credentials_and_retry outcome max_retries).2
         = map (fun i => 2 ^ Z.of_nat i) (seq 0 n)
      /\ sum_list (_refresh_credentials_and_retry outcome max_retries).2
         = 2 ^ Z.of_nat n - 1
      /\ ((forall j, (j < max_retries)%nat -> retried (outcome j) = true)
          -> n = max_retries).
Proof.
  intros outcome max_retries. unfold _refresh_credentials_and_retry.
  destruct (refresh_attempts_waits outcome max_retries O) as (n & Hn & Hw & Hall).
  exists n. split; [exact Hn|]. split; [exact Hw|]. split; [|exact Hall].
  rewrite Hw, sum_list_powers. cbn [Nat.add Z.of_nat]. lia.
Qed.

(* ------------------------------------------------------------------- *)
(** ** Construction and [main] *)

(** X28.  A region given without a profile is never honoured: the
    constructor reads the name [re] before it is bound, and [main] exits
    with status 1 before [export_versions] is called, whatever the
    credentials and the other arguments are. *)
Theorem region_without_profile_exits :
  forall (args : Args) (client : ClientOutcome) (env : StartEnv) (evs : list EnvEvent)
         (wenv : WriterEnv) (fin : FinalEnv) (fs : gmap string CkptFile),
    PyStr.truthy (a_region args) = true ->
    PyStr.truthy (a_profile args) = false ->
    __init__ (a_profile args) (a_region args) client = RaisesUnboundLocalError
    /\ main args client env evs wenv fin fs = ExitsBeforeExport
    /\ main_exit (main args client env evs wenv fin fs) = ExitCode 1.
Proof.
  intros args client env evs wenv fin fs Hregion Hprofile.
  assert (Hi : __init__ (a_profile args) (a_region args) client = RaisesUnboundLocalError).
  { unfold __init__. rewrite Hregion, Hprofile. reflexivity. }
  unfold main. rewrite Hi. auto.
Qed.

(* ------------------------------------------------------------------- *)
(** ** The lines of the output file *)

Lemma process_batch_put_listed self api bucket prefix km vm bops url r :
  r ∈ (process_batch self api bucket prefix km vm bops url).1.2 ->
  exists rec,
    rec ∈ match api with ApiOk response => records_of response | _ => [] end
    /\ r = row_of_record bucket bops url rec.
Proof.
  destruct api as [response|code|msg];
    [rewrite process_batch_ok|cbn; rewrite elem_of_nil; tauto..].
  cbn [fst snd]. rewrite list_elem_of_fmap. intros (rec & -> & Hrec).
  exists rec. split; [|reflexivity].
  eapply sublist_subseteq; [apply fresh_records_sublist|exact Hrec].
Qed.

Lemma interrupted_batch_put cfg self api done marked r :
  r ∈ (interrupted_batch cfg self api done marked).2 ->
  exists rec,
    rec ∈ match api with ApiOk response => records_of response | _ => [] end
    /\ r = row_of_record (cfg_bucket_name cfg) (cfg_bops_compatible cfg)
             (cfg_url_encode cfg) rec.
Proof.
  unfold interrupted_batch.
  destruct api as [response|code|msg]; [|cbn; rewrite elem_of_nil; tauto..].
  unfold process_records. rewrite process_records_fold. cbn [snd app].
  rewrite list_elem_of_fmap. intros (rec & -> & Hrec).
  exists rec. split; [|reflexivity].
  eapply subseteq_take.
  eapply sublist_subseteq; [apply fresh_records_sublist|exact Hrec].
Qed.

(** The rows an iteration puts on the queue are made from the records of
    the page it was answered. *)
Lemma loop_iteration_put cfg alive ev st r :
  r ∈ l_put match loop_iteration cfg alive ev st with
            | inl st' => st'
            | inr (_, st') => st'
            end ->
  r ∈ l_put st
  \/ exists rec,
       rec ∈ event_records ev
       /\ r = row_of_record (cfg_bucket_name cfg) (cfg_bops_compatible cfg)
                (cfg_url_encode cfg) rec.
Proof.
  unfold loop_iteration, event_records.
  destruct (ev_interrupt ev) as [[done marked]|].
  - pose proof (interrupted_batch_put cfg
                  (with_current_batch_num (l_self st) (l_batch_num st + 1))
                  (ev_api ev) done marked r) as Hi.
    destruct (interrupted_batch _ _ _ _ _) as [self1 put]. cbn [snd] in Hi.
    match goal with
    | |- context [loop_save_if ?b cfg ev ?s ?a1 ?a2 ?a3 ?a4] =>
        destruct (loop_save_if_fields b cfg ev s a1 a2 a3 a4) as (_ & -> & _)
    end.
    cbn [l_put]. rewrite elem_of_app. intros [H|H]; auto.
  - pose proof (process_batch_put_listed
                  (with_current_batch_num (l_self st) (l_batch_num st + 1))
                  (ev_api ev) (cfg_bucket_name cfg) (cfg_prefix cfg)
                  (l_next_key_marker st) (l_next_version_marker st)
                  (cfg_bops_compatible cfg) (cfg_url_encode cfg) r) as Hb.
    destruct (process_batch _ _ _ _ _ _ _ _) as [[[params self1] put] result].
    cbn [fst snd] in Hb.
    assert (Hput : r ∈ l_put st ++ put ->
                   r ∈ l_put st
                   \/ exists rec,
                        rec ∈ match ev_api ev with
                              | ApiOk response => records_of response
                              | _ => []
                              end
                        /\ r = row_of_record (cfg_bucket_name cfg)
                                 (cfg_bops_compatible cfg) (cfg_url_encode cfg) rec).
    { rewrite elem_of_app. intros [H|H]; auto. }
    repeat match goal with
           | |- context [if ?b then _ else _] =>
               lazymatch b with
               | context [if _ then _ else _] => fail
               | _ => destruct b
               end
           end;
      cbn [l_put];
      repeat match goal with
             | |- context [loop_save_if ?b cfg ev ?s ?a1 ?a2 ?a3 ?a4] =>
                 let H := fresh in
                 destruct (loop_save_if_fields b cfg ev s a1 a2 a3 a4) as (_ & H & _);
                 rewrite H; clear H
             end;
      cbn [l_put]; exact Hput.
Qed.

Lemma listing_loop_put cfg alive evs r : forall st,
  r ∈ l_put (listing_loop cfg alive evs st).1.2 ->
  r ∈ l_put st \/ listed cfg evs r.
Proof.
  induction evs as [|ev evs IH]; intros st; cbn [listing_loop]; [cbn; auto|].
  pose proof (loop_iteration_put cfg alive ev st r) as Hit.
  assert (Hev : (exists rec,
                   rec ∈ event_records ev
                   /\ r = row_of_record (cfg_bucket_name cfg) (cfg_bops_compatible cfg)
                            (cfg_url_encode cfg) rec) ->
                listed cfg (ev :: evs) r).
  { intros (rec & Hrec & Hr). exists ev, rec. split; [left|auto]. }
  destruct (loop_iteration cfg alive ev st) as [st1|[how st1]].
  - specialize (IH st1).
    destruct (listing_loop cfg alive evs st1) as [[how st2] n]. cbn [fst snd] in *.
    intros H. destruct (IH H) as [H1|(ev' & rec & Hin & Hrec & Hr)].
    + destruct (Hit H1) as [?|?]; auto.
    + right. exists ev', rec. split; [now right|auto].
  - cbn [fst snd]. intros H. destruct (Hit H) as [?|?]; auto.
Qed.

Lemma queue_rows_put (rows : list Row) : queue_rows (map Some rows ++ [None]) = rows.
Proof.
  unfold queue_rows. induction rows as [|r rows IH]; [reflexivity|].
  cbn. f_equal. exact IH.
Qed.

(** The writer thread writes rows of the queue only. *)
Lemma writer_written_from_queue start evs final_io q r :
  r ∈ concat (units (csv_writer_worker start evs final_io q).1) -> r ∈ queue_rows q.
Proof.
  unfold csv_writer_worker.
  destruct start; try (cbn; rewrite elem_of_nil; tauto).
  pose proof (writer_loop_covers _ evs _ (new_writer_covers q)) as Hc.
  destruct (writer_loop evs (new_writer q)) as [w left]. cbn [fst] in Hc.
  assert (Hw : r ∈ concat (units w) -> r ∈ queue_rows q) by (intros H; apply Hc; auto).
  destruct left; [|exact Hw].
  unfold write_remaining. destruct (sort_buffer w) as [|x buf] eqn:Hbuf; [exact Hw|].
  pose proof (write_rows_subset final_io (sort_by_key_name (x :: buf)) r) as Hsub.
  destruct (write_rows _ _) as [written ok]. cbn [fst snd units] in *.
  rewrite concat_snoc_elem_of. intros [H|H]; [auto|].
  apply Hc. right. left. rewrite Hbuf. apply sort_by_key_name_elem_of. auto.
Qed.

(** The lines of the output file after a run that gets past the set-up:
    what the writer thread leaves of the rows the loop put, each of them
    made from a record of the listing. *)
Lemma export_versions_lines cfg env evs wenv fin self fs self1 fs1 rs :
  _validate_bucket_name (cfg_bucket_name cfg) = true ->
  s_path_ok env = true ->
  resume_setup cfg env self fs = inl (self1, fs1, rs) ->
  exists w,
    Forall (listed cfg evs) (concat (units w))
    /\ o_lines <$> r_out (export_versions cfg env evs wenv fin self fs)
       = file_lines (we_start wenv) (cfg_write_headers cfg)
           (match rs with Some _ => true | None => false end)
           (cfg_bops_compatible cfg) (s_out env) w.
Proof.
  intros Hb Hp Hsetup. unfold export_versions. rewrite Hb, Hp, Hsetup. cbn [andb negb].
  destruct (if match rs with Some _ => true | None => false end
            then _check_existing_csv_for_resume self1 (s_out env)
            else (0, self1)) as [cnt self2].
  match goal with
  | |- context [listing_loop cfg ?a evs ?s] =>
      assert (Hput : forall r, r ∈ l_put (listing_loop cfg a evs s).1.2 -> listed cfg evs r);
      [intros r Hr; destruct (listing_loop_put cfg a evs r s Hr) as [H|H];
       [destruct rs; cbn in H; apply elem_of_nil in H; destruct H|exact H]|];
      destruct (listing_loop cfg a evs s) as [[how st] n]
  end.
  cbn [fst snd] in Hput.
  pose proof (fun r => writer_written_from_queue (we_start wenv) (we_events wenv)
                         (we_final_io wenv) (map Some (l_put st) ++ [None]) r) as Hw.
  destruct (csv_writer_worker _ _ _ _) as [w wend]. cbn [fst] in Hw.
  exists w. split.
  { apply Forall_forall. intros r Hr. apply Hput. rewrite <- (queue_rows_put (l_put st)).
    apply Hw. exact Hr. }
  destruct (file_lines _ _ _ _ _ w) as [ls|];
    repeat match goal with
           | |- context [if ?b then _ else _] =>
               lazymatch b with
               | context [if _ then _ else _] => fail
               | _ => destruct b
               end
           | |- context [match ?x with pair _ _ => _ end] => destruct x
           | |- context [match ?x with Completed => _ | _ => _ end] => destruct x
           | |- context [match ?x with WriterLooping => _ | _ => _ end] => destruct x
           end; reflexivity.
Qed.

Lemma resume_setup_fresh cfg env self fs :
  s_out env = None ->
  exists self1 fs1, resume_setup cfg env self fs = inl (self1, fs1, None).
Proof.
  unfold resume_setup. intros ->. destruct (cfg_enable_resume cfg); eauto.
Qed.

Lemma row_cells_bops bucket url rec :
  row_cells (row_of_record bucket true url rec)
  = [bucket; encode_key url (record_key rec); record_version_id rec].
Proof. destruct rec; reflexivity. Qed.

(** X29.  With [--bopsmanifestcompatible] and no output file to start
    from, the file [main] leaves has no header and nothing but manifest
    lines: three cells, the bucket, the key (encoded unless
    [--nourlencoding] is given) and the version id of a record the listing
    returned, whatever [--nocsvheaders] says and however the run ends. *)
Theorem bops_manifest_lines :
  forall (args : Args) (client : ClientOutcome) (env : StartEnv) (evs : list EnvEvent)
         (wenv : WriterEnv) (fin : FinalEnv) (fs : gmap string CkptFile)
         (run : RunResult),
    a_bopsmanifestcompatible args = true ->
    s_out env = None ->
    main args client env evs wenv fin fs = Exported run ->
    Forall (fun line =>
              exists ev rec,
                ev ∈ evs /\ rec ∈ event_records ev
                /\ line = [a_bucket args;
                           encode_key (negb (a_nourlencoding args)) (record_key rec);
                           record_version_id rec])
           (from_option o_lines [] (r_out run)).
Proof.
  intros args client env evs wenv fin fs run Hbops Hout. unfold main.
  destruct (__init__ _ _ _) as [exporter| | | |]; try discriminate.
  intros Hrun. injection Hrun as <-.
  set (cfg := config_of_args args).
  destruct (negb (_validate_bucket_name (cfg_bucket_name cfg) && s_path_ok env)) eqn:Hv.
  { unfold export_versions. rewrite Hv. cbn [r_out]. rewrite Hout. constructor. }
  apply negb_false_iff, andb_true_iff in Hv. destruct Hv as [Hb Hp].
  destruct (resume_setup_fresh cfg env exporter fs Hout) as (self1 & fs1 & Hsetup).
  destruct (export_versions_lines cfg env evs wenv fin exporter fs self1 fs1 None
              Hb Hp Hsetup) as (w & Hw & Hlines).
  assert (Hcells : Forall (fun line =>
              exists ev rec,
                ev ∈ evs /\ rec ∈ event_records ev
                /\ line = [a_bucket args;
                           encode_key (negb (a_nourlencoding args)) (record_key rec);
                           record_version_id rec])
            (map row_cells (concat (units w)))).
  { apply Forall_fmap. eapply Forall_impl; [exact Hw|].
    intros r (ev & rec & Hev & Hrec & ->). exists ev, rec.
    split; [exact Hev|]. split; [exact Hrec|].
    unfold cfg, config_of_args. cbn [cfg_bucket_name cfg_bops_compatible cfg_url_encode].
    rewrite Hbops. apply row_cells_bops. }
  destruct (r_out (export_versions cfg env evs wenv fin exporter fs)) as [out|];
    [|constructor].
  cbn [fmap option_fmap option_map from_option] in *.
  unfold file_lines in Hlines. rewrite Hout in Hlines.
  unfold cfg, config_of_args in Hlines. cbn [cfg_write_headers] in Hlines.
  rewrite Hbops, andb_false_r in Hlines.
  destruct (we_start wenv); cbn in Hlines; try discriminate;
    injection Hlines as ->; [exact Hcells|constructor].
Qed.

Lemma load_accepts self fs now out_mtime bucket prefix path d :
  resume_state_file self = Some path ->
  fs !! path = Some (CkptDict d) ->
  (forall reason, ~ RejectionCondition bucket prefix now out_mtime (CkptDict d) reason) ->
  (_load_resume_state self fs now out_mtime bucket prefix).1 = Loaded d.
Proof.
  intros Hp Hf Hno.
  pose proof (load_result_cases self fs now out_mtime bucket prefix) as Hc.
  destruct (_load_resume_state self fs now out_mtime bucket prefix).1 as [d'|r].
  - destruct Hc as (path' & Hp' & Hf' & _). congruence.
  - exfalso.
    destruct Hc as [(_ & [Hn|(path' & Hp' & Hf')])|(path' & file & Hp' & Hf' & Hcond)];
      try congruence.
    assert (path' = path) by congruence. subst.
    assert (file = CkptDict d) by congruence. subst.
    exact (Hno _ Hcond).
Qed.

(** X30.  A run that resumes from a checkpoint it accepts only appends to
    the output file: every line the file had is still there, in place, and
    what follows are the cells of rows made from records of the listing,
    however the run ends. *)
Theorem resumed_run_only_appends :
  forall (cfg : Config) (env : StartEnv) (evs : list EnvEvent) (wenv : WriterEnv)
         (fin : FinalEnv) (self : Exporter) (fs : gmap string CkptFile)
         (old : OutFile) (d : StateDict),
    cfg_enable_resume cfg = true ->
    _validate_bucket_name (cfg_bucket_name cfg) = true ->
    s_path_ok env = true ->
    s_out env = Some old ->
    fs !! state_path cfg = Some (CkptDict d) ->
    (forall reason,
        ~ RejectionCondition (cfg_bucket_name cfg) (cfg_prefix cfg) (s_now env)
            (Some (o_mtime old)) (CkptDict d) reason) ->
    exists out rows,
      r_out (export_versions cfg env evs wenv fin self fs) = Some out
      /\ o_lines out = o_lines old ++ map row_cells rows
      /\ Forall (listed cfg evs) rows.
Proof.
  intros cfg env evs wenv fin self fs old d Hres Hb Hp Hout Hfile Hno.
  pose proof (load_accepts
                (with_resume_state_file self (s_now env) (Some (state_path cfg))) fs
                (s_now env) (Some (o_mtime old)) (cfg_bucket_name cfg) (cfg_prefix cfg)
                (state_path cfg) d eq_refl Hfile Hno) as Hload.
  assert (Hsetup : exists self1,
            resume_setup cfg env self fs = inl (self1, fs, Some d)).
  { unfold resume_setup. rewrite Hres, Hout. fold (state_path cfg).
    destruct (_load_resume_state _ _ _ _ _ _) as [res self2]. cbn [fst] in Hload.
    subst res. eauto. }
  destruct Hsetup as (self1 & Hsetup).
  destruct (export_versions_lines cfg env evs wenv fin self fs self1 fs (Some d)
              Hb Hp Hsetup) as (w & Hw & Hlines).
  unfold file_lines in Hlines. rewrite Hout in Hlines.
  cbn [fmap option_fmap option_map from_option] in Hlines.
  destruct (r_out (export_versions cfg env evs wenv fin self fs)) as [out|];
    [|destruct (we_start wenv); discriminate].
  cbn [option_map] in Hlines.
  destruct (we_start wenv); injection Hlines as Hl.
  - exists out, (concat (units w)). auto.
  - exists out, []. rewrite app_nil_r. auto.
  - exists out, []. rewrite app_nil_r. auto.
Qed.

(* ------------------------------------------------------------------- *)
(** ** The listing when the writer thread is dead *)

(** One iteration on a page whose rows do not fit into the queue any more,
    the writer thread being dead: [put] does not return. *)
Lemma loop_iteration_blocked cfg ev st truncated :
  is_page truncated ev ->
  QUEUE_MAXSIZE
  < Z.of_nat (length (l_put st)
              + length (fresh_records (processed_keys (l_self st)) (event_records ev))) ->
  exists st', loop_iteration cfg false ev st = inr (Blocked, st').
Proof.
  intros (r & Hapi & Hint & Htr) Hfull. unfold loop_iteration.
  unfold event_records in Hfull. rewrite Hapi in Hfull.
  rewrite Hint, Hapi, process_batch_ok.
  cbn [l_put processed_keys with_processed_keys with_current_batch_num negb andb] in *.
  rewrite length_app, length_map.
  destruct (Z.ltb_spec QUEUE_MAXSIZE
              (Z.of_nat (length (l_put st)
                         + length (fresh_records (processed_keys (l_self st))
                                     (records_of r))))) as [_|Hroom]; [|lia].
  eexists. reflexivity.
Qed.

(** With the writer thread dead, a listing that has more than ten rows to
    put never ends: the loop blocks in [put] on one of its pages. *)
Lemma listing_loop_blocked cfg evs ev_last rest :
  (forall s x, x ∈ set_order s -> x ∈ s) ->
  Forall (is_page true) evs ->
  is_page false ev_last ->
  forall st,
    NoDup (map record_identity (concat (map event_records (evs ++ [ev_last])))) ->
    (forall r, r ∈ concat (map event_records (evs ++ [ev_last])) ->
               record_identity r ∉ processed_keys (l_self st)) ->
    QUEUE_MAXSIZE
    < Z.of_nat (length (l_put st)
                + length (concat (map event_records (evs ++ [ev_last])))) ->
    exists st' n,
      listing_loop cfg false (evs ++ ev_last :: rest) st = (Blocked, st', n)
      /\ (n <= S (length evs))%nat.
Proof.
  intros Hsub Hevs Hlast.
  induction Hevs as [|ev evs Hev Hevs IH]; intros st Hnd Hout Hfull.
  - cbn [app map concat] in *. rewrite app_nil_r in *. cbn [listing_loop length].
    destruct (loop_iteration_blocked cfg ev_last st false Hlast) as (st' & Hit).
    { now rewrite (fresh_records_all _ _ Hnd Hout). }
    rewrite Hit. exists st', 1%nat. split; [reflexivity|lia].
  - cbn [app map concat] in *. cbn [listing_loop length].
    rewrite map_app in Hnd. apply NoDup_app in Hnd as (Hnd1 & Hdis & Hnd2).
    assert (Hfresh : fresh_records (processed_keys (l_self st)) (event_records ev)
                     = event_records ev).
    { apply (fresh_records_all _ _ Hnd1). intros r Hr. apply Hout, elem_of_app. now left. }
    destruct (Z.le_gt_cases
                (Z.of_nat (length (l_put st) + length (event_records ev)))
                QUEUE_MAXSIZE) as [Hroom|Hnoroom].
    + destruct (loop_iteration_page_put cfg false ev st true Hsub Hev)
        as (st1 & Hit & Hput & _ & Hmem & _).
      { right. now rewrite Hfresh. }
      rewrite Hit. rewrite Hfresh in Hput.
      destruct (IH st1 Hnd2) as (st' & n & Hloop & Hn).
      { intros r Hr Hin. apply Hmem in Hin as [Hin|Hin].
        - apply (Hout r); [apply elem_of_app; now right|exact Hin].
        - apply (Hdis _ Hin). now apply list_elem_of_fmap_2. }
      { rewrite Hput, length_app, length_map. rewrite length_app in Hfull. lia. }
      rewrite Hloop. exists st', (S n). split; [reflexivity|lia].
    + destruct (loop_iteration_blocked cfg ev st true Hev) as (st' & Hit).
      { rewrite Hfresh. lia. }
      rewrite Hit. exists st', 1%nat. split; [reflexivity|lia].
Qed.

(** C7.  The listing does not always terminate.  When the writer thread
    has died at its start (the output file cannot be opened, or the header
    cannot be written: the handler prints the fatal error and its
    [sys.exit(1)] ends that thread only), a run on a finite sequence of
    pages answered without error, all truncated but the last, with more
    than ten records to write never leaves the loop: the main thread blocks
    for ever in [put] on the queue of ten rows, after no more iterations
    than there are pages. *)
Theorem dead_writer_blocks_listing :
  forall (cfg : Config) (env : StartEnv) (evs : list EnvEvent) (ev_last : EnvEvent)
         (rest : list EnvEvent) (wenv : WriterEnv) (fin : FinalEnv) (self : Exporter)
         (fs : gmap string CkptFile),
    (forall s x, x ∈ set_order s -> x ∈ s) ->
    _validate_bucket_name (cfg_bucket_name cfg) = true ->
    s_path_ok env = true ->
    s_out env = None ->
    we_start wenv <> StartOk ->
    Forall (is_page true) evs ->
    is_page false ev_last ->
    NoDup (map record_identity (concat (map event_records (evs ++ [ev_last])))) ->
    (forall r, r ∈ concat (map event_records (evs ++ [ev_last])) ->
               record_identity r ∉ processed_keys self) ->
    QUEUE_MAXSIZE < Z.of_nat (length (concat (map event_records (evs ++ [ev_last])))) ->
    r_exit (export_versions cfg env (evs ++ ev_last :: rest) wenv fin self fs) = Hangs
    /\ (r_iterations (export_versions cfg env (evs ++ ev_last :: rest) wenv fin self fs)
        <= S (length evs))%nat.
Proof.
  intros cfg env evs ev_last rest wenv fin self fs Hsub Hb Hp Hout Hdead Hevs Hlast
         Hnd Hnew Hfull.
  unfold export_versions. rewrite Hb, Hp. cbn [andb negb].
  assert (Hsetup : exists self1 fs1,
            resume_setup cfg env self fs = inl (self1, fs1, None)
            /\ processed_keys self1 = processed_keys self).
  { unfold resume_setup. rewrite Hout. destruct (cfg_enable_resume cfg); eauto. }
  destruct Hsetup as (self1 & fs1 & -> & Hkeys).
  assert (Halive : writer_alive (we_start wenv) = false).
  { destruct (we_start wenv); [congruence|reflexivity..]. }
  rewrite Halive.
  match goal with
  | |- context [listing_loop cfg false _ ?s] =>
      destruct (listing_loop_blocked cfg evs ev_last rest Hsub Hevs Hlast s Hnd)
        as (st' & n & Hloop & Hn);
      [cbn [l_self processed_keys with_current_batch_num]; rewrite Hkeys; exact Hnew
      |cbn [l_put length Nat.add]; exact Hfull|]
  end.
  rewrite Hloop.
  destruct (csv_writer_worker _ _ _ _) as [w wend].
  cbn [r_exit r_iterations]. auto.
Qed.

(* ------------------------------------------------------------------- *)
(** ** The checkpoint a failed run leaves *)

Lemma process_batch_batch_num self api bucket prefix km vm bops url :
  current_batch_num (process_batch self api bucket prefix km vm bops url).1.1.2
  = current_batch_num self
  /\ (process_batch self api bucket prefix km vm bops url).1.1.1
     = list_params bucket prefix km vm.
Proof.
  unfold process_batch. destruct api; [|split; reflexivity..].
  destruct (process_records _ _ _ _ _) as [[keys put] count]. split; reflexivity.
Qed.

Lemma interrupted_batch_batch_num cfg self api done marked :
  current_batch_num (interrupted_batch cfg self api done marked).1 = current_batch_num self.
Proof.
  unfold interrupted_batch. destruct api; [|reflexivity..].
  destruct (process_records _ _ _ _ _) as [[keys put] count]. reflexivity.
Qed.

Lemma loop_trim_batch_num cfg self :
  current_batch_num (loop_trim cfg self) = current_batch_num self.
Proof. unfold loop_trim. destruct (_ && _)%bool; reflexivity. Qed.

(** The fields of the loop state a checkpoint write leaves alone, as
    equations that rewrite. *)
Lemma loop_save_if_cursor b cfg ev st nk nv bn ti :
  current_batch_num (l_self (loop_save_if b cfg ev st nk nv bn ti))
  = current_batch_num (l_self st)
  /\ l_requests (loop_save_if b cfg ev st nk nv bn ti) = l_requests st
  /\ l_batch_num (loop_save_if b cfg ev st nk nv bn ti) = l_batch_num st
  /\ l_next_key_marker (loop_save_if b cfg ev st nk nv bn ti) = l_next_key_marker st
  /\ l_next_version_marker (loop_save_if b cfg ev st nk nv bn ti)
     = l_next_version_marker st.
Proof.
  destruct (loop_save_if_fields b cfg ev st nk nv bn ti)
    as ((_ & _ & _ & Hb) & _ & Hr & _ & Hn & Hk & Hv).
  auto.
Qed.

(** The batch number and the requests after an iteration.  When the loop is
    left, the cursor it holds is the one of its last request. *)
Lemma loop_iteration_cursor cfg alive ev st :
  match loop_iteration cfg alive ev st with
  | inl st' =>
      l_batch_num st' = l_batch_num st + 1
      /\ current_batch_num (l_self st') = l_batch_num st'
      /\ length (l_requests st') = S (length (l_requests st))
  | inr (_, st') =>
      l_batch_num st' = l_batch_num st + 1
      /\ current_batch_num (l_self st') = l_batch_num st'
      /\ l_requests st' =
         l_requests st
           ++ [list_params (cfg_bucket_name cfg) (cfg_prefix cfg)
                 (l_next_key_marker st') (l_next_version_marker st')]
  end.
Proof.
  assert (Hsave : forall b s a1 a2 a3 a4,
            current_batch_num (l_self (loop_save_if b cfg ev s a1 a2 a3 a4))
            = current_batch_num (l_self s)
            /\ l_requests (loop_save_if b cfg ev s a1 a2 a3 a4) = l_requests s
            /\ l_batch_num (loop_save_if b cfg ev s a1 a2 a3 a4) = l_batch_num s
            /\ l_next_key_marker (loop_save_if b cfg ev s a1 a2 a3 a4)
               = l_next_key_marker s
            /\ l_next_version_marker (loop_save_if b cfg ev s a1 a2 a3 a4)
               = l_next_version_marker s)
    by (intros; apply loop_save_if_cursor).
  unfold loop_iteration. destruct (ev_interrupt ev) as [[done marked]|].
  - pose proof (interrupted_batch_batch_num cfg
                  (with_current_batch_num (l_self st) (l_batch_num st + 1))
                  (ev_api ev) done marked) as Hi.
    destruct (interrupted_batch _ _ _ _ _) as [self1 put]. cbn [fst] in Hi.
    match goal with
    | |- context [loop_save_if ?b cfg ev ?s ?a1 ?a2 ?a3 ?a4] =>
        destruct (Hsave b s a1 a2 a3 a4) as (H1 & H2 & H3 & H4 & H5)
    end.
    rewrite H1, H2, H3, H4, H5.
    cbn [l_self l_requests l_batch_num l_next_key_marker l_next_version_marker].
    rewrite Hi. auto.
  - pose proof (process_batch_batch_num
                  (with_current_batch_num (l_self st) (l_batch_num st + 1))
                  (ev_api ev) (cfg_bucket_name cfg) (cfg_prefix cfg)
                  (l_next_key_marker st) (l_next_version_marker st)
                  (cfg_bops_compatible cfg) (cfg_url_encode cfg)) as [Hb Hparams].
    destruct (process_batch _ _ _ _ _ _ _ _) as [[[params self1] put] result].
    cbn [fst snd] in Hb, Hparams. subst params.
    cbn [current_batch_num with_current_batch_num] in Hb.
    repeat match goal with
           | |- context [if ?b then _ else _] =>
               lazymatch b with
               | context [if _ then _ else _] => fail
               | _ => destruct b
               end
           end;
      cbn [l_self l_requests l_batch_num l_next_key_marker l_next_version_marker];
      rewrite ?loop_trim_batch_num;
      repeat match goal with
             | |- context [loop_save_if ?b cfg ev ?s ?a1 ?a2 ?a3 ?a4] =>
                 let H1 := fresh in let H2 := fresh in let H3 := fresh in
                 let H4 := fresh in let H5 := fresh in
                 destruct (Hsave b s a1 a2 a3 a4) as (H1 & H2 & H3 & H4 & H5);
                 progress (rewrite ?H1, ?H2, ?H3, ?H4, ?H5);
                 clear H1 H2 H3 H4 H5;
                 cbn [l_self l_requests l_batch_num l_next_key_marker
                      l_next_version_marker]
             end;
      rewrite ?Hb, ?length_app; cbn [length];
      repeat split; try reflexivity; lia.
Qed.

Lemma listing_loop_cursor cfg alive evs : forall st how st' n,
  listing_loop cfg alive evs st = (how, st', n) ->
  how <> AwaitingPage ->
  l_batch_num st' = l_batch_num st + Z.of_nat n
  /\ current_batch_num (l_self st') = l_batch_num st'
  /\ last (l_requests st')
     = Some (list_params (cfg_bucket_name cfg) (cfg_prefix cfg)
               (l_next_key_marker st') (l_next_version_marker st')).
Proof.
  induction evs as [|ev evs IH]; intros st how st' n Hl Hhow; cbn [listing_loop] in Hl.
  - injection Hl as <- _ _. contradiction.
  - pose proof (loop_iteration_cursor cfg alive ev st) as Hit.
    destruct (loop_iteration cfg alive ev st) as [st1|[how1 st1]].
    + destruct (listing_loop cfg alive evs st1) as [[how2 st2] m] eqn:Hl2.
      injection Hl as <- <- <-.
      destruct (IH st1 how2 st2 m Hl2 Hhow) as (Hb & Hc & Hr).
      destruct Hit as (Hb1 & _). split; [lia|auto].
    + injection Hl as <- <- <-. destruct Hit as (Hb & Hc & Hr).
      split; [lia|]. split; [exact Hc|]. rewrite Hr. apply last_snoc.
Qed.

Lemma listing_loop_requests_length cfg alive evs : forall st,
  length (l_requests (listing_loop cfg alive evs st).1.2)
  = (length (l_requests st) + (listing_loop cfg alive evs st).2)%nat.
Proof.
  induction evs as [|ev evs IH]; intros st; cbn [listing_loop]; [cbn; lia|].
  pose proof (loop_iteration_cursor cfg alive ev st) as Hit.
  destruct (loop_iteration cfg alive ev st) as [st1|[how1 st1]].
  - specialize (IH st1). destruct (listing_loop cfg alive evs st1) as [[how2 st2] m].
    cbn [fst snd] in *. destruct Hit as (_ & _ & Hr). lia.
  - cbn [fst snd]. destruct Hit as (_ & _ & ->). rewrite length_app. cbn. lia.
Qed.

(** X19.  The checkpoint a failed run leaves.  A run with resume enabled
    that exits with status 1 after at least one request and with an error
    counted (a listing error it did not recover from, or an interrupt
    after an earlier error) leaves a checkpoint of the job, written in the
    [finally] block over the one the loop saved before leaving: it holds the
    cursor of the last request the run made, so that the next run repeats
    that request, and as batch number the exporter's [current_batch_num],
    the number of that last, unfinished batch and not of the last batch
    that succeeded: in a run started without an output file, the number of
    requests made. *)
Theorem failed_run_checkpoint_counts_failed_batch :
  forall (cfg : Config) (env : StartEnv) (evs : list EnvEvent) (wenv : WriterEnv)
         (fin : FinalEnv) (self : Exporter) (fs : gmap string CkptFile),
    cfg_enable_resume cfg = true ->
    f_fs_write fin = WriteOk ->
    r_exit (export_versions cfg env evs wenv fin self fs) = ExitCode 1 ->
    r_iterations (export_versions cfg env evs wenv fin self fs) <> O ->
    0 < error_count (r_self (export_versions cfg env evs wenv fin self fs)) ->
    exists d,
      r_fs (export_versions cfg env evs wenv fin self fs) !! state_path cfg
        = Some (CkptDict d)
      /\ st_bucket_name d = Some (cfg_bucket_name cfg)
      /\ st_prefix d = cfg_prefix cfg
      /\ last (r_requests (export_versions cfg env evs wenv fin self fs))
         = Some (list_params (cfg_bucket_name cfg) (cfg_prefix cfg)
                   (st_next_key_marker d) (st_next_version_marker d))
      /\ st_batch_num d
         = current_batch_num (r_self (export_versions cfg env evs wenv fin self fs))
      /\ (s_out env = None ->
          st_batch_num d
          = Z.of_nat (r_iterations (export_versions cfg env evs wenv fin self fs))
          /\ length (r_requests (export_versions cfg env evs wenv fin self fs))
             = r_iterations (export_versions cfg env evs wenv fin self fs)).
Proof.
  intros cfg env evs wenv fin self fs Hres Hfw.
  unfold export_versions.
  destruct (negb _); [cbn; congruence|].
  destruct (resume_setup cfg env self fs) as [[[self1 fs1] rs]|self1] eqn:Hsetup;
    [|cbn; congruence].
  pose proof (resume_setup_state_file cfg env self fs self1 fs1 rs Hres Hsetup) as Hp1.
  assert (Hfresh : s_out env = None -> rs = None).
  { intros Hout. destruct (resume_setup_fresh cfg env self fs Hout) as (a & b & Hs).
    congruence. }
  assert (Hp2 : resume_state_file
                  (if match rs with Some _ => true | None => false end
                   then _check_existing_csv_for_resume self1 (s_out env)
                   else (0, self1)).2 = Some (state_path cfg)).
  { destruct rs; [|exact Hp1]. unfold _check_existing_csv_for_resume.
    destruct (s_out env); exact Hp1. }
  destruct (if match rs with Some _ => true | None => false end
            then _check_existing_csv_for_resume self1 (s_out env)
            else (0, self1)) as [cnt self2].
  cbn [snd] in Hp2.
  match goal with
  | |- context [listing_loop cfg ?a evs ?s] =>
      assert (Hp0 : resume_state_file (l_self s) = Some (state_path cfg))
        by (destruct rs; exact Hp2);
      assert (Hb0 : s_out env = None -> l_batch_num s = 0 /\ l_requests s = [])
        by (intros Hout; rewrite (Hfresh Hout); split; reflexivity);
      pose proof (listing_loop_state_file cfg a evs s) as Hfile;
      pose proof (listing_loop_cursor cfg a evs s) as Hcur;
      pose proof (listing_loop_requests_length cfg a evs s) as Hlen;
      destruct (listing_loop cfg a evs s) as [[how st] n]
  end.
  cbn [fst snd] in Hfile, Hlen. rewrite Hp0 in Hfile.
  destruct (csv_writer_worker _ _ _ _) as [w wend].
  destruct (match how with Blocked => true | _ => _ end); [cbn; discriminate|].
  assert (Hsave :
    0 < error_count (merge_counters (l_self st) w) ->
    how <> AwaitingPage ->
    exists d,
      (_save_resume_state (merge_counters (l_self st) w) (l_fs st) (f_now fin)
         (f_out_mtime fin) (f_fs_write fin) (cfg_bucket_name cfg) (cfg_prefix cfg)
         (l_next_key_marker st) (l_next_version_marker st)
         (current_batch_num (merge_counters (l_self st) w)) (l_total_items st)).2
        !! state_path cfg = Some (CkptDict d)
      /\ st_bucket_name d = Some (cfg_bucket_name cfg)
      /\ st_prefix d = cfg_prefix cfg
      /\ last (l_requests st)
         = Some (list_params (cfg_bucket_name cfg) (cfg_prefix cfg)
                   (st_next_key_marker d) (st_next_version_marker d))
      /\ st_batch_num d
         = current_batch_num
             (_save_resume_state (merge_counters (l_self st) w) (l_fs st) (f_now fin)
                (f_out_mtime fin) (f_fs_write fin) (cfg_bucket_name cfg) (cfg_prefix cfg)
                (l_next_key_marker st) (l_next_version_marker st)
                (current_batch_num (merge_counters (l_self st) w)) (l_total_items st)).1
      /\ (s_out env = None ->
          st_batch_num d = Z.of_nat n /\ length (l_requests st) = n)).
  { intros _ Hhow. destruct (Hcur how st n eq_refl Hhow) as (Hbn & Hcb & Hlast).
    unfold _save_resume_state. cbn [resume_state_file merge_counters].
    rewrite Hfile, Hfw. cbn [fst snd]. rewrite lookup_insert_eq.
    eexists. split; [reflexivity|].
    cbn [st_bucket_name st_prefix st_next_key_marker st_next_version_marker st_batch_num
         current_batch_num with_checkpoint_printed merge_counters].
    split; [reflexivity|]. split; [reflexivity|]. split; [exact Hlast|].
    split; [reflexivity|].
    intros Hout. destruct (Hb0 Hout) as [Hz Hr]. rewrite Hcb, Hbn, Hz, Hlen, Hr.
    split; [lia|reflexivity]. }
  rewrite Hres. cbn [andb].
  destruct how, wend; try (cbn; discriminate);
    (destruct (Z.ltb_spec 0 (error_count (merge_counters (l_self st) w)))
       as [Hpos|Hzero];
     [destruct (Hsave Hpos ltac:(discriminate)) as (d & Hd);
      destruct (_save_resume_state _ _ _ _ _ _ _ _ _ _ _) as [self4 fs4];
      cbn [fst snd r_exit r_iterations r_self r_fs r_requests] in *;
      intros _ _ _; exists d; exact Hd
     |cbn [r_exit r_iterations r_self r_fs r_requests error_count merge_counters] in *;
      intros _ _ Hpos; lia]).
Qed.

(* ------------------------------------------------------------------- *)
(** ** A failed write in the loop of the writer: what happens next *)

(** After a failed write the buffer is not empty and the next round has a
    write to do: the conditions that made the write due still hold. *)
Lemma write_due_after_failure ev next w :
  write_fails ev w = true -> write_due next (writer_iteration ev w) = true.
Proof.
  unfold write_fails, write_due, collected, writer_iteration.
  destruct (collect (w_take ev) (w_queue w) []) as [[batch q] sentinel]. cbn [fst].
  destruct (Z.leb_spec 4000 (Z.of_nat (length (sort_buffer w ++ batch)))) as [Hbig|Hsmall];
    cbn [orb].
  - cbn [andb]. destruct (write_rows _ _) as [written ok]. cbn [snd].
    destruct ok; [discriminate|]. intros _. cbn [sort_buffer w_queue w_stop].
    destruct (collect (w_take next) q []) as [[batch' q'] sentinel'].
    apply orb_true_iff. left. apply Z.leb_le.
    rewrite length_app, sort_by_key_name_length. lia.
  - destruct ((w_stop w || sentinel) && nonempty (sort_buffer w ++ batch))%bool eqn:Hdue;
      [|discriminate].
    cbn [andb]. destruct (write_rows _ _) as [written ok]. cbn [snd].
    destruct ok; [discriminate|]. intros _. cbn [sort_buffer w_queue w_stop].
    destruct (collect (w_take next) q []) as [[batch' q'] sentinel'].
    apply andb_true_iff in Hdue as [Hstop Hne].
    apply orb_true_iff. right. rewrite Hstop. cbn [orb andb].
    pose proof (sort_by_key_name_length (sort_buffer w ++ batch)) as Hlen.
    destruct (sort_by_key_name (sort_buffer w ++ batch)) as [|x l].
    + destruct (sort_buffer w ++ batch); [discriminate Hne|discriminate Hlen].
    + reflexivity.
Qed.

(** A write that is due and succeeds writes the whole buffer and empties
    it. *)
Lemma writer_iteration_written ev w :
  write_due ev w = true ->
  w_io ev = IoOk ->
  units (writer_iteration ev w)
  = units w ++ [sort_by_key_name (sort_buffer w ++ collected ev w)]
  /\ sort_buffer (writer_iteration ev w) = [].
Proof.
  unfold write_due, collected, writer_iteration.
  destruct (collect (w_take ev) (w_queue w) []) as [[batch q] sentinel]. cbn [fst].
  intros -> ->. cbn [write_rows]. split; reflexivity.
Qed.

Lemma write_remaining_written w :
  sort_buffer w <> [] ->
  units (write_remaining IoOk w).1 = units w ++ [sort_by_key_name (sort_buffer w)]
  /\ (write_remaining IoOk w).2 = WriterReturned.
Proof.
  unfold write_remaining. destruct (sort_buffer w) as [|x l]; [contradiction|].
  intros _. cbn [write_rows fst snd units]. split; reflexivity.
Qed.

(** C2 (as amended).  A write or flush that fails inside the loop of the
    writer thread is counted in the error counter, nothing is added to the
    count of rows written, and the writer goes on with its buffer kept,
    every row still in it.  Its next write, in the next round of the loop
    or after the loop when the loop is left at once, is of the whole
    buffer: if it succeeds, every row of the failed write is in the unit it
    appends to the file.  The failure does not stop the job: with the
    writer thread started and the write after the loop succeeding, the
    pages requested, the rows put on the queue, the number of loop
    iterations and the exit status of a run that ends do not depend on what
    the writes in the loop do. *)
Theorem write_failure_is_counted_not_fatal :
  forall (cfg : Config) (env : StartEnv) (evs : list EnvEvent)
         (wenv wenv' : WriterEnv) (fin : FinalEnv) (self : Exporter)
         (fs : gmap string CkptFile) (ev next : WriterEvent) (w : Writer),
    write_fails ev w = true ->
    we_start wenv = StartOk ->
    we_start wenv' = StartOk ->
    we_final_io wenv = IoOk ->
    we_final_io wenv' = IoOk ->
    (w_errors (writer_iteration ev w) = w_errors w + 1
     /\ sort_buffer (writer_iteration ev w) ≡ₚ sort_buffer w ++ collected ev w
     /\ w_processed (writer_iteration ev w) = w_processed w)
    /\ (w_io next = IoOk ->
        exists written,
          units (writer_iteration next (writer_iteration ev w))
          = units (writer_iteration ev w) ++ [written]
          /\ (forall r, r ∈ sort_buffer w ++ collected ev w -> r ∈ written)
          /\ sort_buffer (writer_iteration next (writer_iteration ev w)) = [])
    /\ (exists written,
          units (write_remaining IoOk (writer_iteration ev w)).1
          = units (writer_iteration ev w) ++ [written]
          /\ (forall r, r ∈ sort_buffer w ++ collected ev w -> r ∈ written)
          /\ (write_remaining IoOk (writer_iteration ev w)).2 = WriterReturned)
    /\ (let run := export_versions cfg env evs wenv fin self fs in
        let run' := export_versions cfg env evs wenv' fin self fs in
        r_requests run = r_requests run'
        /\ r_put run = r_put run'
        /\ r_iterations run = r_iterations run'
        /\ (forall c c', r_exit run = ExitCode c -> r_exit run' = ExitCode c' -> c = c')).
Proof.
  intros cfg env evs wenv wenv' fin self fs ev next w Hfail Hs Hs' _ _.
  destruct (writer_iteration_failed ev w Hfail) as (Herr & Hkept & Hproc).
  assert (Hin : forall r, r ∈ sort_buffer w ++ collected ev w ->
                          r ∈ sort_buffer (writer_iteration ev w))
    by (intros r Hr; now rewrite Hkept).
  split; [auto|]. split; [|split].
  - intros Hok.
    destruct (writer_iteration_written next (writer_iteration ev w)
                (write_due_after_failure ev next w Hfail) Hok) as [Hunits Hbuf].
    eexists. split; [exact Hunits|]. split; [|exact Hbuf].
    intros r Hr. apply sort_by_key_name_elem_of, elem_of_app. left. now apply Hin.
  - assert (Hne : sort_buffer (writer_iteration ev w) <> []).
    { pose proof (write_due_after_failure ev {| w_take := 0; w_io := IoOk |} w Hfail) as Hd.
      unfold write_due in Hd. cbn [w_take collect] in Hd. rewrite app_nil_r in Hd.
      intros Hnil. rewrite Hnil in Hd. cbn in Hd. rewrite andb_false_r in Hd.
      discriminate. }
    destruct (write_remaining_written (writer_iteration ev w) Hne) as [Hunits Hend].
    eexists. split; [exact Hunits|]. split; [|exact Hend].
    intros r Hr. apply sort_by_key_name_elem_of. now apply Hin.
  - now apply main_thread_ignores_writes.
Qed.

(* ------------------------------------------------------------------- *)
(** ** The load, on a checkpoint file of any content *)









(** The typed dictionaries are the files the code writes, and on them the
    two descriptions of the load agree: what [_load_resume_state] returns
    for a dictionary or an unreadable file is what
    [_load_resume_state_raw] returns for the JSON that stands for it. *)
Lemma hashable_strings (l : list string) : forallb hashable (JStr <$> l) = true.
Proof. induction l as [|x l IH]; [reflexivity|exact IH]. Qed.

Lemma load_raw_refines (f : string -> option Z) (iso : Z -> string)
    self fs now out_mtime bucket prefix path file :
  (forall t, f (iso t) = Some t /\ iso t <> EmptyString) ->
  resume_state_file self = Some path ->
  fs !! path = Some file ->
  match (_load_resume_state self fs now out_mtime bucket prefix).1 with
  | Loaded d =>
      file = CkptDict d
      /\ _load_resume_state_raw f (Some (raw_of_file iso file)) now out_mtime bucket prefix
         = RawLoaded (state_json iso d)
  | Rejected r =>
      exists r',
        _load_resume_state_raw f (Some (raw_of_file iso file)) now out_mtime bucket prefix
        = RawRejected r'
        /\ raw_kind r' = kind_of r
  end.
Proof.
  intros Hiso Hpath Hfile. unfold _load_resume_state. rewrite Hpath, Hfile.
  destruct file as [d|exn]; [|cbn; eauto].
  unfold raw_of_file, state_json, _load_resume_state_raw.
  change (json_get "bucket_name" (state_members iso d))
    with (json_opt_str (st_bucket_name d)).
  change (json_get "prefix" (state_members iso d)) with (json_opt_str (st_prefix d)).
  change (json_get "timestamp" (state_members iso d))
    with (match st_timestamp d with
          | TsAbsent => JNull
          | TsInvalid => JBool true
          | TsAt t => JStr (iso t)
          end).
  change (json_get_default "processed_keys" (JList []) (state_members iso d))
    with (JList (JStr <$> st_processed_keys d)).
  change (json_get "csv_mtime" (state_members iso d))
    with (from_option JNum JNull (st_csv_mtime d)).
  change (json_get_default "total_items" (JNum 0) (state_members iso d))
    with (JNum (st_total_items d)).
  cbn [set_raises json_number]. rewrite hashable_strings. cbn [negb].
  assert (Hb : json_is_str (json_opt_str (st_bucket_name d)) bucket
               = bool_decide (st_bucket_name d = Some bucket)).
  { destruct (st_bucket_name d) as [s|]; cbn.
    - destruct (String.eqb_spec s bucket) as [->|Hne].
      + now rewrite bool_decide_eq_true_2.
      + rewrite bool_decide_eq_false_2; [reflexivity|congruence].
    - now rewrite bool_decide_eq_false_2. }
  assert (Hp : json_is_opt_str (json_opt_str (st_prefix d)) prefix
               = bool_decide (st_prefix d = prefix)).
  { destruct (st_prefix d) as [s|], prefix as [s'|]; cbn;
      try (rewrite bool_decide_eq_false_2; [reflexivity|congruence]);
      try (now rewrite bool_decide_eq_true_2).
    destruct (String.eqb_spec s s') as [->|Hne].
    - now rewrite bool_decide_eq_true_2.
    - rewrite bool_decide_eq_false_2; [reflexivity|congruence]. }
  assert (Hm : mtime_check out_mtime (from_option JNum JNull (st_csv_mtime d))
               = if csv_modified (st_csv_mtime d) out_mtime then Some RawCsvModified
                 else None).
  { unfold mtime_check, csv_modified.
    destruct (st_csv_mtime d) as [m|]; cbn; [|reflexivity].
    destruct (Z.eqb m 0); cbn; [now destruct out_mtime|].
    destruct out_mtime as [cur|]; reflexivity. }
  rewrite Hb, Hp.
  destruct (bool_decide (st_bucket_name d = Some bucket)); cbn [negb fst]; [|eauto].
  destruct (bool_decide (st_prefix d = prefix)); cbn [negb fst]; [|eauto].
  destruct (st_timestamp d) as [| |t]; cbn [timestamp_check json_truthy].
  - rewrite Hm. destruct (csv_modified _ _); cbn [fst]; eauto.
  - cbn. eauto.
  - destruct (Hiso t) as [Hf Hne]. unfold timestamp_check. cbn [json_truthy].
    replace (negb (String.eqb (iso t) EmptyString)) with true
      by (symmetry; apply negb_true_iff, String.eqb_neq; exact Hne).
    cbn iota. rewrite Hf. destruct (Z.ltb HOURS_24 (now - t)); cbn [fst]; [eauto|].
    rewrite Hm. destruct (csv_modified _ _); cbn [fst]; eauto.
Qed.


End Exporter.

(* ===================================================================== *)
(** * The model at concrete inputs *)
(* ===================================================================== *)

Example quote_plus_space : Urllib.quote_plus "/" "a b/c" = "a+b/c".
Proof. reflexivity. Qed.

Example quote_plus_plus : Urllib.quote_plus "/" "a+b" = "a%2Bb".
Proof. reflexivity. Qed.

Example quote_plus_utf8 :
  Urllib.quote_plus "/" (String (ascii_of_N 195) (String (ascii_of_N 169) "")) = "%C3%A9".
Proof. reflexivity. Qed.

(** The sort is stable: rows with equal keys keep their order. *)
Example sort_is_stable :
  map version_id
    (sort_by_key_name
       (row_of_version "b" true false <$>
          [demo_version "b" "1"; demo_version "a" "2"; demo_version "b" "3";
           demo_version "a" "4"]))
  = ["2"; "4"; "1"; "3"].
Proof. reflexivity. Qed.

(** Three rows and the sentinel taken in one round are written as one
    sorted unit. *)
Example writer_writes_one_sorted_unit :
  map (map key_name)
    (units (csv_writer_worker StartOk [ {| w_take := 5; w_io := IoOk |} ] IoOk
              (map Some (row_of_version "b" true false <$>
                           [demo_version "c" "1"; demo_version "a" "1";
                            demo_version "b" "1"]) ++ [None])).1)
  = [["a"; "b"; "c"]].
Proof. reflexivity. Qed.

(** ** C8: a space is not percent-escaped *)

(** C8, counterexample.  With URL encoding the row of the key ["a b"] has
    the [key_name] ["a+b"], which is not the percent-encoding ["a%20b"]. *)
Lemma key_name_of_space_is_plus :
  key_name (row_of_record "my-bucket" false true (inl (demo_version "a b" "null"))) = "a+b"
  /\ Urllib.percent_encode_preserving_slash "a b" = "a%20b"
  /\ key_name (row_of_record "my-bucket" false true (inl (demo_version "a b" "null")))
     <> Urllib.percent_encode_preserving_slash "a b".
Proof. repeat split; [reflexivity..|discriminate]. Qed.

Lemma put_rows_key_name_witness :
  key_name (row_of_record "my-bucket" false true (inl (demo_version "a/b c" "null")))
    = "a/b+c"
  /\ Urllib.plus_encode "a/b" = Urllib.percent_encode_preserving_slash "a/b".
Proof.
  destruct (put_rows_key_name (new_exporter None) page_1 "my-bucket" None None None
              false true) as (_ & H & _).
  split; [reflexivity|]. apply H. reflexivity.
Defined.

(** ** C9: two records with one identity *)

(** C9, at the failing input.  The records (key ["a"], version ["b-c"]) and
    (key ["a-b"], version ["c"]) have the same identity, and of a page that
    lists both only the first is put on the queue. *)
Theorem colliding_identities_suppress_a_record :
  key_version "a" "b-c" = key_version "a-b" "c"
  /\ (let page := demo_page [demo_version "a" "b-c"; demo_version "a-b" "c"] None in
      let out := process_batch (new_exporter None) (ApiOk page)
                   "my-bucket" None None None false false in
      map (fun row => (key_name row, version_id row)) out.1.2 = [("a", "b-c")]
      /\ batch_count out.2 = 1).
Proof. vm_compute. repeat split. Qed.

(** ** C10: the identity read back from the file *)

(** C10, at the failing input.  With URL encoding (the default) the record
    with key ["a b"] is remembered as ["a b-v1"] when fetched, but the
    identity built from its row in the output file is ["a+b-v1"]; a dedup
    set seeded from the file does not stop the record from being put
    again. *)
Theorem preseeded_identity_differs_with_encoding :
  let r : record := inl (demo_version "a b" "v1") in
  let row := row_of_record "my-bucket" false true r in
  let file := {| o_mtime := sec 4; o_lines := [fieldnames false; row_cells row] |} in
  key_version (record_key r) (record_version_id r) = "a b-v1"
  /\ csv_identities (o_lines file) = ["a+b-v1"]
  /\ (process_batch (_check_existing_csv_for_resume (new_exporter None) (Some file)).2
        (ApiOk (demo_page [demo_version "a b" "v1"] None))
        "my-bucket" None None None false true).1.2 = [row].
Proof. vm_compute. repeat split. Qed.

(** ** C4: a fingerprint of zero is not compared *)



(** A checkpoint whose members have unexpected types is accepted when
    nothing raises: the batch number is a string, the marker a number, the
    total a boolean and [processed_keys] a string (the set of its
    characters is taken). *)
Lemma ill_typed_checkpoint_is_accepted :
  _load_resume_state_raw demo_fromisoformat (Some (RawJson ill_typed_checkpoint))
    (sec 61) (Some (sec 100)) "my-bucket" None
  = RawLoaded ill_typed_checkpoint.
Proof. reflexivity. Qed.

(** Members of a kind the code does use with the wrong type: each is
    reported as a corrupted checkpoint. *)
Lemma corrupt_checkpoints_are_rejected :
  _load_resume_state_raw demo_fromisoformat (Some (RawJson (JList []))) (sec 61) None
    "my-bucket" None = RawRejected (RawCorrupted ErrNotAnObject)
  /\ _load_resume_state_raw demo_fromisoformat
       (Some (RawJson (JObj [("bucket_name", JStr "my-bucket");
                             ("processed_keys", JNull)])))
       (sec 61) None "my-bucket" None = RawRejected (RawCorrupted ErrKeysNotASet)
  /\ _load_resume_state_raw demo_fromisoformat
       (Some (RawJson (JObj [("bucket_name", JStr "my-bucket");
                             ("total_items", JStr "12")])))
       (sec 61) None "my-bucket" None = RawRejected (RawCorrupted ErrTotalNotANumber).
Proof. repeat split. Qed.

(** ** C3: a checkpoint saved and loaded *)

Lemma checkpoint_round_trip_witness :
  exists d,
    (_load_resume_state
       (exporter_with_state_file
          (_generate_resume_state_filename md5_constant dirname_constant stem_constant
             "my-bucket" None "versions.csv"))
       (_save_resume_state insertion_order
          (exporter_with_state_file
             (_generate_resume_state_filename md5_constant dirname_constant stem_constant
                "my-bucket" None "versions.csv"))
          ∅ (sec 3) (Some (sec 1)) WriteOk "my-bucket" None
          (Some "a b") (Some "null") 1 1).2
       (sec 61) (Some (sec 1)) "my-bucket" None).1 = Loaded d
    /\ st_next_key_marker d = Some "a b"
    /\ st_next_version_marker d = Some "null"
    /\ st_total_items d = 1.
Proof.
  apply (checkpoint_round_trip insertion_order md5_constant dirname_constant stem_constant
           _ _ ∅ "my-bucket" None "versions.csv" (Some (sec 1))
           (Some "a b") (Some "null") 1 1 (sec 3) (sec 61)).
  - reflexivity.
  - reflexivity.
  - vm_compute. discriminate.
Defined.

(** ** C7: a page of eleven rows and a dead writer *)

Lemma dead_writer_blocks_listing_witness :
  r_exit (export_versions insertion_order md5_constant dirname_constant stem_constant
            demo_cfg (start_env (sec 1) None)
            ([] ++ page_event (sec 2) (sec 1) page_of_eleven None :: [])
            (dead_writer (sec 1)) (final_env (sec 4)) (new_exporter None) ∅)
  = Hangs.
Proof.
  refine (proj1 (dead_writer_blocks_listing insertion_order md5_constant dirname_constant
                   stem_constant demo_cfg (start_env (sec 1) None) []
                   (page_event (sec 2) (sec 1) page_of_eleven None) []
                   (dead_writer (sec 1)) (final_env (sec 4)) (new_exporter None) ∅
                   _ _ _ _ _ _ _ _ _ _)).
  - intros s x Hx. exact Hx.
  - reflexivity.
  - reflexivity.
  - reflexivity.
  - discriminate.
  - constructor.
  - exists page_of_eleven. repeat split.
  - vm_compute. compute_done.
  - intros r _. apply not_elem_of_nil.
  - vm_compute. reflexivity.
Defined.

(** ** C1: an interrupted and resumed run *)

(** C1, at the failing input.  The bucket holds the keys ["a b"] and
    ["a+b"] (one null version each, one per page) and is exported with the
    default options.  An uninterrupted run writes both rows.  A run
    interrupted while it requests the second page writes the first row and
    leaves a checkpoint; the run that resumes from it seeds the dedup set
    from the file with the identity ["a+b-null"] of the row written for
    ["a b"], skips the record of the key ["a+b"] as already processed, and
    ends successfully with that row missing. *)
Theorem resumed_run_omits_a_row :
  let run := export_versions insertion_order md5_constant dirname_constant stem_constant
               demo_cfg in
  let whole :=
    run (start_env (sec 1) None)
        [page_event (sec 2) (sec 1) page_1 None; page_event (sec 3) (sec 1) page_2 None]
        (good_writer (sec 4)) (final_env (sec 4)) (new_exporter None) ∅ in
  let first :=
    run (start_env (sec 1) None)
        [page_event (sec 2) (sec 1) page_1 None;
         page_event (sec 3) (sec 1) page_2 (Some (0%nat, false))]
        (good_writer (sec 4)) (final_env (sec 4)) (new_exporter None) ∅ in
  let second :=
    run (start_env (sec 61) (r_out first))
        [page_event (sec 62) (sec 4) page_2 None]
        (good_writer (sec 63)) (final_env (sec 63)) (new_exporter None) (r_fs first) in
  r_exit whole = ExitCode 0
  /\ key_rows (r_out whole) = [("a%2Bb", "null"); ("a+b", "null")]
  /\ r_exit first = ExitCode 1
  /\ key_rows (r_out first) = [("a+b", "null")]
  /\ r_requests second = [list_params "my-bucket" None (Some "a b") (Some "null")]
  /\ r_exit second = ExitCode 0
  /\ key_rows (r_out second) = [("a+b", "null")].
Proof. vm_compute. repeat split. Qed.

(** The same happens without any encoding when the interruption arrives
    while the main thread waits in [put]: the record of the key ["b"] is in
    the dedup set, and so in the checkpoint, but its row never reached the
    queue; the resumed run skips it. *)
Example interrupt_in_put_omits_a_row :
  let run := export_versions insertion_order md5_constant dirname_constant stem_constant
               demo_cfg in
  let first :=
    run (start_env (sec 1) None)
        [page_event (sec 2) (sec 1) plain_page_1 None;
         page_event (sec 3) (sec 1) plain_page_2 (Some (0%nat, true))]
        (good_writer (sec 4)) (final_env (sec 4)) (new_exporter None) ∅ in
  let second :=
    run (start_env (sec 61) (r_out first))
        [page_event (sec 62) (sec 4) plain_page_2 None]
        (good_writer (sec 63)) (final_env (sec 63)) (new_exporter None) (r_fs first) in
  r_exit first = ExitCode 1
  /\ r_exit second = ExitCode 0
  /\ key_rows (r_out second) = [("a", "null")].
Proof. vm_compute. repeat split. Qed.

(** ** C2: a run with a failing write *)

(** C2, counterexample.  In a run over the two pages the first write of the
    writer thread fails: the failure is counted, both pages are requested
    and the process ends with status 0.  In a run whose writer thread dies
    writing the header, the main thread blocks for ever on the full queue
    once a page has more than ten rows. *)
Lemma failed_write_ends_with_status_zero :
  let run := export_versions insertion_order md5_constant dirname_constant stem_constant
               demo_cfg in
  let failed :=
    run (start_env (sec 1) None)
        [page_event (sec 2) (sec 1) page_1 None; page_event (sec 3) (sec 1) page_2 None]
        (failing_writer (sec 4)) (final_env (sec 4)) (new_exporter None) ∅ in
  let dead :=
    run (start_env (sec 1) None)
        [page_event (sec 2) (sec 1) page_of_eleven None]
        (dead_writer (sec 1)) (final_env (sec 4)) (new_exporter None) ∅ in
  write_fails failing_round
    (new_writer (map Some (r_put failed) ++ [None])) = true
  /\ error_count (r_self failed) = 1
  /\ r_iterations failed = 2%nat
  /\ r_exit failed = ExitCode 0
  /\ r_exit dead = Hangs.
Proof. vm_compute. repeat split. Qed.

Lemma write_failure_is_counted_not_fatal_witness :
  let run := export_versions insertion_order md5_constant dirname_constant stem_constant
               demo_cfg (start_env (sec 1) None)
               [page_event (sec 2) (sec 1) page_1 None;
                page_event (sec 3) (sec 1) page_2 None] in
  let w := new_writer [Some demo_row; None] in
  w_errors (writer_iteration failing_round w) = w_errors w + 1
  /\ units (write_remaining IoOk (writer_iteration failing_round w)).1
     = [[]; [demo_row]]
  /\ r_requests (run (failing_writer (sec 4)) (final_env (sec 4)) (new_exporter None) ∅)
     = r_requests (run (good_writer (sec 4)) (final_env (sec 4)) (new_exporter None) ∅).
Proof.
  destruct (write_failure_is_counted_not_fatal
              insertion_order md5_constant dirname_constant stem_constant
              demo_cfg (start_env (sec 1) None)
              [page_event (sec 2) (sec 1) page_1 None;
               page_event (sec 3) (sec 1) page_2 None]
              (failing_writer (sec 4)) (good_writer (sec 4)) (final_env (sec 4))
              (new_exporter None) ∅ failing_round {| w_take := 5; w_io := IoOk |}
              (new_writer [Some demo_row; None]))
    as ((He & _) & _ & _ & (Hr & _)).
  - reflexivity.
  - reflexivity.
  - reflexivity.
  - reflexivity.
  - reflexivity.
  - split; [exact He|]. split; [reflexivity|exact Hr].
Defined.

(** ** C5: the trim under an iteration order that is not the insertion order *)

Lemma marked_inj (z1 z2 : Z) :
  key_version ("key" +:+ pretty z1) "null" = key_version ("key" +:+ pretty z2) "null" ->
  z1 = z2.
Proof.
  intros H.
  destruct (key_version_inj_no_dash _ _ "null" "null" eq_refl eq_refl H) as [H' _].
  apply (inj (String.app "key")) in H'. now apply (inj pretty) in H'.
Qed.

Lemma marked_lookup (n : Z) (i : nat) :
  Z.of_nat i < n ->
  marked n !! i = Some (key_version ("key" +:+ pretty (Z.of_nat i)) "null").
Proof.
  intros H. unfold marked. rewrite list_lookup_fmap, lookup_seqZ_lt by assumption.
  reflexivity.
Qed.

Lemma marked_NoDup (n : Z) : NoDup (marked n).
Proof.
  unfold marked. apply NoDup_fmap_2_strong; [|apply NoDup_seqZ].
  intros z1 z2 _ _. apply marked_inj.
Qed.

(** When the set is iterated in the reverse of the insertion order, the trim
    keeps the identities that were marked first. *)
Lemma trim_reverse_order (s : list string) :
  NoDup s ->
  LOW_WATERMARK <= Z.of_nat (length s) ->
  trim_processed_keys reverse_order s = reverse (take (Z.to_nat LOW_WATERMARK) s).
Proof.
  intros Hnd Hlen. unfold trim_processed_keys, reverse_order.
  rewrite py_tail_reverse by (unfold LOW_WATERMARK in *; lia).
  apply set_of_list_NoDup. rewrite reverse_Permutation.
  eapply sublist_NoDup; [exact Hnd|apply sublist_take].
Qed.

(** C5, at the failing input.  200,000 identities are marked one after the
    other, so that the set reaches the high watermark.  Iterated in the
    reverse of the insertion order (an enumeration of the set like any
    other), the set is trimmed to the identity marked first and the ones
    after it: the identity marked last is evicted and the one marked first
    survives. *)
Theorem trim_evicts_most_recent :
  Z.of_nat (length (marked 200000)) = HIGH_WATERMARK
  /\ last (marked 200000) = Some "key199999-null"
  /\ head (marked 200000) = Some "key0-null"
  /\ ("key199999-null" ∉ trim_processed_keys reverse_order (marked 200000))
  /\ ("key0-null" ∈ trim_processed_keys reverse_order (marked 200000)).
Proof.
  assert (Hlen : Z.of_nat (length (marked 200000)) = 200000).
  { unfold marked. rewrite length_fmap, length_seqZ. lia. }
  assert (Htrim := trim_reverse_order (marked 200000) (marked_NoDup _)).
  rewrite Htrim by (unfold LOW_WATERMARK; lia).
  split; [exact Hlen|]. split; [|split; [|split]].
  - rewrite last_lookup.
    replace (Init.Nat.pred (length (marked 200000))) with (Z.to_nat 199999) by lia.
    rewrite marked_lookup by lia. rewrite Z2Nat.id by lia. reflexivity.
  - rewrite head_lookup. rewrite (marked_lookup 200000 0) by lia. reflexivity.
  - rewrite elem_of_reverse, elem_of_take. intros (i & Hi & Hlt).
    rewrite marked_lookup in Hi by (unfold LOW_WATERMARK in Hlt; lia).
    apply (inj Some) in Hi.
    change "key199999-null" with (key_version ("key" +:+ pretty 199999) "null") in Hi.
    apply marked_inj in Hi. unfold LOW_WATERMARK in Hlt. lia.
  - rewrite elem_of_reverse, elem_of_take. exists 0%nat. split.
    + rewrite (marked_lookup 200000 0) by lia. reflexivity.
    + unfold LOW_WATERMARK. lia.
Qed.

Lemma trim_keeps_low_watermark_witness :
  Z.of_nat (length (trim_processed_keys insertion_order (marked 10001))) = LOW_WATERMARK.
Proof.
  apply (trim_keeps_low_watermark insertion_order (marked 10001)).
  - reflexivity.
  - apply marked_NoDup.
  - unfold marked, LOW_WATERMARK. rewrite length_fmap, length_seqZ. lia.
Defined.

(* =================================================================== *)
(** ** The further properties at concrete inputs *)
(* =================================================================== *)

Lemma encode_key_inj_witness : ("a b" : string) = "a b".
Proof. apply (encode_key_inj true "a b" "a b"). reflexivity. Defined.

Lemma encode_key_kept_witness :
  encode_key true "logs/2024/a.txt" = "logs/2024/a.txt".
Proof. apply (encode_key_kept true "logs/2024/a.txt"). reflexivity. Defined.

Lemma process_batch_distinct_witness :
  NoDup (processed_keys
           (process_batch seeded_exporter (ApiOk page_with_repeat) "my-bucket"
              None None None false true).1.1.2)
  /\ NoDup (map record_identity
              (fresh_records (processed_keys seeded_exporter)
                 (records_of page_with_repeat))).
Proof.
  destruct (process_batch_distinct seeded_exporter page_with_repeat "my-bucket"
              None None None false true) as (Hset & Hfresh & _).
  - compute_done.
  - split; [exact Hset|exact Hfresh].
Defined.

Lemma dedup_snapshot_round_trip_witness :
  exists d,
    (_load_resume_state (exporter_with_state_file "/work/state.json")
       (_save_resume_state insertion_order
          (with_processed_keys (exporter_with_state_file "/work/state.json")
             ["a-null"; "b-null"])
          ∅ (sec 3) (Some (sec 2)) WriteOk "my-bucket" None
          (Some "b") (Some "null") 1 2).2
       (sec 61) (Some (sec 2)) "my-bucket" None).1 = Loaded d
    /\ st_batch_num d = 1.
Proof.
  refine (proj1 (dedup_snapshot_round_trip insertion_order md5_constant dirname_constant
                   stem_constant
                   (with_processed_keys (exporter_with_state_file "/work/state.json")
                      ["a-null"; "b-null"])
                   (exporter_with_state_file "/work/state.json")
                   ∅ "my-bucket" None "/work/state.json" (Some (sec 2))
                   (Some "b") (Some "null") 1 2 (sec 3) (sec 61) _ _ _ _)).
  - reflexivity.
  - reflexivity.
  - reflexivity.
  - unfold sec, HOURS_24. lia.
Defined.

Lemma cleanup_removes_checkpoint_witness :
  (_load_resume_state (exporter_with_state_file "/work/state.json")
     (_cleanup_resume_state (exporter_with_state_file "/work/state.json")
        {[ "/work/state.json" := CkptDict epoch_state ]} true)
     (sec 61) None "my-bucket" None).1 = Rejected NoCheckpointFile.
Proof.
  refine (proj1 (cleanup_removes_checkpoint (exporter_with_state_file "/work/state.json")
                   {[ "/work/state.json" := CkptDict epoch_state ]} "/work/state.json"
                   (sec 61) None "my-bucket" None _)).
  reflexivity.
Defined.

Lemma empty_prefix_shares_checkpoint_file_witness :
  (_load_resume_state
     (exporter_with_state_file
        (_generate_resume_state_filename md5_constant dirname_constant stem_constant
           "my-bucket" (Some EmptyString) "versions.csv"))
     (_save_resume_state insertion_order
        (exporter_with_state_file
           (_generate_resume_state_filename md5_constant dirname_constant stem_constant
              "my-bucket" None "versions.csv"))
        ∅ (sec 3) (Some (sec 2)) WriteOk "my-bucket" None
        (Some "b") (Some "null") 1 2).2
     (sec 61) (Some (sec 2)) "my-bucket" (Some EmptyString)).1
  = Rejected (PrefixMismatch None (Some EmptyString)).
Proof.
  refine (proj2 (empty_prefix_shares_checkpoint_file insertion_order md5_constant
                   dirname_constant stem_constant
                   (exporter_with_state_file
                      (_generate_resume_state_filename md5_constant dirname_constant
                         stem_constant "my-bucket" None "versions.csv"))
                   (exporter_with_state_file
                      (_generate_resume_state_filename md5_constant dirname_constant
                         stem_constant "my-bucket" (Some EmptyString) "versions.csv"))
                   ∅ "my-bucket" "versions.csv" (Some (sec 2))
                   (Some "b") (Some "null") 1 2 (sec 3) (sec 61) _ _)).
  - reflexivity.
  - reflexivity.
Defined.

Lemma headerless_csv_identities_witness :
  csv_identities (["my-bucket"; "a"; "null"] :: [["my-bucket"; "b"; "null"]])
  = replicate (length (filter (fun cells : list string => cells <> [])
                         [["my-bucket"; "b"; "null"]])) "-".
Proof.
  apply (headerless_csv_identities ["my-bucket"; "a"; "null"] [["my-bucket"; "b"; "null"]]).
  - compute_done.
  - compute_done.
Defined.

Lemma csv_identities_agree_witness :
  csv_identities
    (fieldnames false
     :: map row_cells (map (row_of_record "my-bucket" false false)
                         [inl (demo_version "a b" "null")]))
  = map record_identity [inl (demo_version "a b" "null")].
Proof.
  apply (csv_identities_agree "my-bucket" false false [inl (demo_version "a b" "null")]).
  - left. split; [reflexivity|]. constructor; [reflexivity|constructor].
  - constructor; [reflexivity|constructor].
Defined.

Lemma writer_loses_no_row_witness :
  demo_row ∈ concat (units (csv_writer_worker StartOk [ {| w_take := 5; w_io := IoOk |} ]
                              IoOk [Some demo_row; None]).1)
  <-> demo_row ∈ queue_rows [Some demo_row; None].
Proof.
  apply (writer_loses_no_row StartOk [ {| w_take := 5; w_io := IoOk |} ] IoOk
           [Some demo_row; None]).
  reflexivity.
Defined.

Lemma writer_writes_each_row_once_witness :
  w_processed (csv_writer_worker StartOk [ {| w_take := 5; w_io := IoOk |} ] IoOk
                 [Some demo_row; None]).1
  = Z.of_nat (length (queue_rows [Some demo_row; None])).
Proof.
  refine (proj1 (proj2 (proj2
            (writer_writes_each_row_once [ {| w_take := 5; w_io := IoOk |} ]
               [Some demo_row; None] _ _)))).
  - constructor; [reflexivity|constructor].
  - vm_compute. discriminate.
Defined.

Lemma writer_buffer_bounded_witness :
  writer_bounded (writer_loop full_rounds (new_writer long_queue)).1.
Proof.
  apply (writer_buffer_bounded full_rounds long_queue).
  repeat constructor.
Defined.

Lemma failed_write_repeats_rows_witness :
  units (write_remaining IoOk
           (writer_loop []
              (writer_iteration fails_at_second_row (new_writer three_rows))).1).1
  = units (new_writer three_rows)
    ++ [take 1 (sort_by_key_name
                  (sort_buffer (new_writer three_rows)
                   ++ collected fails_at_second_row (new_writer three_rows)));
        sort_by_key_name
          (sort_buffer (new_writer three_rows)
           ++ collected fails_at_second_row (new_writer three_rows))].
Proof.
  apply (failed_write_repeats_rows fails_at_second_row [] (new_writer three_rows) 1).
  - reflexivity.
  - reflexivity.
  - vm_compute. lia.
  - reflexivity.
Defined.

Lemma refreshed_credentials_retry_same_page_witness :
  exists st',
    loop_iteration insertion_order demo_cfg true
      (error_event (sec 2) (ApiClientError "ExpiredToken") true)
      (empty_loop_state (exporter_with_state_file "/work/state.json"))
    = inl st'
    /\ l_next_key_marker st' = None.
Proof.
  destruct (refreshed_credentials_retry_same_page insertion_order demo_cfg
              (error_event (sec 2) (ApiClientError "ExpiredToken") true)
              (empty_loop_state (exporter_with_state_file "/work/state.json"))
              "ExpiredToken")
    as (st' & Hit & Hkey & _).
  - reflexivity.
  - reflexivity.
  - reflexivity.
  - reflexivity.
  - exists st'. split; [exact Hit|exact Hkey].
Defined.

Lemma listing_puts_every_record_witness :
  exists st',
    listing_loop insertion_order demo_cfg false
      ([page_event (sec 2) (sec 1) plain_page_1 None]
       ++ page_event (sec 3) (sec 1) plain_page_2 None :: [])
      (empty_loop_state (new_exporter None))
    = (Completed, st', 2%nat)
    /\ l_total_items st' = 2.
Proof.
  destruct (listing_puts_every_record insertion_order md5_constant dirname_constant
              stem_constant demo_cfg false
              [page_event (sec 2) (sec 1) plain_page_1 None]
              (page_event (sec 3) (sec 1) plain_page_2 None) []
              (empty_loop_state (new_exporter None)))
    as (st' & Hloop & _ & Htotal).
  - intros s x Hx. exact Hx.
  - constructor; [|constructor]. exists plain_page_1. repeat split.
  - exists plain_page_2. repeat split.
  - vm_compute. compute_done.
  - intros r _. apply not_elem_of_nil.
  - right. vm_compute. discriminate.
  - exists st'. split; [exact Hloop|exact Htotal].
Defined.

Lemma noresume_leaves_checkpoints_alone_witness :
  r_fs (export_versions insertion_order md5_constant dirname_constant stem_constant
          noresume_cfg (start_env (sec 1) None) two_pages (good_writer (sec 4))
          (final_env (sec 4)) (new_exporter None)
          {[ "/work/other.json" := CkptDict epoch_state ]})
  = {[ "/work/other.json" := CkptDict epoch_state ]}.
Proof.
  apply (noresume_leaves_checkpoints_alone insertion_order md5_constant dirname_constant
           stem_constant noresume_cfg (start_env (sec 1) None) two_pages
           (good_writer (sec 4)) (final_env (sec 4)) (new_exporter None)
           {[ "/work/other.json" := CkptDict epoch_state ]}).
  reflexivity.
Defined.

Lemma completed_run_and_checkpoint_witness :
  r_fs (export_versions insertion_order md5_constant dirname_constant stem_constant
          demo_cfg (start_env (sec 1) None) two_pages (good_writer (sec 4))
          (final_env (sec 4)) (new_exporter None) ∅)
    !! state_path md5_constant dirname_constant stem_constant demo_cfg
  = None.
Proof.
  refine (proj1 (completed_run_and_checkpoint insertion_order md5_constant
                   dirname_constant stem_constant demo_cfg (start_env (sec 1) None)
                   two_pages (good_writer (sec 4)) (final_env (sec 4))
                   (new_exporter None) ∅ _ _ _ _ _) _).
  - reflexivity.
  - repeat constructor.
  - reflexivity.
  - reflexivity.
  - vm_compute. discriminate.
  - reflexivity.
Defined.

Lemma declined_overwrite_changes_nothing_witness :
  r_exit (export_versions insertion_order md5_constant dirname_constant stem_constant
            demo_cfg (start_env (sec 61) (Some one_row_file)) two_pages
            (good_writer (sec 64)) (final_env (sec 64)) (new_exporter None) ∅)
  = ExitCode 0
  /\ r_out (export_versions insertion_order md5_constant dirname_constant stem_constant
              demo_cfg (start_env (sec 61) (Some one_row_file)) two_pages
              (good_writer (sec 64)) (final_env (sec 64)) (new_exporter None) ∅)
     = Some one_row_file.
Proof.
  destruct (declined_overwrite_changes_nothing insertion_order md5_constant
              dirname_constant stem_constant demo_cfg
              (start_env (sec 61) (Some one_row_file)) two_pages
              (good_writer (sec 64)) (final_env (sec 64)) (new_exporter None) ∅
              one_row_file)
    as (Hexit & _ & Hout & _).
  - reflexivity.
  - reflexivity.
  - reflexivity.
  - reflexivity.
  - left. reflexivity.
  - reflexivity.
  - split; [exact Hexit|exact Hout].
Defined.

Lemma empty_error_message_ends_listing_witness :
  exists st',
    loop_iteration insertion_order demo_cfg true
      (error_event (sec 2) (ApiException EmptyString) false)
      (empty_loop_state (exporter_with_state_file "/work/state.json"))
    = inr (Completed, st')
    /\ l_put st' = [].
Proof.
  destruct (empty_error_message_ends_listing insertion_order demo_cfg
              (error_event (sec 2) (ApiException EmptyString) false)
              (empty_loop_state (exporter_with_state_file "/work/state.json")))
    as (st' & Hit & Hput & _).
  - reflexivity.
  - reflexivity.
  - exists st'. split; [exact Hit|exact Hput].
Defined.

Lemma region_without_profile_exits_witness :
  main_exit
    (main insertion_order md5_constant dirname_constant stem_constant
       (demo_args (Some "us-west-2") false) ClientVerified (start_env (sec 1) None)
       two_pages (good_writer (sec 4)) (final_env (sec 4)) ∅)
  = ExitCode 1.
Proof.
  refine (proj2 (proj2 (region_without_profile_exits insertion_order md5_constant
                          dirname_constant stem_constant
                          (demo_args (Some "us-west-2") false) ClientVerified
                          (start_env (sec 1) None) two_pages (good_writer (sec 4))
                          (final_env (sec 4)) ∅ _ _))).
  - reflexivity.
  - reflexivity.
Defined.

Lemma bops_manifest_lines_witness :
  Forall (fun line =>
            exists ev rec,
              ev ∈ two_pages /\ rec ∈ event_records ev
              /\ line = [a_bucket (demo_args None true);
                         encode_key (negb (a_nourlencoding (demo_args None true)))
                           (record_key rec);
                         record_version_id rec])
         (from_option o_lines []
            (r_out (export_versions insertion_order md5_constant dirname_constant
                      stem_constant (config_of_args (demo_args None true))
                      (start_env (sec 1) None) two_pages (good_writer (sec 4))
                      (final_env (sec 4)) (new_exporter None) ∅))).
Proof.
  apply (bops_manifest_lines insertion_order md5_constant dirname_constant stem_constant
           (demo_args None true) ClientVerified (start_env (sec 1) None) two_pages
           (good_writer (sec 4)) (final_env (sec 4)) ∅).
  - reflexivity.
  - reflexivity.
  - reflexivity.
Defined.

Lemma resumed_run_only_appends_witness :
  exists out rows,
    r_out (export_versions insertion_order md5_constant dirname_constant stem_constant
             demo_cfg (start_env (sec 61) (Some one_row_file))
             [page_event (sec 62) (sec 4) page_2 None] (good_writer (sec 64))
             (final_env (sec 64)) (new_exporter None)
             {[ state_path md5_constant dirname_constant stem_constant demo_cfg
                := CkptDict epoch_state ]})
    = Some out
    /\ o_lines out = o_lines one_row_file ++ map row_cells rows
    /\ Forall (listed demo_cfg [page_event (sec 62) (sec 4) page_2 None]) rows.
Proof.
  apply (resumed_run_only_appends insertion_order md5_constant dirname_constant
           stem_constant demo_cfg (start_env (sec 61) (Some one_row_file))
           [page_event (sec 62) (sec 4) page_2 None] (good_writer (sec 64))
           (final_env (sec 64)) (new_exporter None)
           {[ state_path md5_constant dirname_constant stem_constant demo_cfg
              := CkptDict epoch_state ]}
           one_row_file epoch_state).
  - reflexivity.
  - reflexivity.
  - reflexivity.
  - reflexivity.
  - apply lookup_singleton_eq.
  - intros reason Hcond. inversion Hcond; subst.
    + match goal with H : _ <> _ |- _ => apply H; reflexivity end.
    + match goal with H : _ <> _ |- _ => apply H; reflexivity end.
    + match goal with H : st_timestamp epoch_state = TsAt _ |- _ =>
        injection H as <- end.
      match goal with H : HOURS_24 < _ |- _ => revert H end.
      unfold HOURS_24, sec, start_env. cbn. lia.
    + discriminate.
    + match goal with H : st_csv_mtime epoch_state = Some _ |- _ =>
        injection H as <- end.
      match goal with H : 0 <> 0 |- _ => apply H; reflexivity end.
Defined.

Lemma failed_run_checkpoint_counts_failed_batch_witness :
  exists d,
    r_fs (export_versions insertion_order md5_constant dirname_constant stem_constant
            demo_cfg (start_env (sec 1) None)
            [page_event (sec 2) (sec 1) page_1 None;
             error_event (sec 3) (ApiClientError "AccessDenied") false]
            (good_writer (sec 4)) (final_env (sec 4)) (new_exporter None) ∅)
      !! state_path md5_constant dirname_constant stem_constant demo_cfg
    = Some (CkptDict d)
    /\ st_batch_num d = 2.
Proof.
  destruct (failed_run_checkpoint_counts_failed_batch insertion_order md5_constant
              dirname_constant stem_constant demo_cfg (start_env (sec 1) None)
              [page_event (sec 2) (sec 1) page_1 None;
               error_event (sec 3) (ApiClientError "AccessDenied") false]
              (good_writer (sec 4)) (final_env (sec 4)) (new_exporter None) ∅)
    as (d & Hd & _ & _ & _ & _ & Hfresh).
  - reflexivity.
  - reflexivity.
  - reflexivity.
  - vm_compute. discriminate.
  - vm_compute. reflexivity.
  - exists d. split; [exact Hd|].
    destruct (Hfresh eq_refl) as [Hbn _]. rewrite Hbn. reflexivity.
Defined.

(** With URL encoding off a key that holds a carriage return is written as
    it is and read back with a line feed in its place: the identity seeded
    from the file is not the one computed when the record was fetched. *)
Lemma carriage_return_is_read_as_line_feed :
  let r : record := inl (demo_version (String carriage_return "a") "v1") in
  csv_identities [fieldnames false; row_cells (row_of_record "my-bucket" false false r)]
  = [key_version (String line_feed "a") "v1"]
  /\ record_identity r = key_version (String carriage_return "a") "v1"
  /\ key_version (String line_feed "a") "v1"
     <> key_version (String carriage_return "a") "v1".
Proof. vm_compute. repeat split. discriminate. Qed.
